(** * Cloudflare dynamic-DNS updater: a model of [server.js]

    The development embeds the poll / detect / upsert loop of [server.js]
    together with its JSON audit log, and states the properties of the
    written specification over that embedding.

    Everything outside the program is explicit:
    - the two globals [currentIPv4] / [currentIPv6] are the [AddressState]
      of the world;
    - the log directory and [log/latest.json] are two fields of the world;
      the program is first embedded over a file system whose calls go
      through, and the audit log and the configuration check a second time
      ([Fallible]) over one whose calls can throw;
    - the clock, the address-echo service and the DNS provider are oracles
      ([Outside]); the n-th reading of the clock and the reply to the n-th
      HTTP request are whatever the oracle says;
    - every HTTP request is recorded, in order, with the [AddressState] the
      program held when the request was issued;
    - Node's call stack is finite: a call of [appendToLogFile] made when the
      stack budget is used up throws a [RangeError]. *)

From Stdlib Require Import List String Ascii ZArith Bool Lia Arith.
From Stdlib Require Import DecimalString DecimalPos.
Import ListNotations.

Set Warnings "-register-all".
Local Open Scope string_scope.
Local Open Scope list_scope.

(* ================================================================== *)
(** ** JSON values and the fragment of JavaScript the program uses     *)
(* ================================================================== *)

(** Numbers are integers: those are the only numbers the program itself
    writes (ttl, IP version, attempt counts). *)
Inductive json : Type :=
| JNull
| JBool (b : bool)
| JNum (n : Z)
| JStr (s : string)
| JArr (items : list json)
| JObj (fields : list (string * json)).

(** A JavaScript value that came out of JSON, or [undefined] ([None]). *)
Definition jsval := option json.

Definition obj := list (string * json).

(** [o[k]] on a plain object. *)
Fixpoint field (k : string) (o : obj) : jsval :=
  match o with
  | [] => None
  | (k', v) :: rest => if String.eqb k' k then Some v else field k rest
  end.

(** [o[k] = v]: an existing key keeps its position, a new key goes last. *)
Fixpoint set_field (k : string) (v : json) (o : obj) : obj :=
  match o with
  | [] => [(k, v)]
  | (k', v') :: rest =>
      if String.eqb k' k then (k', v) :: rest else (k', v') :: set_field k v rest
  end.

(** [{ ...base, ...more }] *)
Definition spread (base more : obj) : obj :=
  fold_left (fun o kv => set_field (fst kv) (snd kv) o) more base.

(** A property whose value may be [undefined] is dropped by [JSON.stringify]
    (and by axios when it serialises query parameters). *)
Definition opt_prop (k : string) (v : option string) : obj :=
  match v with
  | Some s => [(k, JStr s)]
  | None => []
  end.

(** JavaScript truthiness. *)
Definition truthy (v : jsval) : bool :=
  match v with
  | None => false
  | Some JNull => false
  | Some (JBool b) => b
  | Some (JNum n) => negb (Z.eqb n 0)
  | Some (JStr s) => negb (String.eqb s EmptyString)
  | Some (JArr _) => true
  | Some (JObj _) => true
  end.

(** Truthiness of a value that is a string or [null]/[undefined]. *)
Definition truthy_str (v : option string) : bool :=
  match v with
  | Some s => negb (String.eqb s EmptyString)
  | None => false
  end.

(** [a !== b] on values that are strings or [null]. *)
Definition strict_neq (a b : option string) : bool :=
  match a, b with
  | Some x, Some y => negb (String.eqb x y)
  | None, None => false
  | _, _ => true
  end.

(** [`${v}`] for a value that is a string or [undefined]. *)
Definition tmpl (v : option string) : string :=
  match v with
  | Some s => s
  | None => "undefined"
  end.

(** [`${n}`] for an integer. *)
Definition show_Z (n : Z) : string := NilZero.string_of_int (Z.to_int n).

(** [xs.join(sep)] *)
Fixpoint join (sep : string) (xs : list string) : string :=
  match xs with
  | [] => EmptyString
  | [x] => x
  | x :: rest => x ++ sep ++ join sep rest
  end.

(* ------------------------------------------------------------------ *)
(** *** Errors and outcomes                                            *)
(* ------------------------------------------------------------------ *)

Inductive JsError : Type :=
| AxiosError (message : string) (response_data : option json)
| SyntaxError (message : string)
| TypeError (message : string)
| RangeError (message : string)
| SystemError (message : string).

(** [error.message] *)
Definition message_of (e : JsError) : string :=
  match e with
  | AxiosError m _ => m
  | SyntaxError m => m
  | TypeError m => m
  | RangeError m => m
  | SystemError m => m
  end.

(** [error.response?.data] *)
Definition response_data_of (e : JsError) : jsval :=
  match e with
  | AxiosError _ d => d
  | _ => None
  end.

(** [error.response?.data || error.message] *)
Definition error_payload (e : JsError) : json :=
  match response_data_of e with
  | Some d => if truthy (Some d) then d else JStr (message_of e)
  | None => JStr (message_of e)
  end.

(** How a call ends: it returns, it throws, or the process has exited. *)
Inductive Outcome (A : Type) : Type :=
| Done (a : A)
| Thrown (e : JsError)
| Exited (code : Z).
Arguments Done {A} a.
Arguments Thrown {A} e.
Arguments Exited {A} code.

(** [v[k]] on an arbitrary value: reading a property of [null] or
    [undefined] is a [TypeError]. *)
Definition get_prop (v : jsval) (k : string) : Outcome jsval :=
  match v with
  | None => Thrown (TypeError ("Cannot read properties of undefined (reading '" ++ k ++ "')"))
  | Some JNull => Thrown (TypeError ("Cannot read properties of null (reading '" ++ k ++ "')"))
  | Some (JObj o) => Done (field k o)
  | Some (JArr items) =>
      if String.eqb k "length" then Done (Some (JNum (Z.of_nat (List.length items)))) else Done None
  | Some (JStr s) =>
      if String.eqb k "length" then Done (Some (JNum (Z.of_nat (String.length s)))) else Done None
  | Some _ => Done None
  end.

(* ================================================================== *)
(** ** The world                                                       *)
(* ================================================================== *)

(** The two module-level variables [currentIPv4], [currentIPv6]. *)
Record AddressState : Type := mkAddr {
  currentIPv4 : option string;
  currentIPv6 : option string
}.

(** What [log/latest.json] holds.  [Document j] is any text that
    [JSON.parse] accepts and maps to [j] (so [JSON.stringify] of [j] is
    stored as [Document j]); [Unparseable raw why] is text that
    [JSON.parse] rejects with the [SyntaxError] message [why]. *)
Inductive FileContent : Type :=
| Document (j : json)
| Unparseable (raw : string) (why : string).

Inductive Method : Type := GET | POST | PUT.

Record Request : Type := mkRequest {
  method : Method;
  url : string;
  headers : list (string * string);
  params : obj;
  body : option json;
  timeout : option Z            (* axios' [timeout] option, in ms; absent = none *)
}.

(** A request together with the [AddressState] held when it was issued. *)
Record Issued : Type := mkIssued {
  request : Request;
  state_at_issue : AddressState
}.

Inductive Stream : Type := StdLog | StdWarn | StdError.

Record ConsoleLine : Type := mkLine {
  stream : Stream;
  args : list json
}.

Inductive Timer : Type :=
| Sleep (ms : Z)                (* [await new Promise(r => setTimeout(r, ms))] *)
| Interval (ms : Z).            (* [setInterval(monitorIpAddress, ms)] *)

Record World : Type := mkWorld {
  addr : AddressState;
  log_dir : bool;                       (* [fs.existsSync(LOG_DIRECTORY)] *)
  log_file : option FileContent;        (* [log/latest.json], if it exists *)
  clock_reads : nat;                    (* [new Date()] evaluated so far *)
  requests : list Issued;               (* HTTP requests issued so far *)
  console : list ConsoleLine;
  timers : list Timer
}.

Definition set_addr (a : AddressState) (w : World) : World :=
  mkWorld a (log_dir w) (log_file w) (clock_reads w) (requests w) (console w) (timers w).
Definition set_log_dir (b : bool) (w : World) : World :=
  mkWorld (addr w) b (log_file w) (clock_reads w) (requests w) (console w) (timers w).
Definition set_log_file (f : option FileContent) (w : World) : World :=
  mkWorld (addr w) (log_dir w) f (clock_reads w) (requests w) (console w) (timers w).
Definition tick (w : World) : World :=
  mkWorld (addr w) (log_dir w) (log_file w) (S (clock_reads w)) (requests w) (console w) (timers w).
Definition push_request (r : Request) (w : World) : World :=
  mkWorld (addr w) (log_dir w) (log_file w) (clock_reads w)
          (requests w ++ [mkIssued r (addr w)]) (console w) (timers w).
Definition push_console (l : ConsoleLine) (w : World) : World :=
  mkWorld (addr w) (log_dir w) (log_file w) (clock_reads w) (requests w) (console w ++ [l]) (timers w).
Definition push_timer (t : Timer) (w : World) : World :=
  mkWorld (addr w) (log_dir w) (log_file w) (clock_reads w) (requests w) (console w) (timers w ++ [t]).

(** How an axios promise settles. *)
Inductive Settled (A : Type) : Type :=
| Fulfilled (data : A)
| Rejected (message : string) (response_data : option json).
Arguments Fulfilled {A} data.
Arguments Rejected {A} message response_data.

(** [response.data] of the provider's list call: [{ success, result: [{id, ...}, ...] }]. *)
Record RecordInfo : Type := mkRecordInfo { id : string }.
Record ListData : Type := mkListData {
  list_success : bool;
  result : list RecordInfo
}.

(** [response.data] of the provider's create / update call. *)
Record WriteData : Type := mkWriteData {
  write_success : bool;
  write_raw : json               (* the whole of [response.data], as logged *)
}.

(** The surroundings of the process.  Replies have the shape the two
    services document; the index is the number of requests issued before. *)
Record Outside : Type := mkOutside {
  clock : nat -> string;                              (* ISO-8601 time of the n-th reading *)
  echo_reply : nat -> Request -> Settled string;      (* [response.data.ip] *)
  list_reply : nat -> Request -> Settled ListData;
  write_reply : nat -> Request -> Settled WriteData;
  stack_limit : nat                                   (* frames of [appendToLogFile] that fit *)
}.

(* ================================================================== *)
(** ** A state-and-exception monad for the program text                *)
(* ================================================================== *)

Definition M (A : Type) : Type := World -> Outcome A * World.

Definition ret {A} (a : A) : M A := fun w => (Done a, w).

Definition bind {A B} (m : M A) (k : A -> M B) : M B :=
  fun w =>
    match m w with
    | (Done a, w') => k a w'
    | (Thrown e, w') => (Thrown e, w')
    | (Exited c, w') => (Exited c, w')
    end.

Definition throw {A} (e : JsError) : M A := fun w => (Thrown e, w).

(** [try { body } catch (e) { handler e }]; [process.exit] is not caught. *)
Definition try_catch {A} (body : M A) (handler : JsError -> M A) : M A :=
  fun w =>
    match body w with
    | (Thrown e, w') => handler e w'
    | other => other
    end.

Definition lift {A} (o : Outcome A) : M A := fun w => (o, w).

Declare Scope js_scope.
Delimit Scope js_scope with js.
Notation "x <- m ;; k" := (bind m (fun x => k))
  (at level 61, m at next level, right associativity) : js_scope.
Notation "m ;; k" := (bind m (fun _ => k))
  (at level 61, right associativity) : js_scope.
Local Open Scope js_scope.

Definition get_addr : M AddressState := fun w => (Done (addr w), w).
Definition put_addr (a : AddressState) : M unit := fun w => (Done tt, set_addr a w).
Definition console_out (s : Stream) (xs : list json) : M unit :=
  fun w => (Done tt, push_console (mkLine s xs) w).
Definition set_timer (t : Timer) : M unit := fun w => (Done tt, push_timer t w).
Definition process_exit {A} (code : Z) : M A := fun w => (Exited code, w).

(* ================================================================== *)
(** ** Configuration: [process.env] and the module-level constants     *)
(* ================================================================== *)

(** [process.env]: a variable is a string or is not set. *)
Definition Env := string -> option string.

Definition env_of (l : list (string * string)) : Env :=
  fun k =>
    match find (fun kv => String.eqb (fst kv) k) l with
    | Some kv => Some (snd kv)
    | None => None
    end.

Definition digit_of (c : ascii) : option Z :=
  let n := nat_of_ascii c in
  if ((48 <=? n) && (n <=? 57))%nat then Some (Z.of_nat (n - 48)) else None.

Fixpoint leading_digits (s : string) (acc : option Z) : option Z :=
  match s with
  | EmptyString => acc
  | String c rest =>
      match digit_of c with
      | Some d =>
          leading_digits rest
            (Some (10 * match acc with Some a => a | None => 0 end + d)%Z)
      | None => acc
      end
  end.

(** White space and line terminators of one byte: TAB, LF, VT, FF, CR and
    the space. *)
Definition is_space (c : ascii) : bool :=
  let n := nat_of_ascii c in
  ((n =? 32) || ((9 <=? n) && (n <=? 13)))%nat.

(** The other characters that [parseInt] skips, in their three-byte UTF-8
    encoding: U+1680, U+2000 to U+200A, U+2028, U+2029, U+202F, U+205F,
    U+3000 and U+FEFF.  (U+00A0 is the two bytes 194 160.) *)
Definition wide_space (a b c : nat) : bool :=
  (((a =? 225) && (b =? 154) && (c =? 128)) ||
   ((a =? 226) && (b =? 128) &&
    (((128 <=? c) && (c <=? 138)) || (c =? 168) || (c =? 169) || (c =? 175))) ||
   ((a =? 226) && (b =? 129) && (c =? 159)) ||
   ((a =? 227) && (b =? 128) && (c =? 128)) ||
   ((a =? 239) && (b =? 187) && (c =? 191)))%nat.

(** Leading white space is dropped; a string is the UTF-8 encoding of its
    text. *)
Fixpoint skip_space (s : string) : string :=
  match s with
  | String c rest =>
      let a := nat_of_ascii c in
      if is_space c then skip_space rest
      else if (a =? 194)%nat then
        match rest with
        | String c2 rest2 =>
            if (nat_of_ascii c2 =? 160)%nat then skip_space rest2 else s
        | EmptyString => s
        end
      else if ((a =? 225) || (a =? 226) || (a =? 227) || (a =? 239))%nat then
        match rest with
        | String c2 (String c3 rest3) =>
            if wide_space a (nat_of_ascii c2) (nat_of_ascii c3) then skip_space rest3 else s
        | _ => s
        end
      else s
  | EmptyString => s
  end.

(** The integer a double holds for the integer [m]: [m] itself when it has
    at most 53 significant bits, else [m] rounded to 53 significant bits,
    to nearest and to even on a tie.  (An integer that rounds to 2^1024 or
    beyond is [Infinity] in JavaScript; the settings of the program are
    integers, so the model keeps the rounded integer there.) *)
Definition to_double (m : Z) : Z :=
  let a := Z.abs m in
  let bits := (Z.log2 a + 1)%Z in
  if (bits <=? 53)%Z then m
  else
    let e := (bits - 53)%Z in
    let q := Z.shiftr a e in
    let r := (a - Z.shiftl q e)%Z in
    let half := Z.shiftl 1 (e - 1) in
    let q' := if ((half <? r) || ((r =? half) && Z.odd q))%Z then (q + 1)%Z else q in
    (Z.sgn m * Z.shiftl q' e)%Z.

(** [parseInt(v, 10)]; [None] is [NaN].  White space is skipped, then an
    optional sign, then the digits up to the first character that is not
    one; the value is the double nearest to the number read. *)
Definition parseInt (v : option string) : option Z :=
  match v with
  | None => None
  | Some s =>
      option_map to_double
        match skip_space s with
        | String "-"%char rest => option_map Z.opp (leading_digits rest None)
        | String "+"%char rest => leading_digits rest None
        | s' => leading_digits s' None
        end
  end.

(** [parseInt(v, 10) || d] *)
Definition parseInt_or (v : option string) (d : Z) : Z :=
  match parseInt v with
  | Some n => if Z.eqb n 0 then d else n
  | None => d
  end.

(** [v === 'true'] *)
Definition is_true_str (v : option string) : bool :=
  match v with
  | Some s => String.eqb s "true"
  | None => false
  end.

Definition MONITOR_INTERVAL : Z := 60000.
Definition IPV4_FETCH_URL : string := "https://api.ipify.org?format=json".
Definition IPV6_FETCH_URL : string := "https://api64.ipify.org?format=json".

Section Program.

Variable env : Env.
Variable out : Outside.

Definition port : string :=
  if truthy_str (env "PORT") then tmpl (env "PORT") else "3000".

Definition cloudflareZoneId : option string := env "CF_ZONE_ID".
Definition cloudflareApiToken : option string := env "CF_API_TOKEN".
Definition cloudflareDnsName : option string := env "CF_DNS_NAME".
Definition isCloudflareProxyEnabled : bool := is_true_str (env "CF_DNS_PROXIED").
Definition cloudflareDnsTtl : Z := parseInt_or (env "CF_DNS_TTL") 3600.
Definition isIPv6Enabled : bool := is_true_str (env "CF_ENABLE_IPV6").
Definition ipFetchRetryCount : Z := parseInt_or (env "CF_IP_FETCH_RETRY_COUNT") 3.
Definition logRotationEnabled : bool := is_true_str (env "CF_LOG_ROTATION").

(* ------------------------------------------------------------------ *)
(** *** Primitives that consult the outside                            *)
(* ------------------------------------------------------------------ *)

(** [new Date().toISOString()] *)
Definition now : M string :=
  fun w => (Done (clock out (clock_reads w)), tick w).

(** [await axios.<method>(...)]: the request is recorded, then the promise
    settles as the oracle says. *)
Definition axios {A} (oracle : nat -> Request -> Settled A) (r : Request) : M A :=
  fun w =>
    match oracle (List.length (requests w)) r with
    | Fulfilled d => (Done d, push_request r w)
    | Rejected m rd => (Thrown (AxiosError m rd), push_request r w)
    end.

(* ================================================================== *)
(** ** The audit log                                                   *)
(* ================================================================== *)

Definition emptyDocument : json := JObj [("metadata", JObj []); ("logs", JArr [])].

(** [ensureLogFile] when [mkdirSync] and [writeFileSync] go through;
    [Fallible.ensureLogFile] below is the function with the calls that
    throw, and agrees with this one on a file system that works. *)
Definition ensureLogFile : M unit :=
  fun w =>
    let w1 := if log_dir w then w else set_log_dir true w in
    let w2 := match log_file w1 with
              | Some _ => w1
              | None => set_log_file (Some (Document emptyDocument)) w1
              end in
    (Done tt, w2).

Definition existsLogFile : M bool :=
  fun w => (Done (match log_file w with Some _ => true | None => false end), w).

(** [fs.readFileSync(LOG_FILE_PATH, 'utf8')] *)
Definition readLogFile : M FileContent :=
  fun w =>
    match log_file w with
    | Some content => (Done content, w)
    | None => (Thrown (SystemError "ENOENT: no such file or directory"), w)
    end.

(** [JSON.parse(logFileContent)] *)
Definition JSON_parse (content : FileContent) : M json :=
  match content with
  | Document j => ret j
  | Unparseable _ why => throw (SyntaxError why)
  end.

(** [fs.writeFileSync(LOG_FILE_PATH, JSON.stringify(logData, null, 2), 'utf8')] *)
Definition writeLogFile (logData : json) : M unit :=
  fun w => (Done tt, set_log_file (Some (Document logData)) w).

(** The object literal [{ timestamp, level, ...data }]. *)
Definition make_entry (timestamp level : string) (data : obj) : json :=
  JObj (spread [("timestamp", JStr timestamp); ("level", JStr level)] data).

(** [logData.logs.push({ timestamp: new Date().toISOString(), level, ...data })]:
    the callee is read first (a [TypeError] when [logData] or [logData.logs]
    is [null] or [undefined]), then the argument is evaluated, then the call
    fails unless [logs] is an array. *)
Definition push_log (logData : json) (level : string) (data : obj) : M json :=
  logs <- lift (get_prop (Some logData) "logs") ;;
  _ <- lift (get_prop logs "push") ;;
  timestamp <- now ;;
  match logData, logs with
  | JObj fields, Some (JArr items) =>
      ret (JObj (set_field "logs" (JArr (items ++ [make_entry timestamp level data])) fields))
  | _, _ => throw (TypeError "logData.logs.push is not a function")
  end.

(** [logData.metadata.lastUpdated = new Date().toISOString()]: the right
    side is evaluated, then the store is a [TypeError] when [metadata] is
    [null] or [undefined]; on a primitive the assignment is dropped (the
    module is not in strict mode), on an array it adds a property that
    [JSON.stringify] does not print. *)
Definition touch_metadata (logData : json) : M json :=
  metadata <- lift (get_prop (Some logData) "metadata") ;;
  lastUpdated <- now ;;
  match logData, metadata with
  | _, None =>
      throw (TypeError "Cannot set properties of undefined (setting 'lastUpdated')")
  | _, Some JNull =>
      throw (TypeError "Cannot set properties of null (setting 'lastUpdated')")
  | JObj fields, Some (JObj m) =>
      ret (JObj (set_field "metadata" (JObj (set_field "lastUpdated" (JStr lastUpdated) m)) fields))
  | _, _ => ret logData
  end.

(** [appendToLogFile(level, data)] when the calls of [fs] go through
    ([Fallible.appendToLogFile_in] below has them throw), run with room for
    [stack] frames of itself on the call stack; a frame that was entered
    can run the built-ins it calls.  When the file does not parse, the handler of the
    parse error calls [appendToLogFile] again before anything has been
    rewritten, so that call meets the same file. *)
Fixpoint appendToLogFile_in (stack : nat) (level : string) (data : obj) : M unit :=
  match stack with
  | O => throw (RangeError "Maximum call stack size exceeded")
  | S deeper =>
      ensureLogFile ;;
      try_catch
        (lastUpdated <- now ;;
         let fresh := JObj [("metadata", JObj [("lastUpdated", JStr lastUpdated)]);
                            ("logs", JArr [])] in
         present <- existsLogFile ;;
         logData <- (if present : bool then
                       logFileContent <- readLogFile ;;
                       try_catch (JSON_parse logFileContent)
                         (fun parseError =>
                            let errorMessage : string :=
                              ("ログファイルのJSONパースに失敗しました。新規作成します。")%string in
                            console_out StdWarn
                              [JStr errorMessage; JStr (message_of parseError)] ;;
                            appendToLogFile_in deeper "WARN"
                              [("message", JStr errorMessage);
                               ("error", JStr (message_of parseError))] ;;
                            ret fresh)
                     else ret fresh) ;;
         logData <- push_log logData level data ;;
         logData <- touch_metadata logData ;;
         writeLogFile logData)
        (fun error =>
           console_out StdError
             [JStr "ログファイルの更新に失敗しました:"; JStr (message_of error)])
  end.

(** A call from the program: the caller's frame always fits, and
    [stack_limit out] further frames fit below it. *)
Definition appendToLogFile (level : string) (data : obj) : M unit :=
  appendToLogFile_in (S (stack_limit out)) level data.

(* ================================================================== *)
(** ** Start-up check of the configuration                             *)
(* ================================================================== *)

Definition requiredEnvVars : list string := ["CF_ZONE_ID"; "CF_API_TOKEN"; "CF_DNS_NAME"].

(** [requiredEnvVars.filter(key => !process.env[key])] *)
Definition missingEnvVars : list string :=
  filter (fun key => negb (truthy_str (env key))) requiredEnvVars.

Definition missing_message : string :=
  "必須環境変数 " ++ join ", " missingEnvVars ++ " が設定されていません。".

Definition ensureRequiredEnvVars : M unit :=
  if (0 <? List.length missingEnvVars)%nat then
    let errorMessage : string := (missing_message)%string in
    console_out StdError [JStr errorMessage] ;;
    appendToLogFile "ERROR" [("message", JStr errorMessage)] ;;
    process_exit 1
  else ret tt.

(* ================================================================== *)
(** ** Record store client                                             *)
(* ================================================================== *)

Definition dns_records_url : string :=
  "https://api.cloudflare.com/client/v4/zones/" ++ tmpl cloudflareZoneId ++ "/dns_records".

(** The object [{ type, name, content, ttl, proxied }] sent on create and
    update. *)
Definition record_body (type ipAddress : string) : json :=
  JObj ([("type", JStr type)] ++ opt_prop "name" cloudflareDnsName ++
        [("content", JStr ipAddress);
         ("ttl", JNum cloudflareDnsTtl);
         ("proxied", JBool isCloudflareProxyEnabled)]).

Definition lookup_request (type : string) : Request :=
  mkRequest GET dns_records_url
    [("Authorization", ("Bearer " ++ tmpl cloudflareApiToken)%string);
     ("Content-Type", "application/json")]
    (opt_prop "name" cloudflareDnsName ++ [("type", JStr type)])
    None
    None.

Definition fetchDnsRecordId (type : string) : M (option string) :=
  try_catch
    (response <- axios (list_reply out) (lookup_request type) ;;
     if list_success response && (0 <? List.length (result response))%nat then
       ret (option_map id (nth_error (result response) 0))
     else
       ret None)
    (fun error =>
       let errorMessage : string :=
         (type ++ "レコードの取得に失敗しました (name: " ++ tmpl cloudflareDnsName ++ ")")%string in
       console_out StdError [JStr ("[fetchDnsRecordId] " ++ errorMessage); error_payload error] ;;
       appendToLogFile "ERROR"
         ([("message", JStr errorMessage); ("type", JStr type)] ++
          opt_prop "dnsName" cloudflareDnsName ++
          [("error", error_payload error)]) ;;
       ret None).

Definition create_request (type ipAddress : string) : Request :=
  mkRequest POST dns_records_url
    [("Content-Type", "application/json");
     ("Authorization", ("Bearer " ++ tmpl cloudflareApiToken)%string)]
    []
    (Some (record_body type ipAddress))
    (Some 10000%Z).

Definition createDnsRecord (type ipAddress : string) : M unit :=
  try_catch
    (response <- axios (write_reply out) (create_request type ipAddress) ;;
     if write_success response then
       console_out StdLog
         [JStr ("[createDnsRecord] " ++ type ++ "レコードを " ++ ipAddress ++ " に作成成功")] ;;
       appendToLogFile "INFO"
         [("message", JStr (type ++ "レコードを " ++ ipAddress ++ " に作成成功"));
          ("type", JStr type);
          ("ipAddress", JStr ipAddress);
          ("response", write_raw response)]
     else
       let errorMessage : string := (type ++ "レコードの作成に失敗")%string in
       console_out StdError [JStr ("[createDnsRecord] " ++ errorMessage); write_raw response] ;;
       appendToLogFile "ERROR"
         [("message", JStr errorMessage);
          ("type", JStr type);
          ("ipAddress", JStr ipAddress);
          ("response", write_raw response)])
    (fun error =>
       let errorMessage : string := (type ++ "レコードの作成中にエラー発生")%string in
       console_out StdError [JStr ("[createDnsRecord] " ++ errorMessage); error_payload error] ;;
       appendToLogFile "ERROR"
         [("message", JStr errorMessage);
          ("type", JStr type);
          ("ipAddress", JStr ipAddress);
          ("error", error_payload error)]).

Definition update_request (recordId type ipAddress : string) : Request :=
  mkRequest PUT (dns_records_url ++ "/" ++ recordId)
    [("Content-Type", "application/json");
     ("Authorization", ("Bearer " ++ tmpl cloudflareApiToken)%string)]
    []
    (Some (record_body type ipAddress))
    (Some 10000%Z).

Definition updateDnsRecord (type ipAddress : string) : M unit :=
  recordId <- fetchDnsRecordId type ;;
  if negb (truthy_str recordId) then
    appendToLogFile "WARN"
      ([("message",
         JStr (type ++ "レコードが見つからなかったため、作成を試みます (name: " ++
               tmpl cloudflareDnsName ++ ")。"));
        ("type", JStr type)] ++ opt_prop "dnsName" cloudflareDnsName) ;;
    console_out StdWarn
      [JStr ("[updateDnsRecord] " ++ type ++ " record not found, attempting to create (name: " ++
             tmpl cloudflareDnsName ++ ").")] ;;
    createDnsRecord type ipAddress
  else
    try_catch
      (response <- axios (write_reply out) (update_request (tmpl recordId) type ipAddress) ;;
       if write_success response then
         console_out StdLog
           [JStr ("[updateDnsRecord] " ++ type ++ "レコードを " ++ ipAddress ++ " に更新成功")] ;;
         appendToLogFile "INFO"
           [("message", JStr (type ++ "レコードを " ++ ipAddress ++ " に更新成功"));
            ("type", JStr type);
            ("ipAddress", JStr ipAddress);
            ("response", write_raw response)]
       else
         let errorMessage : string := (type ++ "レコードの更新に失敗")%string in
         console_out StdError [JStr ("[updateDnsRecord] " ++ errorMessage); write_raw response] ;;
         appendToLogFile "ERROR"
           [("message", JStr errorMessage);
            ("type", JStr type);
            ("ipAddress", JStr ipAddress);
            ("response", write_raw response)])
      (fun error =>
         let errorMessage : string := (type ++ "レコードの更新中にエラー発生")%string in
         console_out StdError [JStr ("[updateDnsRecord] " ++ errorMessage); error_payload error] ;;
         appendToLogFile "ERROR"
           [("message", JStr errorMessage);
            ("type", JStr type);
            ("ipAddress", JStr ipAddress);
            ("error", error_payload error)]).

(* ================================================================== *)
(** ** Address resolver                                                *)
(* ================================================================== *)

Definition echo_request (version : Z) : Request :=
  mkRequest GET (if Z.eqb version 6 then IPV6_FETCH_URL else IPV4_FETCH_URL)
    [] [] None (Some 5000%Z).

(** The [while (attempts < retryCount)] loop of [fetchPublicIpAddress],
    entered with [attempts] attempts already made.  [fuel] bounds the
    number of iterations; [Z.to_nat (retryCount - attempts)] is enough
    ([retry_loop_fuel]). *)
Fixpoint retry_loop (fuel : nat) (version retryCount attempts : Z) : M (option string) :=
  if (attempts <? retryCount)%Z then
    match fuel with
    | O => ret None
    | S fuel' =>
        let attempts := (attempts + 1)%Z in
        try_catch
          (ip <- axios (echo_reply out) (echo_request version) ;;
           ret (Some ip))
          (fun error =>
             let errorMessage : string :=
               ("IPv" ++ show_Z version ++ "アドレスの取得に失敗しました (試行 " ++
               show_Z attempts ++ "/" ++ show_Z retryCount ++ ")")%string in
             console_out StdWarn
               [JStr ("[fetchPublicIpAddress] " ++ errorMessage); JStr (message_of error)] ;;
             appendToLogFile "WARN"
               [("message", JStr errorMessage);
                ("ipVersion", JNum version);
                ("attempt", JNum attempts);
                ("retryCount", JNum retryCount);
                ("error", JStr (message_of error))] ;;
             if (attempts >=? retryCount)%Z then
               let errorMessageMaxRetry : string :=
                 ("IPv" ++ show_Z version ++ "アドレスの取得に最大リトライ回数(" ++
                 show_Z retryCount ++ ")を超過しました。")%string in
               console_out StdError [JStr ("[fetchPublicIpAddress] " ++ errorMessageMaxRetry)] ;;
               appendToLogFile "ERROR"
                 [("message", JStr errorMessageMaxRetry);
                  ("ipVersion", JNum version);
                  ("retryCount", JNum retryCount)] ;;
               ret None
             else
               let delaySeconds := (attempts * 1)%Z in
               console_out StdLog
                 [JStr ("[fetchPublicIpAddress] " ++ show_Z delaySeconds ++
                        "秒後にリトライします...")] ;;
               set_timer (Sleep (delaySeconds * 1000)%Z) ;;
               retry_loop fuel' version retryCount attempts)
    end
  else ret None.

Definition fetchPublicIpAddress_with (version retryCount : Z) : M (option string) :=
  retry_loop (Z.to_nat retryCount) version retryCount 0%Z.

(** [fetchPublicIpAddress(version)] with the default [retryCount]. *)
Definition fetchPublicIpAddress (version : Z) : M (option string) :=
  fetchPublicIpAddress_with version ipFetchRetryCount.

(* ================================================================== *)
(** ** Change detection and the sync cycle                             *)
(* ================================================================== *)

(** Lines 331-346: the IPv4 half of a cycle. *)
Definition monitorIPv4 : M unit :=
  newIPv4 <- fetchPublicIpAddress 4 ;;
  if truthy_str newIPv4 then
    state <- get_addr ;;
    if strict_neq newIPv4 (currentIPv4 state) then
      put_addr (mkAddr newIPv4 (currentIPv6 state)) ;;
      updateDnsRecord "A" (tmpl newIPv4)
    else
      console_out StdLog [JStr "[monitorIpAddress] IPv4アドレスに変更はありません"] ;;
      appendToLogFile "INFO" [("message", JStr "IPv4アドレスに変更はありません")]
  else
    let errorMessage : string := ("IPv4アドレスの取得に失敗しました。DNS更新をスキップします。")%string in
    console_out StdError [JStr ("[monitorIpAddress] " ++ errorMessage)] ;;
    appendToLogFile "ERROR" [("message", JStr errorMessage); ("ipVersion", JNum 4)].

(** Lines 351-366: the IPv6 half of a cycle. *)
Definition monitorIPv6 : M unit :=
  newIPv6 <- fetchPublicIpAddress 6 ;;
  if truthy_str newIPv6 then
    state <- get_addr ;;
    if strict_neq newIPv6 (currentIPv6 state) then
      put_addr (mkAddr (currentIPv4 state) newIPv6) ;;
      updateDnsRecord "AAAA" (tmpl newIPv6)
    else
      console_out StdLog [JStr "[monitorIpAddress] IPv6アドレスに変更はありません"] ;;
      appendToLogFile "INFO" [("message", JStr "IPv6アドレスに変更はありません")]
  else
    let errorMessage : string := ("IPv6アドレスの取得に失敗しました。DNS更新をスキップします。")%string in
    console_out StdError [JStr ("[monitorIpAddress] " ++ errorMessage)] ;;
    appendToLogFile "ERROR" [("message", JStr errorMessage); ("ipVersion", JNum 6)].

Definition monitorIpAddress : M unit :=
  monitorIPv4 ;;
  if isIPv6Enabled then monitorIPv6 else ret tt.

(* ================================================================== *)
(** ** Start-up                                                        *)
(* ================================================================== *)

(** [for (const x of xs) { body x }] *)
Fixpoint for_of {A} (xs : list A) (body : A -> M unit) : M unit :=
  match xs with
  | [] => ret tt
  | x :: rest => body x ;; for_of rest body
  end.

Definition startServer : M unit :=
  ensureRequiredEnvVars ;;
  ensureLogFile ;;
  console_out StdLog [JStr ("サーバーが起動しました: http://localhost:" ++ port)] ;;
  appendToLogFile "INFO"
    [("message", JStr ("サーバーが起動しました: http://localhost:" ++ port))] ;;
  ip4 <- fetchPublicIpAddress 4 ;;
  state <- get_addr ;;
  put_addr (mkAddr ip4 (currentIPv6 state)) ;;
  (if isIPv6Enabled then
     ip6 <- fetchPublicIpAddress 6 ;;
     state <- get_addr ;;
     put_addr (mkAddr (currentIPv4 state) ip6)
   else ret tt) ;;
  set_timer (Interval MONITOR_INTERVAL) ;;
  let dnsRecordTypesToUpdate := ["A"] ++ (if isIPv6Enabled then ["AAAA"] else []) in
  for_of dnsRecordTypesToUpdate
    (fun dnsType =>
       state <- get_addr ;;
       let currentIpAddress :=
         if String.eqb dnsType "A" then currentIPv4 state else currentIPv6 state in
       if truthy_str currentIpAddress then
         updateDnsRecord dnsType (tmpl currentIpAddress)
       else
         let errorMessageInitialUpdate : string :=
           (dnsType ++ "アドレスが取得できなかったため、初回DNS更新をスキップします。")%string in
         console_out StdWarn [JStr ("[startServer] " ++ errorMessageInitialUpdate)] ;;
         appendToLogFile "WARN"
           [("message", JStr errorMessageInitialUpdate); ("dnsType", JStr dnsType)]).

End Program.

(* ================================================================== *)
(** ** Observations on a run                                           *)
(* ================================================================== *)

Definition outcome {A} (m : M A) (w : World) : Outcome A := fst (m w).
Definition after {A} (m : M A) (w : World) : World := snd (m w).

(** The requests issued between [w] and a later world [w']. *)
Definition issued_since (w w' : World) : list Issued :=
  skipn (List.length (requests w)) (requests w').

Definition is_provider_request (r : Request) : bool :=
  String.prefix "https://api.cloudflare.com/" (url r).

(** The requests to the DNS provider among [l]. *)
Definition provider_calls (l : list Issued) : list Request :=
  filter is_provider_request (map request l).

(** [document.logs] when it is an array. *)
Definition logs_array (document : json) : option (list json) :=
  match document with
  | JObj fields =>
      match field "logs" fields with
      | Some (JArr items) => Some items
      | _ => None
      end
  | _ => None
  end.

(** The entries of the log document on disk. *)
Definition log_entries (w : World) : list json :=
  match log_file w with
  | Some (Document document) =>
      match logs_array document with
      | Some items => items
      | None => []
      end
  | _ => []
  end.

Definition is_nullish (v : jsval) : bool :=
  match v with
  | None => true
  | Some JNull => true
  | Some _ => false
  end.

(** The log is usable: there is no file yet, or it holds an object whose
    [logs] is an array and whose [metadata] is neither missing nor [null]. *)
Definition log_ready (w : World) : bool :=
  match log_file w with
  | None => true
  | Some (Document (JObj fields)) =>
      match field "logs" fields with
      | Some (JArr _) => negb (is_nullish (field "metadata" fields))
      | _ => false
      end
  | Some _ => false
  end.

(** [entry.level] *)
Definition level_of (entry : json) : jsval :=
  match entry with
  | JObj fields => field "level" fields
  | _ => None
  end.

(** The part of the world the network can see. *)
Definition same_net (w w' : World) : Prop :=
  addr w' = addr w /\ requests w' = requests w /\ timers w' = timers w.

(** [w'] is [w] after one more entry went into the log document. *)
Definition logged (level : string) (data : obj) (w w' : World) : Prop :=
  same_net w w' /\ console w' = console w /\ log_ready w' = true /\
  exists timestamp, log_entries w' = (log_entries w ++ [make_entry timestamp level data])%list.

(** Weakest precondition of a computation for a postcondition on its
    outcome and final world. *)
Definition wp {A} (m : M A) (Q : Outcome A -> World -> Prop) (w : World) : Prop :=
  Q (outcome m w) (after m w).

(* ------------------------------------------------------------------ *)
(** *** The resolver seen from the network                             *)
(* ------------------------------------------------------------------ *)

(** What the retry loop returns and how many requests it issues when its
    first request is the [n]-th of the run: a function of the echo
    service's replies alone. *)
Fixpoint resolution (out : Outside) (fuel : nat) (version retryCount attempts : Z) (n : nat)
  : option string * nat :=
  if (attempts <? retryCount)%Z then
    match fuel with
    | O => (None, O)
    | S fuel' =>
        match echo_reply out n (echo_request version) with
        | Fulfilled ip => (Some ip, 1%nat)
        | Rejected _ _ =>
            if (attempts + 1 >=? retryCount)%Z then (None, 1%nat)
            else
              let (r, c) := resolution out fuel' version retryCount (attempts + 1) (S n) in
              (r, S c)
        end
    end
  else (None, O).

(** Levels of the entries the loop writes: one WARN per failed attempt,
    then one ERROR when it gives up after at least one attempt. *)
Definition resolution_levels (r : option string * nat) : list jsval :=
  match r with
  | (Some _, c) => repeat (Some (JStr "WARN")) (c - 1)
  | (None, O) => []
  | (None, c) => (repeat (Some (JStr "WARN")) c ++ [Some (JStr "ERROR")])%list
  end.

(** What a stretch of the program did to the log, when the log was usable
    at its start: it is still usable and grew by entries of the given
    levels. *)
Definition log_grew (w w' : World) (levels : list jsval) : Prop :=
  log_ready w = true ->
  log_ready w' = true /\
  exists added, log_entries w' = (log_entries w ++ added)%list /\ map level_of added = levels.

(** The same without the levels: on a usable log nothing is lost. *)
Definition log_extends (w w' : World) : Prop :=
  log_ready w = true ->
  log_ready w' = true /\
  exists added, log_entries w' = (log_entries w ++ added)%list.

(* ------------------------------------------------------------------ *)
(** *** The upsert seen from the network                               *)
(* ------------------------------------------------------------------ *)

(** The record id an upsert works with: the id of the first record the
    provider returned, when the lookup went through, the provider reported
    success, and that id is a non-empty string. *)
Definition record_id_of (reply : Settled ListData) : option string :=
  match reply with
  | Fulfilled d =>
      if list_success d then
        match result d with
        | first :: _ => if String.eqb (id first) EmptyString then None else Some (id first)
        | [] => None
        end
      else None
  | Rejected _ _ => None
  end.

(** The write an upsert issues after its lookup. *)
Definition write_request (env : Env) (recordId : option string) (type ipAddress : string)
  : Request :=
  match recordId with
  | Some i => update_request env i type ipAddress
  | None => create_request env type ipAddress
  end.

(** The two requests of one upsert, issued from the address state [a]
    when the lookup is answered by [reply]. *)
Definition upsert_requests (env : Env) (reply : Settled ListData) (type ipAddress : string)
                           (a : AddressState) : list Issued :=
  [mkIssued (lookup_request env type) a;
   mkIssued (write_request env (record_id_of reply) type ipAddress) a].

(** The log grew by entries of the given levels and then by the entry
    [{ timestamp, level, ...data }]. *)
Definition log_grew_then (w w' : World) (levels : list jsval) (level : string) (data : obj)
  : Prop :=
  log_ready w = true ->
  log_ready w' = true /\
  exists added timestamp,
    log_entries w' = (log_entries w ++ added ++ [make_entry timestamp level data])%list /\
    map level_of added = levels.

(** What one half of a cycle does, given what the resolver returned
    ([newIP], after [count] requests) and the state [stored] for its family:
    [commit] is the address state with the family's entry replaced. *)
Definition half_cycle_post (env : Env) (out : Outside) (version : Z) (type : string)
    (stored : AddressState -> option string)
    (commit : option string -> AddressState -> AddressState)
    (unchanged failed : obj)
    (w : World) (r : Outcome unit) (w' : World) : Prop :=
  let res := resolution out (Z.to_nat (ipFetchRetryCount env)) version
               (ipFetchRetryCount env) 0 (List.length (requests w)) in
  let newIP := fst res in
  let echoes := repeat (mkIssued (echo_request version) (addr w)) (snd res) in
  r = Done tt /\
  if truthy_str newIP then
    if strict_neq newIP (stored (addr w)) then
      addr w' = commit newIP (addr w) /\
      requests w' =
        (requests w ++ echoes ++
         upsert_requests env
           (list_reply out (List.length (requests w) + snd res) (lookup_request env type))
           type (tmpl newIP) (commit newIP (addr w)))%list /\
      log_extends w w'
    else
      addr w' = addr w /\
      requests w' = (requests w ++ echoes)%list /\
      log_grew_then w w' (resolution_levels res) "INFO" unchanged
  else
    addr w' = addr w /\
    requests w' = (requests w ++ echoes)%list /\
    log_grew_then w w' (resolution_levels res) "ERROR" failed.

(* ================================================================== *)
(** ** The properties of the specification, as statements              *)
(* ================================================================== *)

(** Change Detector: the guard of the commit-and-upsert branch of a half
    cycle, [if (newIP) { if (newIP !== current) { ... ]. *)
Definition shouldSync (stored resolved : option string) : bool :=
  if truthy_str resolved then strict_neq resolved stored else false.

(** The decision of the Change Detector for one family, on a cycle started
    in [w] whose resolver returns [resolved]: [fetch] is the resolver call,
    [half] the family's half of the cycle, [stored] its entry of the
    address state, [unchanged] the data of its "no change" entry. *)
Definition change_detector_exact (fetch : M (option string)) (half : M unit)
    (stored : AddressState -> option string) (unchanged : obj) (w : World) : Prop :=
  forall resolved,
    outcome fetch w = Done resolved ->
    resolved <> Some EmptyString ->
    let w' := after half w in
    (shouldSync (stored (addr w)) resolved = true <->
     resolved <> None /\ resolved <> stored (addr w)) /\
    (provider_calls (issued_since w w') <> [] <->
     shouldSync (stored (addr w)) resolved = true) /\
    (resolved <> None -> resolved = stored (addr w) ->
     outcome half w = Done tt /\
     provider_calls (issued_since w w') = [] /\
     addr w' = addr w /\
     (log_ready w = true ->
      exists added timestamp,
        log_entries w' =
          (log_entries w ++ added ++ [make_entry timestamp "INFO" unchanged])%list /\
        Forall (fun entry => level_of entry = Some (JStr "WARN")) added)).

(** Every attempt of a resolver call started in [w] fails. *)
Definition every_attempt_fails (env : Env) (out : Outside) (version : Z) (w : World) : Prop :=
  forall k, (k < Z.to_nat (ipFetchRetryCount env))%nat ->
    exists message response_data,
      echo_reply out (List.length (requests w) + k) (echo_request version) =
      Rejected message response_data.

(** What a family's half cycle does when every attempt fails. *)
Definition exhausted_resolution (env : Env) (out : Outside) (version : Z) (half : M unit)
    (w : World) : Prop :=
  let fetch := fetchPublicIpAddress env out version in
  let attempts := Z.to_nat (ipFetchRetryCount env) in
  outcome fetch w = Done None /\
  issued_since w (after fetch w) = repeat (mkIssued (echo_request version) (addr w)) attempts /\
  (log_ready w = true ->
   exists added,
     log_entries (after fetch w) = (log_entries w ++ added)%list /\
     map level_of added =
       (repeat (Some (JStr "WARN")) attempts ++ [Some (JStr "ERROR")])%list) /\
  outcome half w = Done tt /\
  provider_calls (issued_since w (after half w)) = [] /\
  addr (after half w) = addr w.



(** The data of the entry that reports a skipped initial update. *)
Definition skip_entry (dnsType : string) : obj :=
  [("message", JStr (dnsType ++ "アドレスが取得できなかったため、初回DNS更新をスキップします。"));
   ("dnsType", JStr dnsType)].



(** The provider's write endpoint fails every request: it rejects (a
    transport error) or reports [success: false]. *)
Definition every_write_fails (out : Outside) : Prop :=
  forall n r,
    match write_reply out n r with
    | Fulfilled d => write_success d = false
    | Rejected _ _ => True
    end.

(** The retry-by-mismatch reading of a failed upsert: after a cycle that
    saw a new address and failed to push it, the stored address still
    differs from it, and the next cycle that resolves the same address
    calls the provider again. *)
Definition failed_upsert_is_retried (fetch : M (option string)) (cycle : M unit)
    (stored : AddressState -> option string) (out : Outside) (w : World) : Prop :=
  forall ip,
    ip <> EmptyString ->
    outcome fetch w = Done (Some ip) ->
    stored (addr w) <> Some ip ->
    every_write_fails out ->
    let w1 := after cycle w in
    stored (addr w1) <> Some ip /\
    (outcome fetch w1 = Done (Some ip) ->
     provider_calls (issued_since w1 (after cycle w1)) <> []).

(** What the code does instead: the new address is stored whatever
    becomes of the upsert, and a later cycle that starts with that address
    stored and resolves it again detects no change and makes no provider
    call. *)
Definition failed_upsert_not_retried (fetch : M (option string)) (half : M unit)
    (stored : AddressState -> option string) (w : World) : Prop :=
  forall ip,
    ip <> EmptyString ->
    outcome fetch w = Done (Some ip) ->
    stored (addr w) <> Some ip ->
    stored (addr (after half w)) = Some ip /\
    forall w2,
      stored (addr w2) = Some ip ->
      outcome fetch w2 = Done (Some ip) ->
      shouldSync (stored (addr w2)) (Some ip) = false /\
      outcome half w2 = Done tt /\
      provider_calls (issued_since w2 (after half w2)) = [] /\
      addr (after half w2) = addr w2.

(** The commit-on-completion reading: every provider request of the half
    cycle is issued while the stored address is still the one the cycle
    started with. *)
Definition commit_after_upsert (half : M unit) (stored : AddressState -> option string)
    (w : World) : Prop :=
  Forall (fun i =>
            is_provider_request (request i) = true ->
            stored (state_at_issue i) = stored (addr w))
         (issued_since w (after half w)).

(** What the code does instead: the requests of the half cycle are the
    resolver's, issued in the old state, followed by the two requests of
    the upsert, both issued in the state that already holds the new
    address; that state is also the final one. *)
Definition commit_before_upsert (env : Env) (fetch : M (option string)) (half : M unit)
    (type : string) (stored : AddressState -> option string)
    (commit : option string -> AddressState -> AddressState) (w : World) : Prop :=
  forall ip,
    ip <> EmptyString ->
    outcome fetch w = Done (Some ip) ->
    stored (addr w) <> Some ip ->
    let committed := commit (Some ip) (addr w) in
    stored committed = Some ip /\
    addr (after half w) = committed /\
    exists echoes recordId,
      issued_since w (after half w) =
        (echoes ++ [mkIssued (lookup_request env type) committed;
                    mkIssued (write_request env recordId type ip) committed])%list /\
      provider_calls echoes = [] /\
      Forall (fun i => state_at_issue i = addr w) echoes.

(** The exactly-when reading of the create call: it is issued if and only
    if the lookup went through and returned no record. *)
Definition create_exactly_on_zero_matches (env : Env) (out : Outside)
    (type ipAddress : string) (w : World) : Prop :=
  In (create_request env type ipAddress)
     (map request (issued_since w (after (updateDnsRecord env out type ipAddress) w))) <->
  exists d,
    list_reply out (List.length (requests w)) (lookup_request env type) = Fulfilled d /\
    result d = [].

(* ------------------------------------------------------------------ *)
(** *** Concrete surroundings                                          *)
(* ------------------------------------------------------------------ *)

Definition env_demo : Env :=
  env_of [("CF_ZONE_ID", "zone-1"); ("CF_API_TOKEN", "token-1");
          ("CF_DNS_NAME", "home.example.org")].

Definition env_dual : Env :=
  env_of [("CF_ZONE_ID", "zone-1"); ("CF_API_TOKEN", "token-1");
          ("CF_DNS_NAME", "home.example.org"); ("CF_ENABLE_IPV6", "true")].

Definition env_no_token : Env :=
  env_of [("CF_ZONE_ID", "zone-1"); ("CF_DNS_NAME", "home.example.org")].

Definition clock_demo (n : nat) : string :=
  "2025-01-01T00:00:" ++ show_Z (Z.of_nat n) ++ "Z".

Definition one_record : ListData := mkListData true [mkRecordInfo "rec-1"].

(** The echo service answers 198.51.100.7, the provider finds the record
    and every write times out. *)
Definition out_push_fails : Outside :=
  mkOutside clock_demo
    (fun _ _ => Fulfilled "198.51.100.7")
    (fun _ _ => Fulfilled one_record)
    (fun _ _ => Rejected "timeout of 10000ms exceeded" None)
    8.

(** The echo service answers 203.0.113.5 and the provider accepts. *)
Definition out_steady : Outside :=
  mkOutside clock_demo
    (fun _ _ => Fulfilled "203.0.113.5")
    (fun _ _ => Fulfilled one_record)
    (fun _ _ => Fulfilled (mkWriteData true (JObj [("success", JBool true)])))
    8.

(** The echo service is unreachable. *)
Definition out_unreachable : Outside :=
  mkOutside clock_demo
    (fun _ _ => Rejected "timeout of 5000ms exceeded" None)
    (fun _ _ => Fulfilled one_record)
    (fun _ _ => Fulfilled (mkWriteData true (JObj [("success", JBool true)])))
    8.

(** The provider cannot be reached for the lookup. *)
Definition out_lookup_fails : Outside :=
  mkOutside clock_demo
    (fun _ _ => Fulfilled "203.0.113.5")
    (fun _ _ => Rejected "connect ETIMEDOUT" None)
    (fun _ _ => Fulfilled (mkWriteData true (JObj [("success", JBool true)])))
    8.

(** A running process that has 203.0.113.5 published, with an empty log. *)
Definition w_demo : World :=
  mkWorld (mkAddr (Some "203.0.113.5") None) true (Some (Document emptyDocument)) 0 [] [] [].

(** A process that has just been started, before anything was resolved. *)
Definition w_boot : World :=
  mkWorld (mkAddr None None) false None 0 [] [] [].

(** The same process with a log file that does not parse. *)
Definition w_corrupt : World :=
  mkWorld (mkAddr (Some "203.0.113.5") None) true
          (Some (Unparseable "{ metadata: " "Unexpected end of JSON input")) 0 [] [] [].

(** The same process with the log file [{}]. *)
Definition w_bare : World :=
  mkWorld (mkAddr (Some "203.0.113.5") None) true (Some (Document (JObj []))) 0 [] [] [].

(* ================================================================== *)
(** ** Further observations                                            *)
(* ================================================================== *)

(** [document.metadata.lastUpdated] of the log document on disk. *)
Definition last_updated (w : World) : jsval :=
  match log_file w with
  | Some (Document (JObj fields)) =>
      match field "metadata" fields with
      | Some (JObj m) => field "lastUpdated" m
      | _ => None
      end
  | _ => None
  end.

(** There is no log file yet, or its [metadata] is an object. *)
Definition metadata_is_object (w : World) : bool :=
  match log_file w with
  | None => true
  | Some (Document (JObj fields)) =>
      match field "metadata" fields with
      | Some (JObj _) => true
      | _ => false
      end
  | Some _ => false
  end.

(** The waits of a run of the retry loop that was entered after
    [attempts] attempts and issued [count] requests: one wait after each
    request but the last, of as many seconds as attempts were made. *)
Definition backoff_waits (attempts : Z) (count : nat) : list Timer :=
  map (fun i => Sleep ((attempts + Z.of_nat i) * 1000)%Z) (seq 1 (count - 1)).

(** The level of the entry that reports a create or update call. *)
Definition write_level (reply : Settled WriteData) : jsval :=
  match reply with
  | Fulfilled d => if write_success d then Some (JStr "INFO") else Some (JStr "ERROR")
  | Rejected _ _ => Some (JStr "ERROR")
  end.

(** The levels of the entries one upsert appends, given the replies to
    its lookup and to its write: an ERROR when the lookup request failed, a
    WARN when no record id came out of the lookup, then the entry for the
    write. *)
Definition upsert_levels (lookup : Settled ListData) (write : Settled WriteData)
  : list jsval :=
  ((match lookup with
    | Rejected _ _ => [Some (JStr "ERROR")]
    | Fulfilled _ => []
    end) ++
   (match record_id_of lookup with
    | None => [Some (JStr "WARN")]
    | Some _ => []
    end) ++
   [write_level write])%list.

(** Everything one half of a cycle does, as a function of the replies:
    [stored] reads the family's entry of the address state and [commit]
    replaces it. *)
Definition half_cycle_effects (env : Env) (out : Outside) (version : Z) (type : string)
    (stored : AddressState -> option string)
    (commit : option string -> AddressState -> AddressState)
    (w : World) (r : Outcome unit) (w' : World) : Prop :=
  let n := List.length (requests w) in
  let res := resolution out (Z.to_nat (ipFetchRetryCount env)) version
               (ipFetchRetryCount env) 0 n in
  let newIP := fst res in
  let count := snd res in
  let changed := shouldSync (stored (addr w)) newIP in
  let lookup := list_reply out (n + count) (lookup_request env type) in
  let write := write_reply out (S (n + count))
                 (write_request env (record_id_of lookup) type (tmpl newIP)) in
  r = Done tt /\
  addr w' = (if changed then commit newIP (addr w) else addr w) /\
  timers w' = (timers w ++ backoff_waits 0 count)%list /\
  requests w' =
    (requests w ++ repeat (mkIssued (echo_request version) (addr w)) count ++
     (if changed then
        upsert_requests env lookup type (tmpl newIP) (commit newIP (addr w))
      else []))%list /\
  log_grew w w'
    (resolution_levels res ++
     (if changed then upsert_levels lookup write
      else if truthy_str newIP then [Some (JStr "INFO")] else [Some (JStr "ERROR")]))%list.

(** The three levels the program writes. *)
Definition known_levels : list jsval :=
  [Some (JStr "INFO"); Some (JStr "WARN"); Some (JStr "ERROR")].

(** A request the program may issue: to an echo service, a lookup, or a
    create or update of a record. *)
Definition known_request (env : Env) (r : Request) : Prop :=
  (exists version, r = echo_request version) \/
  (exists type, r = lookup_request env type) \/
  (exists recordId type ipAddress, r = write_request env recordId type ipAddress).

(** The families a cycle handles. *)
Definition families (env : Env) : nat := if isIPv6Enabled env then 2%nat else 1%nat.


(** A request of one family: to its echo service, or a lookup, create or
    update of its record type. *)
Definition family_request (env : Env) (version : Z) (type : string) (r : Request) : Prop :=
  r = echo_request version \/
  r = lookup_request env type \/
  (exists recordId ipAddress, r = write_request env recordId type ipAddress).

(** The header that carries the API token. *)
Definition bearer (env : Env) : string * string :=
  ("Authorization", ("Bearer " ++ tmpl (cloudflareApiToken env))%string).

(** A request that either goes to the zone's records at the provider, with
    the token, or is a bare GET that carries nothing. *)
Definition token_confined (env : Env) (r : Request) : Prop :=
  if is_provider_request r then
    String.prefix (dns_records_url env) (url r) = true /\ In (bearer env) (headers r)
  else
    method r = GET /\ headers r = [] /\ params r = [] /\ body r = None.

(** What one half of a cycle decides, from the replies of the echo
    service: the address it resolves and whether an upsert follows. *)
Definition half_resolved (env : Env) (out : Outside) (version : Z) (w : World)
  : option string :=
  fst (resolution out (Z.to_nat (ipFetchRetryCount env)) version
         (ipFetchRetryCount env) 0 (List.length (requests w))).




(** The log directory and the log file are both there, so that
    [ensureLogFile] has nothing to create. *)
Definition log_store_present (w : World) : Prop :=
  log_dir w = true /\ log_file w <> None.


(* ================================================================== *)
(** ** The audit log on a file system whose calls can throw            *)
(* ================================================================== *)

(** The calls of [fs] that can throw.  [fs.existsSync] cannot: it answers
    [false] on any error. *)
Inductive FsCall : Type := MkdirSync | ReadFileSync | WriteFileSync.

(** What the file system does with a call made in a given state of the
    world: [None] lets the call through, [Some message] makes it throw an
    error with that message. *)
Definition Disk : Type := World -> FsCall -> option string.

(** A file system on which every call goes through. *)
Definition works (disk : Disk) : Prop := forall w c, disk w c = None.

Module Fallible.
Section Log.

Variable disk : Disk.
Variable env : Env.
Variable out : Outside.

(** A call of [fs]: it throws when the file system says so, and has its
    effect otherwise. *)
Definition fs_call {A} (c : FsCall) (effect : M A) : M A :=
  fun w =>
    match disk w c with
    | Some message => (Thrown (SystemError message), w)
    | None => effect w
    end.

(** [fs.existsSync(LOG_DIRECTORY)] *)
Definition existsLogDirectory : M bool := fun w => (Done (log_dir w), w).

(** [fs.mkdirSync(LOG_DIRECTORY, { recursive: true })] *)
Definition mkdirLogDirectory : M unit :=
  fs_call MkdirSync (fun w => (Done tt, set_log_dir true w)).

(** [fs.readFileSync(LOG_FILE_PATH, 'utf8')] *)
Definition readLogFile : M FileContent := fs_call ReadFileSync readLogFile.

(** [fs.writeFileSync(LOG_FILE_PATH, JSON.stringify(logData, null, 2), 'utf8')] *)
Definition writeLogFile (logData : json) : M unit :=
  fs_call WriteFileSync (writeLogFile logData).

(** Lines 50-57. *)
Definition ensureLogFile : M unit :=
  directory <- existsLogDirectory ;;
  (if directory : bool then ret tt else mkdirLogDirectory) ;;
  file <- existsLogFile ;;
  (if file : bool then ret tt else writeLogFile emptyDocument).

(** Lines 65-101: [ensureLogFile()] is the first statement, before the
    [try]. *)
Fixpoint appendToLogFile_in (stack : nat) (level : string) (data : obj) : M unit :=
  match stack with
  | O => throw (RangeError "Maximum call stack size exceeded")
  | S deeper =>
      ensureLogFile ;;
      try_catch
        (lastUpdated <- now out ;;
         let fresh := JObj [("metadata", JObj [("lastUpdated", JStr lastUpdated)]);
                            ("logs", JArr [])] in
         present <- existsLogFile ;;
         logData <- (if present : bool then
                       logFileContent <- readLogFile ;;
                       try_catch (JSON_parse logFileContent)
                         (fun parseError =>
                            let errorMessage : string :=
                              ("ログファイルのJSONパースに失敗しました。新規作成します。")%string in
                            console_out StdWarn
                              [JStr errorMessage; JStr (message_of parseError)] ;;
                            appendToLogFile_in deeper "WARN"
                              [("message", JStr errorMessage);
                               ("error", JStr (message_of parseError))] ;;
                            ret fresh)
                     else ret fresh) ;;
         logData <- push_log out logData level data ;;
         logData <- touch_metadata out logData ;;
         writeLogFile logData)
        (fun error =>
           console_out StdError
             [JStr "ログファイルの更新に失敗しました:"; JStr (message_of error)])
  end.

Definition appendToLogFile (level : string) (data : obj) : M unit :=
  appendToLogFile_in (S (stack_limit out)) level data.

(** Lines 35-44. *)
Definition ensureRequiredEnvVars : M unit :=
  if (0 <? List.length (missingEnvVars env))%nat then
    let errorMessage : string := (missing_message env)%string in
    console_out StdError [JStr errorMessage] ;;
    appendToLogFile "ERROR" [("message", JStr errorMessage)] ;;
    process_exit 1
  else ret tt.

End Log.
End Fallible.

(** What a call of [ensureLogFile] or [appendToLogFile] hands to its
    caller when [ensureLogFile] ends as [created]. *)
Definition after_ensure {A} (created : Outcome unit) (then_ : Outcome A) : Outcome A :=
  match created with
  | Done _ => then_
  | Thrown e => Thrown e
  | Exited c => Exited c
  end.

(** The error [fs] throws when a component of the path of the log file is
    not a directory. *)
Definition ENOTDIR : string := "ENOTDIR: not a directory, open 'log/latest.json'".

(** A file system on which [log] is there but is not a directory: the log
    file cannot be written. *)
Definition disk_blocked : Disk :=
  fun _ c => match c with WriteFileSync => Some ENOTDIR | _ => None end.

(** A running process on that file system: [fs.existsSync] finds [log],
    and no log file. *)
Definition w_blocked : World :=
  mkWorld (mkAddr (Some "203.0.113.5") None) true None 0 [] [] [].

(** A file system that is in order. *)
Definition disk_sound : Disk := fun _ _ => None.
(* ================================================================== *)
(** ** Proof rules                                                     *)
(* ================================================================== *)

Lemma same_net_refl w : same_net w w.
Proof. repeat split. Qed.

Lemma same_net_trans w1 w2 w3 : same_net w1 w2 -> same_net w2 w3 -> same_net w1 w3.
Proof.
  intros (A1 & R1 & T1) (A2 & R2 & T2).
  repeat split; congruence.
Qed.

Lemma wp_ret {A} (a : A) Q w : Q (Done a) w -> wp (ret a) Q w.
Proof. exact (fun H => H). Qed.

Lemma wp_bind {A B} (m : M A) (k : A -> M B) Q w :
  wp m (fun r w' =>
          match r with
          | Done a => wp (k a) Q w'
          | Thrown e => Q (Thrown e) w'
          | Exited c => Q (Exited c) w'
          end) w ->
  wp (bind m k) Q w.
Proof.
  unfold wp, outcome, after, bind.
  destruct (m w) as [[a | e | c] w']; simpl; auto.
Qed.

Lemma wp_try {A} (body : M A) (handler : JsError -> M A) Q w :
  wp body (fun r w' =>
             match r with
             | Thrown e => wp (handler e) Q w'
             | other => Q other w'
             end) w ->
  wp (try_catch body handler) Q w.
Proof.
  unfold wp, outcome, after, try_catch.
  destruct (body w) as [[a | e | c] w']; simpl; auto.
Qed.

Lemma wp_mono {A} (m : M A) (Q Q' : Outcome A -> World -> Prop) w :
  wp m Q w -> (forall r w', Q r w' -> Q' r w') -> wp m Q' w.
Proof. unfold wp. auto. Qed.

Lemma wp_lift {A} (o : Outcome A) Q w : Q o w -> wp (lift o) Q w.
Proof. exact (fun H => H). Qed.

Lemma wp_throw {A} e (Q : Outcome A -> World -> Prop) w : Q (Thrown e) w -> wp (throw e) Q w.
Proof. exact (fun H => H). Qed.

Lemma wp_console s xs Q w :
  Q (Done tt) (push_console (mkLine s xs) w) -> wp (console_out s xs) Q w.
Proof. exact (fun H => H). Qed.

Lemma wp_timer t Q w : Q (Done tt) (push_timer t w) -> wp (set_timer t) Q w.
Proof. exact (fun H => H). Qed.

Lemma wp_get_addr Q w : Q (Done (addr w)) w -> wp get_addr Q w.
Proof. exact (fun H => H). Qed.

Lemma wp_put_addr a Q w : Q (Done tt) (set_addr a w) -> wp (put_addr a) Q w.
Proof. exact (fun H => H). Qed.

Lemma wp_exit {A} c (Q : Outcome A -> World -> Prop) w :
  Q (Exited c) w -> wp (process_exit c) Q w.
Proof. exact (fun H => H). Qed.

Lemma wp_now out Q w :
  Q (Done (clock out (clock_reads w))) (tick w) -> wp (now out) Q w.
Proof. exact (fun H => H). Qed.

Lemma wp_axios {A} (oracle : nat -> Request -> Settled A) r Q w :
  match oracle (List.length (requests w)) r with
  | Fulfilled d => Q (Done d) (push_request r w)
  | Rejected m rd => Q (Thrown (AxiosError m rd)) (push_request r w)
  end ->
  wp (axios oracle r) Q w.
Proof.
  unfold wp, outcome, after, axios.
  destruct (oracle _ r); auto.
Qed.

Lemma wp_ensureLogFile Q w :
  (forall w',
      same_net w w' -> console w' = console w -> clock_reads w' = clock_reads w ->
      log_file w' = Some (match log_file w with
                          | Some content => content
                          | None => Document emptyDocument
                          end) ->
      Q (Done tt) w') ->
  wp ensureLogFile Q w.
Proof.
  intros H. unfold wp, outcome, after, ensureLogFile. simpl.
  apply H; destruct w as [a d f c r co t]; destruct d, f; repeat split; reflexivity.
Qed.

Lemma wp_existsLogFile Q w :
  Q (Done (match log_file w with Some _ => true | None => false end)) w ->
  wp existsLogFile Q w.
Proof. exact (fun H => H). Qed.

Lemma wp_readLogFile Q w :
  match log_file w with
  | Some content => Q (Done content) w
  | None => Q (Thrown (SystemError "ENOENT: no such file or directory")) w
  end ->
  wp readLogFile Q w.
Proof.
  unfold wp, outcome, after, readLogFile. destruct (log_file w); auto.
Qed.

Lemma wp_writeLogFile logData Q w :
  Q (Done tt) (set_log_file (Some (Document logData)) w) -> wp (writeLogFile logData) Q w.
Proof. exact (fun H => H). Qed.

(** One step of symbolic execution. *)
Ltac wp_step :=
  lazymatch goal with
  | |- wp (bind _ _) _ _ => apply wp_bind
  | |- wp (try_catch _ _) _ _ => apply wp_try
  | |- wp (ret _) _ _ => apply wp_ret
  | |- wp (throw _) _ _ => apply wp_throw
  | |- wp (lift _) _ _ => apply wp_lift
  | |- wp (console_out _ _) _ _ => apply wp_console
  | |- wp (set_timer _) _ _ => apply wp_timer
  | |- wp get_addr _ _ => apply wp_get_addr
  | |- wp (put_addr _) _ _ => apply wp_put_addr
  | |- wp (process_exit _) _ _ => apply wp_exit
  | |- wp (now _) _ _ => apply wp_now
  | |- wp existsLogFile _ _ => apply wp_existsLogFile
  | |- wp readLogFile _ _ => apply wp_readLogFile
  | |- wp (writeLogFile _) _ _ => apply wp_writeLogFile
  | |- wp (axios _ _) _ _ => apply wp_axios
  end.

Ltac world_simpl :=
  cbn [log_file addr requests console timers clock_reads log_dir tick set_addr
       set_log_file set_log_dir push_request push_console push_timer] in *.

Ltac wp_go := repeat first [wp_step | progress world_simpl].

(** State a goal about [outcome m w] and [after m w] as a [wp]. *)
Ltac to_wp :=
  lazymatch goal with
  | |- context [after ?m ?w] =>
      pattern (outcome m w), (after m w);
      lazymatch goal with
      | |- ?P _ _ => change (wp m P w)
      end
  end.

Ltac net_solve :=
  unfold same_net in *; simpl in *; intuition congruence.

(* ------------------------------------------------------------------ *)
(** *** Objects                                                        *)
(* ------------------------------------------------------------------ *)

Lemma field_set_same k v o : field k (set_field k v o) = Some v.
Proof.
  induction o as [| [k' v'] o IH]; simpl.
  - now rewrite String.eqb_refl.
  - destruct (String.eqb k' k) eqn:E; simpl; rewrite E; auto.
Qed.

Lemma field_set_other k k' v o : k <> k' -> field k' (set_field k v o) = field k' o.
Proof.
  intros N. induction o as [| [k0 v0] o IH]; simpl.
  - destruct (String.eqb_spec k k'); congruence.
  - destruct (String.eqb_spec k0 k) as [-> | ]; simpl.
    + destruct (String.eqb_spec k k'); congruence.
    + now rewrite IH.
Qed.

(* ------------------------------------------------------------------ *)
(** *** The audit log                                                  *)
(* ------------------------------------------------------------------ *)

Lemma get_prop_no_exit v k c : get_prop v k <> Exited c.
Proof.
  destruct v as [[| b | n | s | items | o] |]; simpl; try discriminate;
    destruct (String.eqb k "length"); discriminate.
Qed.

(** The read-modify-write tail of [appendToLogFile]: it returns or throws,
    and touches neither the address state nor the network. *)
Lemma wp_store_net out logData level data (Q : Outcome unit -> World -> Prop) w :
  (forall r w',
      same_net w w' -> console w' = console w ->
      (r = Done tt \/ exists e, r = Thrown e) -> Q r w') ->
  wp (logData <- push_log out logData level data ;;
      logData0 <- touch_metadata out logData ;;
      writeLogFile logData0) Q w.
Proof.
  intros H. unfold push_log, touch_metadata.
  repeat (wp_go;
          try match goal with
              | |- context [match ?x with _ => _ end] => destruct x eqn:?
              end);
    try discriminate;
    try (exfalso; eapply get_prop_no_exit; eassumption);
    (apply H; [net_solve | reflexivity | eauto]).
Qed.

(** Whatever is on disk, a call either overflows the stack at once (no
    room for its frame) or returns; it touches neither the address state
    nor the network. *)
Lemma appendToLogFile_in_net out stack level data w :
  wp (appendToLogFile_in out stack level data)
     (fun r w' =>
        same_net w w' /\
        r = match stack with
            | O => Thrown (RangeError "Maximum call stack size exceeded")
            | S _ => Done tt
            end) w.
Proof.
  revert level data w. induction stack as [| deeper IH]; intros level data w.
  - simpl. apply wp_throw. split; [apply same_net_refl | reflexivity].
  - simpl. wp_step. apply wp_ensureLogFile. intros w1 N1 _ _ F1.
    wp_go. rewrite F1. wp_go. rewrite F1.
    assert (TAIL : forall logData w2, same_net w w2 ->
              wp (logData <- push_log out logData level data ;;
                  logData0 <- touch_metadata out logData ;;
                  writeLogFile logData0)
                 (fun r0 w'0 =>
                    match r0 with
                    | Thrown e =>
                        wp (console_out StdError
                              [JStr "ログファイルの更新に失敗しました:"; JStr (message_of e)])
                           (fun r1 w'1 => same_net w w'1 /\ r1 = Done tt) w'0
                    | _ => same_net w w'0 /\ r0 = Done tt
                    end) w2).
    { intros logData w2 N2. apply wp_store_net.
      intros r w3 N3 _ [-> | [e ->]].
      - split; [net_solve | reflexivity].
      - wp_go. split; [net_solve | reflexivity]. }
    destruct (log_file w) as [[j | raw why] |]; simpl JSON_parse.
    + do 2 wp_step. apply TAIL. net_solve.
    + do 5 wp_step. world_simpl.
      eapply wp_mono; [apply IH |]. cbv beta.
      intros r w2 [N2 ->]. destruct deeper.
      * wp_go. split; [net_solve | reflexivity].
      * wp_step. apply TAIL. net_solve.
    + do 2 wp_step. apply TAIL. net_solve.
Qed.


(** A call from the program never throws and never exits. *)
Lemma wp_appendToLogFile out level data (Q : Outcome unit -> World -> Prop) w :
  (forall w', same_net w w' -> Q (Done tt) w') ->
  wp (appendToLogFile out level data) Q w.
Proof.
  intros H. unfold appendToLogFile.
  eapply wp_mono; [apply appendToLogFile_in_net |].
  cbv beta. intros r w' [N ->]. auto.
Qed.

(** On a usable log a call appends exactly its entry. *)
Lemma wp_appendToLogFile_ready out level data (Q : Outcome unit -> World -> Prop) w :
  log_ready w = true ->
  (forall w', logged level data w w' -> Q (Done tt) w') ->
  wp (appendToLogFile out level data) Q w.
Proof.
  intros R H. unfold appendToLogFile. simpl appendToLogFile_in.
  wp_step. apply wp_ensureLogFile. intros w1 N1 C1 K1 F1.
  wp_go. rewrite F1. wp_go. rewrite F1.
  unfold log_ready in R. unfold logged, log_entries in H.
  destruct (log_file w) as [[j | raw why] |]; try discriminate; simpl JSON_parse;
    do 2 wp_step; unfold push_log, touch_metadata.
  - destruct j as [| | | | | fields]; try discriminate.
    destruct (field "logs" fields) as [[| | | | items |] |] eqn:L; try discriminate.
    destruct (field "metadata" fields) as [m |] eqn:Md; try discriminate.
    wp_go. simpl get_prop. rewrite L. wp_go. simpl get_prop. wp_go.
    simpl get_prop. rewrite (field_set_other "logs" "metadata") by discriminate.
    rewrite Md. wp_go.
    destruct m as [| b | n | s | ms | m]; try discriminate; wp_go; apply H;
      (split; [net_solve |]);
      unfold log_ready, logs_array; world_simpl;
      rewrite ?(field_set_other "metadata" "logs") by discriminate;
      rewrite ?field_set_same;
      rewrite ?(field_set_other "logs" "metadata") by discriminate;
      rewrite ?L, ?Md, ?field_set_same;
      (split; [assumption |]); (split; [reflexivity |]); eexists; reflexivity.
  - wp_go. simpl get_prop. wp_go. apply H. split; [net_solve |].
    unfold log_ready, logs_array; world_simpl. simpl.
    split; [assumption |]. split; [reflexivity |]. eexists; reflexivity.
Qed.



(** An unparseable document: the nested call that reports the parse error
    runs into the same document, and so does every call below it, until
    the stack is exhausted; on the way back the caller's frame writes a
    fresh document with its own entry. *)
Lemma appendToLogFile_unparseable out level data w raw why :
  (1 <= stack_limit out)%nat ->
  log_file w = Some (Unparseable raw why) ->
  wp (appendToLogFile out level data)
     (fun r w' =>
        r = Done tt /\
        exists timestamp lastUpdated,
          log_file w' =
          Some (Document (JObj [("metadata", JObj [("lastUpdated", JStr lastUpdated)]);
                                ("logs", JArr [make_entry timestamp level data])]))) w.
Proof.
  intros S1 F. unfold appendToLogFile. simpl appendToLogFile_in.
  wp_step. apply wp_ensureLogFile. intros w1 N1 C1 K1 F1.
  rewrite F in F1.
  wp_go. rewrite F1. wp_go. rewrite F1. simpl JSON_parse. do 5 wp_step. world_simpl.
  eapply wp_mono; [apply appendToLogFile_in_net |]. cbv beta.
  intros r w2 [N2 ->].
  destruct (stack_limit out) as [| m]; [lia |].
  unfold push_log, touch_metadata. wp_go. simpl get_prop. wp_go.
  simpl get_prop. wp_go. simpl get_prop. wp_go.
  split; [reflexivity |]. do 2 eexists. reflexivity.
Qed.

(** A document that parses but has no [logs] array: the [TypeError] is
    reported on the console and nothing is written. *)
Lemma appendToLogFile_no_logs_array out level data w document :
  log_file w = Some (Document document) ->
  logs_array document = None ->
  wp (appendToLogFile out level data)
     (fun r w' =>
        r = Done tt /\
        log_file w' = Some (Document document) /\
        exists reason,
          console w' =
          (console w ++
           [mkLine StdError [JStr "ログファイルの更新に失敗しました:"; JStr reason]])%list) w.
Proof.
  intros F L. unfold appendToLogFile. simpl appendToLogFile_in.
  wp_step. apply wp_ensureLogFile. intros w1 N1 C1 K1 F1.
  rewrite F in F1.
  wp_go. rewrite F1. wp_go. rewrite F1. simpl JSON_parse. do 2 wp_step.
  unfold push_log. unfold logs_array in L.
  destruct document as [| b | n | s | items | fields];
    [ | | | | | destruct (field "logs" fields) as [[| b | n | s | items |] |] eqn:G;
              try discriminate ];
    wp_go; simpl get_prop; rewrite ?G; wp_go;
    try (simpl get_prop; wp_go);
    (split; [reflexivity |]; split; [assumption |]; rewrite C1; eexists; reflexivity).
Qed.

(** The rule used for every call of [appendToLogFile] in the program: the
    network view is kept, and on a usable log the entry is appended. *)
Lemma wp_append out level data (Q : Outcome unit -> World -> Prop) w :
  (forall w',
      same_net w w' ->
      (log_ready w = true -> logged level data w w') ->
      Q (Done tt) w') ->
  wp (appendToLogFile out level data) Q w.
Proof.
  intros H. destruct (log_ready w) eqn:R.
  - apply wp_appendToLogFile_ready; [assumption |].
    intros w' L. apply H; [apply L | auto].
  - apply wp_appendToLogFile. intros w' N. apply H; [assumption | discriminate].
Qed.

(* ------------------------------------------------------------------ *)
(** *** The resolver                                                   *)
(* ------------------------------------------------------------------ *)

Lemma log_grew_same w w' : log_file w' = log_file w -> log_grew w w' [].
Proof.
  intros F R. unfold log_ready, log_entries in *. rewrite F. split; [assumption |].
  exists []. now rewrite app_nil_r.
Qed.

Lemma log_grew_trans w1 w2 w3 l1 l2 :
  log_grew w1 w2 l1 -> log_grew w2 w3 l2 -> log_grew w1 w3 (l1 ++ l2).
Proof.
  intros G1 G2 R1.
  destruct (G1 R1) as (R2 & a1 & E1 & M1).
  destruct (G2 R2) as (R3 & a2 & E2 & M2).
  split; [assumption |]. exists (a1 ++ a2)%list.
  rewrite E2, E1, <- app_assoc, map_app, M1, M2. auto.
Qed.

Lemma log_grew_file w w1 w2 l :
  log_grew w w1 l -> log_file w2 = log_file w1 -> log_grew w w2 l.
Proof.
  intros G F. rewrite <- (app_nil_r l).
  eapply log_grew_trans; [exact G | now apply log_grew_same].
Qed.

Lemma logged_grew level data w w' :
  (log_ready w = true -> logged level data w w') ->
  (forall t, level_of (make_entry t level data) = Some (JStr level)) ->
  log_grew w w' [Some (JStr level)].
Proof.
  intros L E R. destruct (L R) as (_ & _ & R' & t & Ent).
  split; [assumption |]. exists [make_entry t level data]. split; [assumption |].
  cbn [map]. now rewrite E.
Qed.

(** One more entry after a stretch that ended in a world with the same
    log file as [w2]. *)
Lemma log_grew_snoc w1 w2 w2' w3 l level data :
  log_grew w1 w2 l ->
  log_file w2' = log_file w2 ->
  (log_ready w2' = true -> logged level data w2' w3) ->
  (forall t, level_of (make_entry t level data) = Some (JStr level)) ->
  log_grew w1 w3 (l ++ [Some (JStr level)]).
Proof.
  intros G F L E.
  eapply log_grew_trans; [eapply log_grew_file; eassumption |].
  now apply (logged_grew level data).
Qed.

Lemma resolution_counts out fuel version retryCount attempts n :
  (attempts < retryCount)%Z ->
  (Z.to_nat (retryCount - attempts) <= fuel)%nat ->
  (1 <= snd (resolution out fuel version retryCount attempts n))%nat.
Proof.
  intros A F. destruct fuel as [| fuel]; [lia |].
  simpl. destruct (Z.ltb_spec attempts retryCount); [| lia].
  destruct (echo_reply out n (echo_request version)); simpl; [lia |].
  destruct (attempts + 1 >=? retryCount)%Z; simpl; [lia |].
  destruct (resolution out fuel version retryCount (attempts + 1) (S n)). simpl. lia.
Qed.

Lemma resolution_levels_cons r c :
  (1 <= c)%nat ->
  resolution_levels (r, S c) = Some (JStr "WARN") :: resolution_levels (r, c).
Proof.
  intros C. destruct r as [ip |]; simpl.
  - destruct c as [| c]; [lia |]. simpl. now rewrite Nat.sub_0_r.
  - destruct c as [| c]; [lia |]. reflexivity.
Qed.

Ltac split4 := split; [| split; [| split]].

(** The retry loop, for any state of the log. *)
Lemma retry_loop_spec out fuel version retryCount : forall attempts w,
  (Z.to_nat (retryCount - attempts) <= fuel)%nat ->
  wp (retry_loop out fuel version retryCount attempts)
     (fun r w' =>
        let res := resolution out fuel version retryCount attempts (List.length (requests w)) in
        r = Done (fst res) /\
        addr w' = addr w /\
        requests w' =
          (requests w ++ repeat (mkIssued (echo_request version) (addr w)) (snd res))%list /\
        log_grew w w' (resolution_levels res)) w.
Proof.
  induction fuel as [| fuel IH]; intros attempts w F; simpl retry_loop; simpl resolution.
  - destruct (Z.ltb_spec attempts retryCount); [lia |].
    wp_go. simpl. rewrite app_nil_r. split4; auto using log_grew_same.
  - destruct (Z.ltb_spec attempts retryCount) as [A |];
      [| wp_go; simpl; rewrite app_nil_r; split4; auto using log_grew_same].
    wp_step. wp_step. apply wp_axios.
    destruct (echo_reply out (List.length (requests w)) (echo_request version))
      as [ip | m rd] eqn:E.
    + wp_go. simpl. split4; auto. now apply log_grew_same.
    + wp_go. apply wp_append. intros w1 N1 L1.
      assert (G1 : log_grew w w1 [Some (JStr "WARN")]).
      { eapply (log_grew_snoc w w _ w1 []); [now apply log_grew_same | | exact L1 | ].
        - reflexivity.
        - intro; reflexivity. }
      destruct N1 as (A1 & R1 & T1). world_simpl.
      destruct (attempts + 1 >=? retryCount)%Z eqn:C2.
      * wp_go. apply wp_append. intros w2 N2 L2.
        destruct N2 as (A2 & R2 & T2). world_simpl.
        wp_go. simpl. split4; try congruence.
        eapply (log_grew_snoc w w1 _ w2 [_]); [exact G1 | | exact L2 |].
        -- reflexivity.
        -- intro; reflexivity.
      * wp_go.
        eapply wp_mono; [apply IH; lia |]. cbv beta zeta.
        intros r w3 (-> & A3 & R3 & G3). world_simpl.
        rewrite R1, length_app, Nat.add_1_r in *. simpl List.length in *.
        destruct (resolution out fuel version retryCount (attempts + 1)
                    (S (List.length (requests w)))) as [res c] eqn:RES.
        assert (C : (1 <= c)%nat).
        { change c with (snd (res, c)). rewrite <- RES.
          apply resolution_counts; lia. }
        simpl fst in *. simpl snd in *.
        split4; try congruence.
        -- rewrite R3, A1. simpl. now rewrite <- app_assoc.
        -- rewrite resolution_levels_cons by assumption.
           change (?x :: ?l) with ([x] ++ l)%list.
           eapply log_grew_trans; [exact G1 |].
           intros R. apply G3. exact R.
Qed.

Lemma bind_ext {A B} (m : M A) (k1 k2 : A -> M B) w :
  (forall a w', k1 a w' = k2 a w') -> bind m k1 w = bind m k2 w.
Proof.
  intros H. unfold bind. destruct (m w) as [[a | e | c] w']; auto.
Qed.

Lemma try_catch_ext {A} (body : M A) (h1 h2 : JsError -> M A) w :
  (forall e w', h1 e w' = h2 e w') -> try_catch body h1 w = try_catch body h2 w.
Proof.
  intros H. unfold try_catch. destruct (body w) as [[a | e | c] w']; auto.
Qed.

(** The loop never runs out of fuel: any fuel that covers the attempts
    still allowed gives the same run. *)
Lemma retry_loop_fuel out version retryCount : forall fuel1 fuel2 attempts w,
  (Z.to_nat (retryCount - attempts) <= fuel1)%nat ->
  (Z.to_nat (retryCount - attempts) <= fuel2)%nat ->
  retry_loop out fuel1 version retryCount attempts w =
  retry_loop out fuel2 version retryCount attempts w.
Proof.
  induction fuel1 as [| fuel1 IH]; intros fuel2 attempts w F1 F2.
  - destruct fuel2 as [| fuel2]; [reflexivity |]. simpl.
    destruct (Z.ltb_spec attempts retryCount); [lia | reflexivity].
  - destruct fuel2 as [| fuel2]; simpl;
      destruct (Z.ltb_spec attempts retryCount); try lia; try reflexivity.
    apply try_catch_ext. intros e w1.
    apply bind_ext. intros _ w2. apply bind_ext. intros _ w3.
    destruct (attempts + 1 >=? retryCount)%Z eqn:LAST; [reflexivity |].
    apply bind_ext. intros _ w4. apply bind_ext. intros _ w5.
    apply IH; lia.
Qed.

Lemma fetchPublicIpAddress_spec env out version w :
  wp (fetchPublicIpAddress env out version)
     (fun r w' =>
        let res := resolution out (Z.to_nat (ipFetchRetryCount env)) version
                     (ipFetchRetryCount env) 0 (List.length (requests w)) in
        r = Done (fst res) /\
        addr w' = addr w /\
        requests w' =
          (requests w ++ repeat (mkIssued (echo_request version) (addr w)) (snd res))%list /\
        log_grew w w' (resolution_levels res)) w.
Proof.
  unfold fetchPublicIpAddress, fetchPublicIpAddress_with.
  apply retry_loop_spec. rewrite Z.sub_0_r. lia.
Qed.

(* ------------------------------------------------------------------ *)
(** *** The record store client                                        *)
(* ------------------------------------------------------------------ *)

Lemma log_extends_same w w' : log_file w' = log_file w -> log_extends w w'.
Proof.
  intros F R. unfold log_ready, log_entries in *. rewrite F. split; [assumption |].
  exists []. now rewrite app_nil_r.
Qed.

Lemma log_extends_trans w1 w2 w3 : log_extends w1 w2 -> log_extends w2 w3 -> log_extends w1 w3.
Proof.
  intros G1 G2 R1.
  destruct (G1 R1) as (R2 & a1 & E1).
  destruct (G2 R2) as (R3 & a2 & E2).
  split; [assumption |]. exists (a1 ++ a2)%list. now rewrite E2, E1, <- app_assoc.
Qed.

Lemma log_grew_extends w w' l : log_grew w w' l -> log_extends w w'.
Proof.
  intros G R. destruct (G R) as (R' & a & E & _). split; [assumption |]. now exists a.
Qed.

Lemma logged_extends level data w w' :
  (log_ready w = true -> logged level data w w') -> log_extends w w'.
Proof.
  intros L R. destruct (L R) as (_ & _ & R' & t & E). split; [assumption |]. eauto.
Qed.

(** One more entry after a stretch that ended in a world with the same
    log file as [w2']. *)
Lemma log_extends_snoc w1 w2 w2' w3 level data :
  log_extends w1 w2 ->
  log_file w2' = log_file w2 ->
  (log_ready w2' = true -> logged level data w2' w3) ->
  log_extends w1 w3.
Proof.
  intros G F L.
  eapply log_extends_trans; [exact G |].
  eapply log_extends_trans; [apply log_extends_same; exact F |].
  eapply logged_extends; exact L.
Qed.

Lemma fetchDnsRecordId_spec env out type w :
  wp (fetchDnsRecordId env out type)
     (fun r w' =>
        let reply := list_reply out (List.length (requests w)) (lookup_request env type) in
        (exists recordId,
            r = Done recordId /\
            (if truthy_str recordId then recordId else None) = record_id_of reply) /\
        addr w' = addr w /\
        requests w' = (requests w ++ [mkIssued (lookup_request env type) (addr w)])%list /\
        log_extends w w') w.
Proof.
  unfold fetchDnsRecordId. wp_step. wp_step. apply wp_axios.
  destruct (list_reply out (List.length (requests w)) (lookup_request env type))
    as [d | m rd] eqn:E; cbv zeta.
  - destruct d as [ok res]. simpl list_success. simpl result.
    destruct ok; simpl andb.
    + destruct res as [| first rest]; simpl; wp_go.
      * split4; auto using log_extends_same. eexists; split; reflexivity.
      * split4; auto using log_extends_same. eexists; split; [reflexivity |].
        simpl. destruct (String.eqb (id first) EmptyString); reflexivity.
    + wp_go. split4; auto using log_extends_same. eexists; split; reflexivity.
  - wp_go. apply wp_append. intros w1 (A1 & R1 & T1) L1. world_simpl. wp_go.
    split4; auto.
    + eexists; split; reflexivity.
    + eapply (log_extends_snoc w w _ w1); [now apply log_extends_same | | exact L1].
      reflexivity.
Qed.

(** A final [appendToLogFile] of a block that started in [w]: the outcome
    is a normal return and only the log may have changed. *)
Ltac last_append w :=
  apply wp_append;
  let w1 := fresh "w1" in
  let A1 := fresh "A1" in
  let R1 := fresh "R1" in
  let T1 := fresh "T1" in
  let L1 := fresh "L1" in
  intros w1 (A1 & R1 & T1) L1; world_simpl; wp_go;
  split4;
  [ reflexivity
  | congruence
  | congruence
  | eapply (log_extends_snoc w w _ w1);
    [ now apply log_extends_same | | exact L1 ]; reflexivity ].

Lemma createDnsRecord_spec env out type ipAddress w :
  wp (createDnsRecord env out type ipAddress)
     (fun r w' =>
        r = Done tt /\
        addr w' = addr w /\
        requests w' =
          (requests w ++ [mkIssued (create_request env type ipAddress) (addr w)])%list /\
        log_extends w w') w.
Proof.
  unfold createDnsRecord. wp_step. wp_step. apply wp_axios.
  destruct (write_reply out _ _) as [d | m rd].
  - destruct (write_success d); wp_go; last_append w.
  - wp_go. last_append w.
Qed.

Lemma updateDnsRecord_spec env out type ipAddress w :
  wp (updateDnsRecord env out type ipAddress)
     (fun r w' =>
        let reply := list_reply out (List.length (requests w)) (lookup_request env type) in
        r = Done tt /\
        addr w' = addr w /\
        requests w' = (requests w ++ upsert_requests env reply type ipAddress (addr w))%list /\
        log_extends w w') w.
Proof.
  unfold updateDnsRecord. wp_step.
  eapply wp_mono; [apply fetchDnsRecordId_spec |]. cbv beta zeta.
  intros r w1 ((recordId & -> & ID) & A1 & R1 & G1).
  unfold upsert_requests. rewrite <- ID.
  assert (FIN : forall req w2,
             same_net (push_request req w1) w2 ->
             log_file w2 = log_file w1 ->
             forall level data,
             wp (appendToLogFile out level data)
                (fun r0 w'0 =>
                   r0 = Done tt /\
                   addr w'0 = addr w /\
                   requests w'0 =
                     (requests w ++ [mkIssued (lookup_request env type) (addr w);
                                     mkIssued req (addr w)])%list /\
                   log_extends w w'0) w2).
  { intros req w2 (A2 & R2 & T2) F2 level data. world_simpl.
    apply wp_append. intros w4 (A4 & R4 & T4) L4.
    split4; [reflexivity | congruence | |].
    - rewrite R4, R2, R1, A1, <- app_assoc. reflexivity.
    - eapply (log_extends_snoc w w1 w2 w4); [exact G1 | exact F2 | exact L4]. }
  destruct (truthy_str recordId) eqn:TR; cbn [negb].
  - (* an id: replace the record *)
    destruct recordId as [i |]; [| discriminate]. cbn [tmpl write_request].
    wp_step. wp_step. apply wp_axios.
    destruct (write_reply out _ _) as [d | m rd].
    + destruct (write_success d); wp_go;
        (eapply wp_mono; [apply FIN; [net_solve | reflexivity] |]);
        cbv beta; intros r w2 (-> & H); exact (conj eq_refl H).
    + wp_go. apply FIN; [net_solve | reflexivity].
  - (* no id: create *)
    cbn [write_request]. wp_step.
    apply wp_append. intros w2 (A2 & R2 & T2) L2. wp_go.
    eapply wp_mono; [apply createDnsRecord_spec |]. cbv beta.
    intros r w3 (-> & A3 & R3 & G3). world_simpl.
    split4; [reflexivity | congruence | |].
    + rewrite R3, R2, R1, A2, A1, <- app_assoc. reflexivity.
    + eapply log_extends_trans; [| exact G3].
      eapply log_extends_trans; [| apply log_extends_same; reflexivity].
      eapply (log_extends_snoc w w1 w1 w2); [exact G1 | reflexivity | exact L2].
Qed.

(* ------------------------------------------------------------------ *)
(** *** The sync cycle                                                 *)
(* ------------------------------------------------------------------ *)

Lemma log_grew_then_intro w w1 w1' w2 levels level data :
  log_grew w w1 levels ->
  log_file w1' = log_file w1 ->
  (log_ready w1' = true -> logged level data w1' w2) ->
  log_grew_then w w2 levels level data.
Proof.
  intros G F L R. destruct (G R) as (R1 & added & E1 & M1).
  assert (R1' : log_ready w1' = true) by (unfold log_ready in *; now rewrite F).
  destruct (L R1') as (_ & _ & R2 & t & E2).
  split; [assumption |]. exists added, t. split; [| assumption].
  rewrite E2. unfold log_entries in *. rewrite F, E1. now rewrite <- app_assoc.
Qed.

Lemma log_grew_then_extends w w' levels level data :
  log_grew_then w w' levels level data -> log_extends w w'.
Proof.
  intros G R. destruct (G R) as (R' & added & t & E & _).
  split; [assumption |]. eauto.
Qed.

(** Both halves of a cycle are proved by the same script. *)
Ltac half_cycle env out w :=
  wp_step;
  eapply wp_mono; [apply fetchPublicIpAddress_spec |]; cbv beta zeta;
  let r := fresh "r" in
  let w1 := fresh "w1" in
  let A1 := fresh "A1" in
  let R1 := fresh "R1" in
  let G1 := fresh "G1" in
  intros r w1 (-> & A1 & R1 & G1);
  unfold half_cycle_post; cbv zeta;
  let res := fresh "res" in
  set (res := resolution out _ _ _ 0%Z _) in *;
  destruct (truthy_str (fst res)) eqn:?;
  [ wp_go; rewrite A1;
    match goal with
    | |- wp (if strict_neq ?a ?b then _ else _) _ _ => destruct (strict_neq a b) eqn:?
    end;
    [ wp_go; eapply wp_mono; [apply updateDnsRecord_spec |]; cbv beta zeta;
      let r2 := fresh "r" in
      let w2 := fresh "w2" in
      let A2 := fresh "A2" in
      let R2 := fresh "R2" in
      let G2 := fresh "G2" in
      intros r2 w2 (-> & A2 & R2 & G2); world_simpl;
      split; [reflexivity |]; split; [exact A2 | split];
      [ rewrite R2, R1, length_app, repeat_length, <- app_assoc; reflexivity
      | eapply log_extends_trans; [eapply log_grew_extends; exact G1 |];
        eapply log_extends_trans; [| exact G2];
        apply log_extends_same; reflexivity ]
    | wp_go; apply wp_append;
      let w2 := fresh "w2" in
      let A2 := fresh "A2" in
      let R2 := fresh "R2" in
      let T2 := fresh "T2" in
      let L2 := fresh "L2" in
      intros w2 (A2 & R2 & T2) L2; world_simpl;
      split; [reflexivity |]; split; [congruence | split];
      [ congruence
      | eapply (log_grew_then_intro w w1 _ w2); [exact G1 | | exact L2]; reflexivity ] ]
  | wp_go; apply wp_append;
    let w2 := fresh "w2" in
    let A2 := fresh "A2" in
    let R2 := fresh "R2" in
    let T2 := fresh "T2" in
    let L2 := fresh "L2" in
    intros w2 (A2 & R2 & T2) L2; world_simpl;
    split; [reflexivity |]; split; [congruence | split];
    [ congruence
    | eapply (log_grew_then_intro w w1 _ w2); [exact G1 | | exact L2]; reflexivity ] ].

Lemma monitorIPv4_spec env out w :
  wp (monitorIPv4 env out)
     (half_cycle_post env out 4 "A" currentIPv4
        (fun ip a => mkAddr ip (currentIPv6 a))
        [("message", JStr "IPv4アドレスに変更はありません")]
        [("message", JStr "IPv4アドレスの取得に失敗しました。DNS更新をスキップします。");
         ("ipVersion", JNum 4)] w) w.
Proof. unfold monitorIPv4. half_cycle env out w. Qed.

Lemma monitorIPv6_spec env out w :
  wp (monitorIPv6 env out)
     (half_cycle_post env out 6 "AAAA" currentIPv6
        (fun ip a => mkAddr (currentIPv4 a) ip)
        [("message", JStr "IPv6アドレスに変更はありません")]
        [("message", JStr "IPv6アドレスの取得に失敗しました。DNS更新をスキップします。");
         ("ipVersion", JNum 6)] w) w.
Proof. unfold monitorIPv6. half_cycle env out w. Qed.

(* ------------------------------------------------------------------ *)
(** *** Requests                                                       *)
(* ------------------------------------------------------------------ *)

Lemma issued_since_app w w' l :
  requests w' = (requests w ++ l)%list -> issued_since w w' = l.
Proof.
  intros E. unfold issued_since. rewrite E, skipn_app, skipn_all, Nat.sub_diag. reflexivity.
Qed.

Lemma provider_calls_app l1 l2 :
  provider_calls (l1 ++ l2) = (provider_calls l1 ++ provider_calls l2)%list.
Proof. unfold provider_calls. now rewrite map_app, filter_app. Qed.

Lemma echo_is_not_provider version : is_provider_request (echo_request version) = false.
Proof. unfold echo_request. destruct (Z.eqb version 6); reflexivity. Qed.

Lemma provider_calls_echoes version a n :
  provider_calls (repeat (mkIssued (echo_request version) a) n) = [].
Proof.
  induction n as [| n IH]; [reflexivity |].
  unfold provider_calls in *. simpl. now rewrite echo_is_not_provider.
Qed.

Lemma lookup_is_provider env type : is_provider_request (lookup_request env type) = true.
Proof. reflexivity. Qed.

Lemma write_is_provider env recordId type ipAddress :
  is_provider_request (write_request env recordId type ipAddress) = true.
Proof. destruct recordId; reflexivity. Qed.

Lemma provider_calls_upsert env reply type ipAddress a :
  provider_calls (upsert_requests env reply type ipAddress a) =
  [lookup_request env type; write_request env (record_id_of reply) type ipAddress].
Proof.
  unfold provider_calls, upsert_requests. cbn [map request filter].
  now rewrite lookup_is_provider, write_is_provider.
Qed.

Lemma fetch_outcome env out version w :
  outcome (fetchPublicIpAddress env out version) w =
  Done (fst (resolution out (Z.to_nat (ipFetchRetryCount env)) version
               (ipFetchRetryCount env) 0 (List.length (requests w)))).
Proof. apply (fetchPublicIpAddress_spec env out version w). Qed.

(** The resolver's answer depends on the world only through the number
    of requests issued so far. *)
Lemma fetch_outcome_requests env out version w1 w2 :
  List.length (requests w1) = List.length (requests w2) ->
  outcome (fetchPublicIpAddress env out version) w1 =
  outcome (fetchPublicIpAddress env out version) w2.
Proof. intros E. now rewrite !fetch_outcome, E. Qed.

(** A cycle is its IPv4 half followed, when IPv6 is enabled, by its IPv6
    half, run from the world the IPv4 half left. *)
Lemma monitorIpAddress_halves env out w :
  outcome (monitorIpAddress env out) w = Done tt /\
  after (monitorIpAddress env out) w =
  if isIPv6Enabled env then
    after (monitorIPv6 env out) (after (monitorIPv4 env out) w)
  else after (monitorIPv4 env out) w.
Proof.
  destruct (monitorIPv4_spec env out w) as (O4 & _).
  destruct (monitorIPv6_spec env out (after (monitorIPv4 env out) w)) as (O6 & _).
  unfold monitorIpAddress, outcome, after, bind in *.
  destruct (monitorIPv4 env out w) as [r4 w4]. simpl in *. subst r4.
  destruct (isIPv6Enabled env); [| split; reflexivity].
  destruct (monitorIPv6 env out w4) as [r6 w6]. simpl in *. subst r6.
  split; reflexivity.
Qed.

(* ------------------------------------------------------------------ *)
(** *** The Change Detector                                            *)
(* ------------------------------------------------------------------ *)

Lemma shouldSync_iff stored resolved :
  resolved <> Some EmptyString ->
  shouldSync stored resolved = true <-> resolved <> None /\ resolved <> stored.
Proof.
  intros NE. unfold shouldSync, truthy_str, strict_neq.
  destruct resolved as [s |].
  - destruct (String.eqb_spec s EmptyString) as [-> | _]; [congruence |]. simpl.
    destruct stored as [t |].
    + destruct (String.eqb_spec s t) as [-> | D]; simpl.
      * split; [discriminate | intros [_ H]; congruence].
      * split; [intros _; split; congruence | reflexivity].
    + split; [intros _; split; discriminate | reflexivity].
  - split; [discriminate | intros [H _]; congruence].
Qed.

Lemma strict_neq_false_eq a b : strict_neq a b = false -> a = b.
Proof.
  destruct a as [x |], b as [y |]; simpl; try discriminate; auto.
  destruct (String.eqb_spec x y); [congruence | discriminate].
Qed.

Lemma map_repeat_Forall {A B} (f : A -> B) (x : B) l n :
  map f l = repeat x n -> Forall (fun a => f a = x) l.
Proof.
  revert n. induction l as [| a l IH]; intros n E; [constructor |].
  destruct n as [| n]; [discriminate |]. simpl in E. injection E as E1 E2.
  constructor; eauto.
Qed.

Lemma change_detector_from_post env out version type stored commit unchanged failed half w :
  wp half (half_cycle_post env out version type stored commit unchanged failed w) w ->
  change_detector_exact (fetchPublicIpAddress env out version) half stored unchanged w.
Proof.
  intros H resolved RES NE. rewrite fetch_outcome in RES. injection RES as RES.
  unfold wp, half_cycle_post in H. cbv zeta in H. rewrite RES in H.
  destruct H as [OUT H]. cbv zeta.
  split; [now apply shouldSync_iff |].
  unfold shouldSync.
  destruct (truthy_str resolved) eqn:TR.
  - destruct (strict_neq resolved (stored (addr w))) eqn:SN.
    + destruct H as (A & R & G).
      rewrite (issued_since_app _ _ _ R), provider_calls_app, provider_calls_echoes,
        provider_calls_upsert.
      split; [split; [reflexivity | discriminate] |].
      intros _ EQ. exfalso. rewrite EQ in SN. clear - SN.
      destruct (stored (addr w)) as [s |]; simpl in SN; [| discriminate].
      now rewrite String.eqb_refl in SN.
    + destruct H as (A & R & G).
      rewrite (issued_since_app _ _ _ R), provider_calls_echoes.
      split; [split; [congruence | discriminate] |].
      intros _ _. split; [assumption |]. split; [reflexivity |]. split; [assumption |].
      intros READY. destruct (G READY) as (_ & added & t & E & LV).
      exists added, t. split; [assumption |].
      apply (map_repeat_Forall level_of (Some (JStr "WARN")) added
               (snd (resolution out (Z.to_nat (ipFetchRetryCount env)) version
                       (ipFetchRetryCount env) 0 (List.length (requests w))) - 1)).
      rewrite LV.
      destruct (resolution out _ version _ 0 _) as [r c]. simpl in RES. subst r.
      destruct resolved; [reflexivity | discriminate].
  - destruct H as (A & R & G).
    rewrite (issued_since_app _ _ _ R), provider_calls_echoes.
    split; [split; [congruence | discriminate] |].
    intros NN _. exfalso. destruct resolved as [s |]; [| congruence].
    simpl in TR. destruct (String.eqb_spec s EmptyString); [subst; congruence | discriminate].
Qed.

(** C3 (for both families): the Change Detector asks for a sync exactly
    when the resolved address is non-null and differs, as a string, from
    the stored one, and the half cycle then (and only then) calls the
    provider; a cycle that resolves the stored value makes no provider call,
    leaves the state alone and appends exactly one INFO entry, the "no
    change" one (the entries before it in that half cycle are the WARN
    entries of failed attempts).  A resolved address is never the empty
    string. *)
Theorem C3_change_detector_exact :
  forall env out w,
    change_detector_exact (fetchPublicIpAddress env out 4) (monitorIPv4 env out) currentIPv4
      [("message", JStr "IPv4アドレスに変更はありません")] w /\
    change_detector_exact (fetchPublicIpAddress env out 6) (monitorIPv6 env out) currentIPv6
      [("message", JStr "IPv6アドレスに変更はありません")] w.
Proof.
  intros env out w. split.
  - eapply change_detector_from_post. apply monitorIPv4_spec.
  - eapply change_detector_from_post. apply monitorIPv6_spec.
Qed.

(* ------------------------------------------------------------------ *)
(** *** Exhausted retries                                              *)
(* ------------------------------------------------------------------ *)

Lemma resolution_all_fail out version retryCount : forall fuel attempts n,
  (attempts < retryCount)%Z ->
  (Z.to_nat (retryCount - attempts) <= fuel)%nat ->
  (forall k, (k < Z.to_nat (retryCount - attempts))%nat ->
     exists message response_data,
       echo_reply out (n + k) (echo_request version) = Rejected message response_data) ->
  resolution out fuel version retryCount attempts n =
  (None, Z.to_nat (retryCount - attempts)).
Proof.
  induction fuel as [| fuel IH]; intros attempts n A F FAIL; [lia |].
  simpl. destruct (Z.ltb_spec attempts retryCount); [| lia].
  destruct (FAIL O ltac:(lia)) as (m & rd & E0). rewrite Nat.add_0_r in E0. rewrite E0.
  destruct (Z.geb_spec (attempts + 1) retryCount) as [LAST | MORE].
  - f_equal. lia.
  - rewrite IH; [f_equal; lia | lia | lia |].
    intros k K. replace (S n + k)%nat with (n + S k)%nat by lia. apply FAIL. lia.
Qed.

Lemma resolution_levels_exhausted n :
  (1 <= n)%nat ->
  resolution_levels (None, n) =
  (repeat (Some (JStr "WARN")) n ++ [Some (JStr "ERROR")])%list.
Proof. destruct n; [lia | reflexivity]. Qed.

Lemma exhausted_from_post env out version type stored commit unchanged failed half w :
  wp half (half_cycle_post env out version type stored commit unchanged failed w) w ->
  (0 < ipFetchRetryCount env)%Z ->
  every_attempt_fails env out version w ->
  exhausted_resolution env out version half w.
Proof.
  intros H POS FAIL.
  assert (RES : resolution out (Z.to_nat (ipFetchRetryCount env)) version
                  (ipFetchRetryCount env) 0 (List.length (requests w)) =
                (None, Z.to_nat (ipFetchRetryCount env))).
  { rewrite resolution_all_fail; rewrite ?Z.sub_0_r; try lia; [reflexivity |].
    exact FAIL. }
  pose proof (fetchPublicIpAddress_spec env out version w) as FS.
  unfold wp in FS. cbv zeta in FS. rewrite RES in FS. destruct FS as (FO & FA & FR & FG).
  unfold wp, half_cycle_post in H. cbv zeta in H. rewrite RES in H.
  destruct H as (HO & HA & HR & HG). simpl fst in *. simpl snd in *.
  unfold exhausted_resolution. cbv zeta.
  split; [exact FO |]. split; [now apply issued_since_app |]. split.
  - intros READY. destruct (FG READY) as (_ & added & E & LV). exists added.
    split; [assumption |]. rewrite LV. apply resolution_levels_exhausted. lia.
  - split; [assumption |]. split; [| assumption].
    rewrite (issued_since_app _ _ _ HR). apply provider_calls_echoes.
Qed.

(** C6 (for both families): when the configured retry count is positive
    and every attempt of the resolver fails, the resolver returns null
    after exactly that many requests to the echo service, having appended
    one WARN entry per failed attempt and then one ERROR entry, and the
    family's half cycle makes no provider call and leaves the state alone. *)
Theorem C6_exhausted_retries :
  forall env out w,
    (0 < ipFetchRetryCount env)%Z ->
    (every_attempt_fails env out 4 w ->
     exhausted_resolution env out 4 (monitorIPv4 env out) w) /\
    (every_attempt_fails env out 6 w ->
     exhausted_resolution env out 6 (monitorIPv6 env out) w).
Proof.
  intros env out w POS. split; intros FAIL.
  - eapply exhausted_from_post; [apply monitorIPv4_spec | assumption | assumption].
  - eapply exhausted_from_post; [apply monitorIPv6_spec | assumption | assumption].
Qed.

(* ------------------------------------------------------------------ *)
(** *** Start-up                                                       *)
(* ------------------------------------------------------------------ *)


Lemma missingEnvVars_spec env key :
  In key (missingEnvVars env) <->
  In key requiredEnvVars /\ (env key = None \/ env key = Some EmptyString).
Proof.
  unfold missingEnvVars. rewrite filter_In.
  assert (T : negb (truthy_str (env key)) = true <-> env key = None \/ env key = Some EmptyString).
  { unfold truthy_str. destruct (env key) as [s |]; simpl.
    - rewrite negb_involutive. destruct (String.eqb_spec s EmptyString) as [-> | N].
      + split; auto.
      + split; [discriminate | intros [H | H]; congruence].
    - split; auto. }
  now rewrite T.
Qed.

Lemma prefix_app s t : String.prefix s (s ++ t) = true.
Proof.
  induction s as [| c s IH]; [destruct t; reflexivity |]. simpl.
  destruct (ascii_dec c c); [exact IH | congruence].
Qed.

Lemma prefix_refl s : String.prefix s s = true.
Proof.
  induction s as [| c s IH]; [reflexivity |]. simpl.
  destruct (ascii_dec c c); [exact IH | congruence].
Qed.














(* ------------------------------------------------------------------ *)
(** *** Commit order and failed pushes                                 *)
(* ------------------------------------------------------------------ *)

Lemma strict_neq_new ip stored : stored <> Some ip -> strict_neq (Some ip) stored = true.
Proof.
  intros N. destruct stored as [s |]; simpl; [| reflexivity].
  destruct (String.eqb_spec ip s); [congruence | reflexivity].
Qed.

Lemma truthy_nonempty ip : ip <> EmptyString -> truthy_str (Some ip) = true.
Proof. intros N. simpl. destruct (String.eqb_spec ip EmptyString); [congruence | reflexivity]. Qed.

Lemma strict_neq_same ip : strict_neq (Some ip) (Some ip) = false.
Proof. simpl. now rewrite String.eqb_refl. Qed.

Lemma Forall_repeat {A} (P : A -> Prop) x n : P x -> Forall P (repeat x n).
Proof. intros H. induction n; simpl; constructor; auto. Qed.

Lemma commit_before_from_post env out version type stored commit unchanged failed half w :
  (forall ip a, stored (commit (Some ip) a) = Some ip) ->
  wp half (half_cycle_post env out version type stored commit unchanged failed w) w ->
  commit_before_upsert env (fetchPublicIpAddress env out version) half type stored commit w.
Proof.
  intros SC H ip NE RES NEW. rewrite fetch_outcome in RES. injection RES as RES.
  unfold wp, half_cycle_post in H. cbv zeta in H. rewrite RES in H.
  rewrite (truthy_nonempty ip NE), (strict_neq_new ip _ NEW) in H.
  destruct H as (_ & A & R & _). cbv zeta.
  split; [apply SC |]. split; [assumption |].
  eexists. eexists. split; [| split].
  - rewrite (issued_since_app _ _ _ R). unfold upsert_requests. reflexivity.
  - apply provider_calls_echoes.
  - apply Forall_repeat. reflexivity.
Qed.

Lemma not_retried_from_post env out version type stored commit unchanged failed half :
  (forall ip a, stored (commit (Some ip) a) = Some ip) ->
  (forall w, wp half (half_cycle_post env out version type stored commit unchanged failed w) w) ->
  forall w, failed_upsert_not_retried (fetchPublicIpAddress env out version) half stored w.
Proof.
  intros SC H w ip NE RES NEW. split.
  - destruct (commit_before_from_post _ _ _ _ _ _ _ _ _ _ SC (H w) ip NE RES NEW)
      as (S1 & A1 & _).
    rewrite A1. exact S1.
  - intros w2 ST RES2. rewrite fetch_outcome in RES2. injection RES2 as RES2.
    specialize (H w2). unfold wp, half_cycle_post in H. cbv zeta in H.
    rewrite RES2, ST, (truthy_nonempty ip NE) in H.
    rewrite (strict_neq_same ip) in H.
    destruct H as (O & A & R & _).
    split; [| split; [assumption | split; [| assumption]]].
    + unfold shouldSync. now rewrite ST, (truthy_nonempty ip NE), strict_neq_same.
    + rewrite (issued_since_app _ _ _ R). apply provider_calls_echoes.
Qed.

(** C1, as the code has it (for both families): in a cycle whose resolved
    address differs from the stored one, the stored address becomes the
    resolved one whatever becomes of the upsert, in particular when it
    fails; a later cycle that starts with that address stored and resolves
    it again has the Change Detector report no change, makes no provider
    call and leaves the state alone.  A failed push is therefore not
    re-attempted on the next tick. *)
Theorem C1_failed_upsert_not_retried :
  forall env out w,
    failed_upsert_not_retried (fetchPublicIpAddress env out 4) (monitorIPv4 env out)
      currentIPv4 w /\
    failed_upsert_not_retried (fetchPublicIpAddress env out 6) (monitorIPv6 env out)
      currentIPv6 w.
Proof.
  intros env out w. split.
  - eapply not_retried_from_post; [| intros w0; apply monitorIPv4_spec]. reflexivity.
  - eapply not_retried_from_post; [| intros w0; apply monitorIPv6_spec]. reflexivity.
Qed.

(** C2, as the code has it (for both families): in a half cycle whose
    resolved address differs from the stored one, the address state the
    half cycle ends with is already in place when the lookup, the first
    request of the upsert, is issued, and when the write is issued; only
    the resolver's own requests see the old state.  The stored address is
    updated before the upsert call, not upon its completion. *)
Theorem C2_commit_precedes_upsert :
  forall env out w,
    commit_before_upsert env (fetchPublicIpAddress env out 4) (monitorIPv4 env out) "A"
      currentIPv4 (fun ip a => mkAddr ip (currentIPv6 a)) w /\
    commit_before_upsert env (fetchPublicIpAddress env out 6) (monitorIPv6 env out) "AAAA"
      currentIPv6 (fun ip a => mkAddr (currentIPv4 a) ip) w.
Proof.
  intros env out w. split.
  - eapply commit_before_from_post; [| apply monitorIPv4_spec]. reflexivity.
  - eapply commit_before_from_post; [| apply monitorIPv6_spec]. reflexivity.
Qed.

(* ------------------------------------------------------------------ *)
(** *** The upsert                                                     *)
(* ------------------------------------------------------------------ *)

Lemma updateDnsRecord_requests env out type ipAddress w :
  outcome (updateDnsRecord env out type ipAddress) w = Done tt /\
  map request (issued_since w (after (updateDnsRecord env out type ipAddress) w)) =
  [lookup_request env type;
   write_request env
     (record_id_of (list_reply out (List.length (requests w)) (lookup_request env type)))
     type ipAddress].
Proof.
  destruct (updateDnsRecord_spec env out type ipAddress w) as (O & _ & R & _).
  split; [assumption |]. rewrite (issued_since_app _ _ _ R). reflexivity.
Qed.

Lemma record_id_of_none reply :
  record_id_of reply = None <->
  (exists message response_data, reply = Rejected message response_data) \/
  (exists d, reply = Fulfilled d /\
             (list_success d = false \/ result d = [] \/
              exists first rest, result d = first :: rest /\ id first = EmptyString)).
Proof.
  destruct reply as [[ok res] | m rd]; simpl.
  - destruct ok.
    + destruct res as [| first rest].
      * split; [| reflexivity]. intros _. right. eexists. split; [reflexivity |]. auto.
      * destruct (String.eqb_spec (id first) EmptyString) as [E | N].
        -- split; [| reflexivity]. intros _. right. eexists. split; [reflexivity |].
           right. right. exists first, rest. split; [reflexivity | assumption].
        -- split; [discriminate |].
           intros [(m & rd & H) | (d & H & [S | [Z | (f & r & C & E)]])];
             try discriminate; injection H as <-; simpl in *;
             try discriminate. injection C as <- <-. contradiction.
    + split; [| reflexivity]. intros _. right. eexists. split; [reflexivity |]. auto.
  - split; [| reflexivity]. intros _. left. eauto.
Qed.

(** C4, as the code has it: every upsert first issues the lookup, a GET
    on the zone's records filtered by the record name and the type; then
    exactly one write.  The record id is the id of the first record
    returned.  The write is a PUT on that record, with the complete
    record (type, name, new address, configured ttl and proxied flag) as
    body, when the lookup produced an id; it is a create (POST, same body)
    exactly when the lookup produced none, which is the case when the
    lookup returned no record, but also when the provider reported a
    failure, when the lookup request itself failed, and when the first
    record's id is empty. *)
Theorem C4_upsert_is_lookup_then_write :
  forall env out type ipAddress w,
    let reply := list_reply out (List.length (requests w)) (lookup_request env type) in
    let issued :=
      map request (issued_since w (after (updateDnsRecord env out type ipAddress) w)) in
    outcome (updateDnsRecord env out type ipAddress) w = Done tt /\
    issued = [lookup_request env type;
              write_request env (record_id_of reply) type ipAddress] /\
    (method (lookup_request env type) = GET /\
     url (lookup_request env type) = dns_records_url env /\
     params (lookup_request env type) =
       (opt_prop "name" (cloudflareDnsName env) ++ [("type", JStr type)])%list) /\
    (forall d first rest,
        reply = Fulfilled d -> list_success d = true -> result d = first :: rest ->
        id first <> EmptyString ->
        record_id_of reply = Some (id first)) /\
    (forall recordId,
        record_id_of reply = Some recordId ->
        issued = [lookup_request env type; update_request env recordId type ipAddress] /\
        method (update_request env recordId type ipAddress) = PUT /\
        url (update_request env recordId type ipAddress) =
          (dns_records_url env ++ "/" ++ recordId)%string /\
        body (update_request env recordId type ipAddress) =
          Some (record_body env type ipAddress)) /\
    (In (create_request env type ipAddress) issued <-> record_id_of reply = None) /\
    (record_id_of reply = None <->
     (exists message response_data, reply = Rejected message response_data) \/
     (exists d, reply = Fulfilled d /\
                (list_success d = false \/ result d = [] \/
                 exists first rest, result d = first :: rest /\ id first = EmptyString))) /\
    (method (create_request env type ipAddress) = POST /\
     url (create_request env type ipAddress) = dns_records_url env /\
     body (create_request env type ipAddress) = Some (record_body env type ipAddress)) /\
    record_body env type ipAddress =
      JObj ([("type", JStr type)] ++ opt_prop "name" (cloudflareDnsName env) ++
            [("content", JStr ipAddress);
             ("ttl", JNum (cloudflareDnsTtl env));
             ("proxied", JBool (isCloudflareProxyEnabled env))])%list.
Proof.
  intros env out type ipAddress w reply issued.
  destruct (updateDnsRecord_requests env out type ipAddress w) as (O & R).
  fold reply in R. fold issued in R.
  split; [assumption |]. split; [assumption |].
  split; [repeat split |]. split; [| split; [| split; [| split; [| split]]]].
  - intros d first rest E S RS N. rewrite E. simpl. rewrite S, RS.
    destruct (String.eqb_spec (id first) EmptyString); [contradiction | reflexivity].
  - intros recordId E. rewrite R, E. repeat split.
  - rewrite R. destruct (record_id_of reply) as [i |]; simpl.
    + split; [| discriminate]. intros [H | [H | []]]; discriminate.
    + split; [reflexivity |]. auto.
  - apply record_id_of_none.
  - repeat split.
  - reflexivity.
Qed.

(** C7 does not hold of the code: every upsert starts with the lookup
    request, and that request is issued without any timeout, while the
    create and update requests carry 10000 ms and the resolver's requests
    5000 ms. *)
Theorem C7_lookup_has_no_timeout :
  forall env out type ipAddress w,
    exists write,
      map request (issued_since w (after (updateDnsRecord env out type ipAddress) w)) =
        [lookup_request env type; write] /\
      timeout (lookup_request env type) = None /\
      timeout write = Some 10000%Z /\
      timeout (create_request env type ipAddress) = Some 10000%Z /\
      (forall recordId, timeout (update_request env recordId type ipAddress) = Some 10000%Z) /\
      (forall version, timeout (echo_request version) = Some 5000%Z) /\
      (5000 < 10000)%Z.
Proof.
  intros env out type ipAddress w.
  destruct (updateDnsRecord_requests env out type ipAddress w) as (_ & R).
  eexists. split; [exact R |]. repeat split.
  destruct (record_id_of _); reflexivity.
Qed.

(* ------------------------------------------------------------------ *)
(** *** The audit log                                                  *)
(* ------------------------------------------------------------------ *)

(* ------------------------------------------------------------------ *)
(** *** The audit log when calls of [fs] can throw                     *)
(* ------------------------------------------------------------------ *)

Lemma wp_fs_call {A} disk c (effect : M A) Q w :
  match disk w c with
  | Some message => Q (Thrown (SystemError message)) w
  | None => wp effect Q w
  end ->
  wp (Fallible.fs_call disk c effect) Q w.
Proof.
  unfold wp, outcome, after, Fallible.fs_call. destruct (disk w c); auto.
Qed.

(** How [ensureLogFile] ends: it returns with the directory and the file
    in place, or [mkdirSync] throws, or [writeFileSync] does. *)
Lemma ensureLogFile_cases disk w :
  (exists w1,
      Fallible.ensureLogFile disk w = (Done tt, w1) /\
      same_net w w1 /\ console w1 = console w /\ clock_reads w1 = clock_reads w /\
      log_dir w1 = true /\
      log_file w1 = Some (match log_file w with
                          | Some content => content
                          | None => Document emptyDocument
                          end)) \/
  (exists message,
      log_dir w = false /\ disk w MkdirSync = Some message /\
      Fallible.ensureLogFile disk w = (Thrown (SystemError message), w)) \/
  (exists message,
      log_file w = None /\
      (log_dir w = false -> disk w MkdirSync = None) /\
      disk (if log_dir w then w else set_log_dir true w) WriteFileSync = Some message /\
      Fallible.ensureLogFile disk w =
        (Thrown (SystemError message), if log_dir w then w else set_log_dir true w)).
Proof.
  unfold Fallible.ensureLogFile, Fallible.existsLogDirectory, Fallible.mkdirLogDirectory,
    Fallible.writeLogFile, Fallible.fs_call, existsLogFile, writeLogFile, bind, ret.
  destruct w as [a d f c r co t]. cbn [log_dir log_file].
  destruct d; cbn [log_dir log_file set_log_dir].
  - destruct f as [content |]; cbn [log_dir log_file].
    + left. eexists. split; [reflexivity |]. repeat split.
    + destruct (disk _ WriteFileSync) as [m |] eqn:W.
      * right. right. exists m. repeat split; try discriminate. 
      * left. eexists. split; [reflexivity |]. repeat split.
  - destruct (disk _ MkdirSync) as [m |] eqn:D.
    + right. left. exists m. repeat split.
    + cbn [log_dir log_file set_log_dir addr clock_reads requests console timers].
      destruct f as [content |]; cbn [log_dir log_file].
      * left. eexists. split; [reflexivity |]. repeat split.
      * destruct (disk _ WriteFileSync) as [m |] eqn:W.
        -- right. right. exists m. repeat split.
        -- left. eexists. split; [reflexivity |]. repeat split.
Qed.

(** With the directory and the file in place [ensureLogFile] calls nothing
    that can throw. *)
Lemma ensureLogFile_present disk w :
  log_store_present w -> Fallible.ensureLogFile disk w = (Done tt, w).
Proof.
  intros (D & F).
  unfold Fallible.ensureLogFile, Fallible.existsLogDirectory, existsLogFile, bind, ret.
  rewrite D. destruct (log_file w); [reflexivity | contradiction].
Qed.

(** On a file system that works, the calls are those of the first
    embedding. *)
Lemma ensureLogFile_works disk w :
  works disk -> Fallible.ensureLogFile disk w = ensureLogFile w.
Proof.
  intros OK.
  unfold Fallible.ensureLogFile, Fallible.existsLogDirectory, Fallible.mkdirLogDirectory,
    Fallible.writeLogFile, Fallible.fs_call, existsLogFile, writeLogFile, ensureLogFile,
    bind, ret.
  destruct w as [a d f c r co t]. cbn [log_dir log_file].
  destruct d; rewrite ?OK; cbn [log_dir log_file set_log_dir];
    destruct f; rewrite ?OK; reflexivity.
Qed.

Lemma bind_both {A B} (m1 m2 : M A) (k1 k2 : A -> M B) w :
  m1 w = m2 w -> (forall a w', k1 a w' = k2 a w') -> bind m1 k1 w = bind m2 k2 w.
Proof.
  intros E K. unfold bind. rewrite E. destruct (m2 w) as [[a | e | c] w']; auto.
Qed.

Lemma try_both {A} (b1 b2 : M A) (h1 h2 : JsError -> M A) w :
  b1 w = b2 w -> (forall e w', h1 e w' = h2 e w') -> try_catch b1 h1 w = try_catch b2 h2 w.
Proof.
  intros E H. unfold try_catch. rewrite E. destruct (b2 w) as [[a | e | c] w']; auto.
Qed.

Lemma appendToLogFile_in_works disk out :
  works disk ->
  forall stack level data w,
    Fallible.appendToLogFile_in disk out stack level data w =
    appendToLogFile_in out stack level data w.
Proof.
  intros OK. induction stack as [| deeper IH]; intros level data w; [reflexivity |].
  cbn [Fallible.appendToLogFile_in appendToLogFile_in].
  apply bind_both; [now apply ensureLogFile_works |]. intros _ w1.
  apply try_both; [| reflexivity].
  apply bind_both; [reflexivity |]. intros lastUpdated w2.
  apply bind_both; [reflexivity |]. intros present w3.
  apply bind_both.
  - destruct present; [| reflexivity].
    apply bind_both.
    + unfold Fallible.readLogFile, Fallible.fs_call. now rewrite OK.
    + intros content w4. apply try_both; [reflexivity |]. intros e w5.
      apply bind_both; [reflexivity |]. intros _ w6.
      apply bind_both; [apply IH | reflexivity].
  - intros logData w4.
    apply bind_both; [reflexivity |]. intros logData1 w5.
    apply bind_both; [reflexivity |]. intros logData2 w6.
    unfold Fallible.writeLogFile, Fallible.fs_call. now rewrite OK.
Qed.

Lemma appendToLogFile_works disk out level data w :
  works disk ->
  Fallible.appendToLogFile disk out level data w = appendToLogFile out level data w.
Proof. intros OK. now apply appendToLogFile_in_works. Qed.

(** The read-modify-write tail when the write can throw. *)
Lemma wp_store_fallible disk out logData level data (Q : Outcome unit -> World -> Prop) w :
  (forall r w',
      same_net w w' -> console w' = console w -> log_dir w' = log_dir w ->
      (log_file w <> None -> log_file w' <> None) ->
      (r = Done tt \/ exists e, r = Thrown e) -> Q r w') ->
  wp (logData <- push_log out logData level data ;;
      logData0 <- touch_metadata out logData ;;
      Fallible.writeLogFile disk logData0) Q w.
Proof.
  intros H. unfold push_log, touch_metadata, Fallible.writeLogFile.
  repeat (first [wp_step | progress world_simpl | apply wp_fs_call];
          try match goal with
              | |- context [match ?x with _ => _ end] => destruct x eqn:?
              end);
    try discriminate;
    try (exfalso; eapply get_prop_no_exit; eassumption);
    (apply H;
     [net_solve | reflexivity | reflexivity | world_simpl; auto; discriminate | eauto]).
Qed.

(** Whatever the file system does, a call that has room for its frame
    ends as its [ensureLogFile] does: what that throws reaches the caller,
    and when it returns the call returns, everything after it being inside
    the [try].  The call touches neither the address state nor the
    network, removes neither the directory nor the file, and only adds to
    the console. *)
Lemma appendToLogFile_in_fallible disk out stack level data w :
  wp (Fallible.appendToLogFile_in disk out stack level data)
     (fun r w' =>
        same_net w w' /\
        (log_dir w = true -> log_dir w' = true) /\
        (log_file w <> None -> log_file w' <> None) /\
        (exists more, console w' = (console w ++ more)%list) /\
        r = match stack with
            | O => Thrown (RangeError "Maximum call stack size exceeded")
            | S _ => after_ensure (outcome (Fallible.ensureLogFile disk) w) (Done tt)
            end) w.
Proof.
  revert level data w. induction stack as [| deeper IH]; intros level data w.
  - simpl. apply wp_throw. split; [apply same_net_refl |].
    split; [auto |]. split; [auto |]. split; [| reflexivity].
    exists []. now rewrite app_nil_r.
  - cbn [Fallible.appendToLogFile_in]. wp_step.
    destruct (ensureLogFile_cases disk w)
      as [(w1 & E & N1 & C1 & _ & D1 & F1) | [(m & _ & _ & E) | (m & F0 & _ & _ & E)]];
      unfold wp at 1; unfold outcome, after; rewrite E; cbn [fst snd after_ensure].
    2: { repeat split; auto. exists []. now rewrite app_nil_r. }
    2: { destruct (log_dir w) eqn:D; repeat split; world_simpl; auto;
           exists []; now rewrite app_nil_r. }
    assert (P1 : log_file w1 <> None) by (rewrite F1; discriminate).
    assert (T1 : forall w2, same_net w1 w2 -> same_net w w2)
      by (intros w2; apply same_net_trans; exact N1).
    assert (TAIL : forall logData w2,
              same_net w w2 -> log_dir w2 = true -> log_file w2 <> None ->
              (exists more, console w2 = (console w ++ more)%list) ->
              wp (logData <- push_log out logData level data ;;
                  logData0 <- touch_metadata out logData ;;
                  Fallible.writeLogFile disk logData0)
                 (fun r0 w'0 =>
                    match r0 with
                    | Thrown e =>
                        wp (console_out StdError
                              [JStr "ログファイルの更新に失敗しました:"; JStr (message_of e)])
                           (fun r1 w'1 =>
                              same_net w w'1 /\ (log_dir w = true -> log_dir w'1 = true) /\
                              (log_file w <> None -> log_file w'1 <> None) /\
                              (exists more, console w'1 = (console w ++ more)%list) /\
                              r1 = Done tt)
                           w'0
                    | _ => same_net w w'0 /\ (log_dir w = true -> log_dir w'0 = true) /\
                           (log_file w <> None -> log_file w'0 <> None) /\
                           (exists more, console w'0 = (console w ++ more)%list) /\
                           r0 = Done tt
                    end) w2).
    { intros logData w2 N2 D2 P2 (more & C2). apply wp_store_fallible.
      intros r w3 N3 C3 D3 P3 [-> | [e ->]].
      - split; [net_solve |]. split; [congruence |]. split; [auto |].
        split; [| reflexivity]. exists more. congruence.
      - wp_go. split; [net_solve |]. split; [congruence |]. split; [auto |].
        split; [| reflexivity]. eexists. rewrite C3, C2, <- app_assoc. reflexivity. }
    assert (NIL : exists more, console w1 = (console w ++ more)%list)
      by (exists []; now rewrite app_nil_r).
    wp_go. rewrite F1. wp_go. unfold Fallible.readLogFile. apply wp_fs_call.
    world_simpl.
    destruct (disk _ ReadFileSync) as [m |].
    { wp_go. split; [net_solve |]. split; [congruence |]. split; [congruence |].
      split; [| reflexivity]. eexists. rewrite C1. reflexivity. }
    wp_go. rewrite F1.
    destruct (log_file w) as [[j | raw why] |]; simpl JSON_parse.
    + do 2 wp_step. apply TAIL; [apply T1; net_solve | exact D1 | exact P1 | exact NIL].
    + do 5 wp_step. world_simpl.
      eapply wp_mono; [apply IH |]. cbv beta.
      intros r w2 (N2 & D2 & P2 & (more & C2) & ->). world_simpl. rewrite C1 in C2.
      destruct deeper as [| deeper'].
      * wp_go. split; [apply T1; net_solve |]. split; [auto |]. split; [auto |].
        split; [| reflexivity]. eexists. rewrite C2, <- !app_assoc. reflexivity.
      * unfold outcome. rewrite ensureLogFile_present by (split; world_simpl; assumption).
        cbn [fst after_ensure]. wp_step.
        apply TAIL; [apply T1; net_solve | auto | auto |].
        eexists. rewrite C2, <- app_assoc. reflexivity.
    + do 2 wp_step. apply TAIL; [apply T1; net_solve | exact D1 | exact P1 | exact NIL].
Qed.

(** C5: [appendToLogFile] does raise to its caller.  [ensureLogFile()] is
    its first statement, before the [try], so whatever [fs.mkdirSync] or
    [fs.writeFileSync] throws there reaches the caller: a call ends exactly
    as its [ensureLogFile] does.  That happens when the log directory is
    missing and cannot be created, and when the log file is missing and
    cannot be written.  Everything after that is inside the [try]: once the
    directory and the file are in place the call returns normally whatever
    the file system does, and they stay in place.  On a file system that
    works the call is the one of the first embedding; there, when the file
    does not parse (and the stack has room for one more frame), the call
    leaves a fresh document whose [logs] holds exactly the new entry. *)
Theorem C5_append_raises_what_ensureLogFile_raises :
  forall disk out level data w,
    let run := Fallible.appendToLogFile disk out level data in
    outcome run w = after_ensure (outcome (Fallible.ensureLogFile disk) w) (Done tt) /\
    (forall message,
        log_dir w = true -> log_file w = None -> disk w WriteFileSync = Some message ->
        run w = (Thrown (SystemError message), w)) /\
    (forall message,
        log_dir w = false -> disk w MkdirSync = Some message ->
        run w = (Thrown (SystemError message), w)) /\
    (log_store_present w -> outcome run w = Done tt /\ log_store_present (after run w)) /\
    (works disk ->
     run w = appendToLogFile out level data w /\
     forall raw why,
       (1 <= stack_limit out)%nat ->
       log_file w = Some (Unparseable raw why) ->
       exists timestamp lastUpdated,
         log_file (after run w) =
         Some (Document (JObj [("metadata", JObj [("lastUpdated", JStr lastUpdated)]);
                               ("logs", JArr [make_entry timestamp level data])])) /\
         log_entries (after run w) = [make_entry timestamp level data]).
Proof.
  intros disk out level data w. cbv zeta.
  pose proof (appendToLogFile_in_fallible disk out (S (stack_limit out)) level data w) as H.
  unfold wp in H. fold (Fallible.appendToLogFile disk out level data) in H.
  destruct H as (N & D & P & _ & O).
  split; [exact O |]. split; [| split; [| split]].
  - intros m D0 F0 W.
    unfold Fallible.appendToLogFile. cbn [Fallible.appendToLogFile_in]. unfold bind at 1.
    destruct (ensureLogFile_cases disk w)
      as [(w1 & E & _ & _ & _ & _ & F1) | [(m' & D' & _ & _) | (m' & _ & _ & W' & E)]].
    + exfalso. revert E.
      unfold Fallible.ensureLogFile, Fallible.existsLogDirectory, Fallible.writeLogFile,
        Fallible.fs_call, existsLogFile, bind, ret.
      rewrite D0, F0, W. discriminate.
    + congruence.
    + rewrite D0 in *. rewrite E. congruence.
  - intros m D0 K.
    unfold Fallible.appendToLogFile. cbn [Fallible.appendToLogFile_in]. unfold bind at 1.
    destruct (ensureLogFile_cases disk w)
      as [(w1 & E & _) | [(m' & _ & K' & E) | (m' & _ & K' & _)]].
    + exfalso. revert E.
      unfold Fallible.ensureLogFile, Fallible.existsLogDirectory, Fallible.mkdirLogDirectory,
        Fallible.fs_call, bind, ret.
      rewrite D0, K. discriminate.
    + rewrite E. congruence.
    + rewrite (K' D0) in K. discriminate.
  - intros PRESENT. split.
    + rewrite O. unfold outcome. now rewrite ensureLogFile_present.
    + destruct PRESENT. split; auto.
  - intros OK. split; [now apply appendToLogFile_works |].
    intros raw why S1 F.
    destruct (appendToLogFile_unparseable out level data w raw why S1 F) as (_ & t & u & E).
    unfold log_entries, after in *.
    rewrite (appendToLogFile_works disk out level data w OK). exists t, u. split; [exact E |]. unfold log_entries. rewrite E. reflexivity.
Qed.

(** C10: when the log file parses but the document has no [logs] array
    (the document [{}], say), a call of [appendToLogFile] returns normally,
    the error is reported on the console only, and the file still holds
    the same document: the entry is not persisted and the document is not
    replaced by a fresh one. *)
Theorem C10_document_without_logs_is_kept :
  forall out level data w document,
    log_file w = Some (Document document) ->
    logs_array document = None ->
    let w' := after (appendToLogFile out level data) w in
    outcome (appendToLogFile out level data) w = Done tt /\
    log_file w' = Some (Document document) /\
    log_entries w' = [] /\
    (forall timestamp, ~ In (make_entry timestamp level data) (log_entries w')) /\
    exists reason,
      console w' =
      (console w ++ [mkLine StdError [JStr "ログファイルの更新に失敗しました:"; JStr reason]])%list.
Proof.
  intros out level data w document F L. cbv zeta.
  destruct (appendToLogFile_no_logs_array out level data w document F L) as (O & F' & C).
  assert (E : log_entries (after (appendToLogFile out level data) w) = []).
  { unfold log_entries. rewrite F', L. reflexivity. }
  split; [assumption |]. split; [assumption |]. split; [assumption |].
  split; [| assumption]. intros t. rewrite E. auto.
Qed.

(* ================================================================== *)
(** ** The statements at concrete surroundings                         *)
(* ================================================================== *)

(** Against C1 as written: the echo service reports a new address, the
    write times out, and the cycle ends with the new address stored. *)
Lemma C1_counterexample :
  ~ failed_upsert_is_retried (fetchPublicIpAddress env_demo out_push_fails 4)
      (monitorIpAddress env_demo out_push_fails) currentIPv4 out_push_fails w_demo.
Proof.
  intros H.
  destruct (H "198.51.100.7") as [STILL _].
  - discriminate.
  - vm_compute. reflexivity.
  - discriminate.
  - intros n r. exact I.
  - apply STILL. vm_compute. reflexivity.
Qed.

(** C1 as the code has it, on the same run: the next cycle makes no
    provider call. *)
Lemma C1_witness :
  outcome (fetchPublicIpAddress env_demo out_push_fails 4) w_demo = Done (Some "198.51.100.7") /\
  currentIPv4 (addr w_demo) <> Some "198.51.100.7" /\
  currentIPv4 (addr (after (monitorIPv4 env_demo out_push_fails) w_demo)) =
    Some "198.51.100.7" /\
  provider_calls
    (issued_since (after (monitorIPv4 env_demo out_push_fails) w_demo)
       (after (monitorIPv4 env_demo out_push_fails)
          (after (monitorIPv4 env_demo out_push_fails) w_demo))) = [].
Proof.
  assert (R : outcome (fetchPublicIpAddress env_demo out_push_fails 4) w_demo =
              Done (Some "198.51.100.7")) by (vm_compute; reflexivity).
  assert (N : currentIPv4 (addr w_demo) <> Some "198.51.100.7") by discriminate.
  assert (E : "198.51.100.7" <> EmptyString) by discriminate.
  destruct (proj1 (C1_failed_upsert_not_retried env_demo out_push_fails w_demo)
              "198.51.100.7" E R N) as [STORED NEXT].
  split; [exact R |]. split; [exact N |]. split; [exact STORED |].
  apply (NEXT (after (monitorIPv4 env_demo out_push_fails) w_demo)).
  - exact STORED.
  - vm_compute. reflexivity.
Defined.

(** Against C2 as written: in that cycle the lookup is issued with the new
    address already stored. *)
Lemma C2_counterexample :
  ~ commit_after_upsert (monitorIpAddress env_demo out_push_fails) currentIPv4 w_demo.
Proof.
  unfold commit_after_upsert. intros H.
  assert (E : issued_since w_demo (after (monitorIpAddress env_demo out_push_fails) w_demo) =
              [mkIssued (echo_request 4) (mkAddr (Some "203.0.113.5") None);
               mkIssued (lookup_request env_demo "A") (mkAddr (Some "198.51.100.7") None);
               mkIssued (update_request env_demo "rec-1" "A" "198.51.100.7")
                        (mkAddr (Some "198.51.100.7") None)])
    by (vm_compute; reflexivity).
  rewrite E in H.
  apply Forall_inv_tail, Forall_inv in H.
  specialize (H eq_refl). discriminate H.
Qed.

(** C2 as the code has it, on the same run. *)
Lemma C2_witness :
  outcome (fetchPublicIpAddress env_demo out_push_fails 4) w_demo = Done (Some "198.51.100.7") /\
  currentIPv4 (addr w_demo) <> Some "198.51.100.7" /\
  addr (after (monitorIPv4 env_demo out_push_fails) w_demo) =
    mkAddr (Some "198.51.100.7") None.
Proof.
  assert (R : outcome (fetchPublicIpAddress env_demo out_push_fails 4) w_demo =
              Done (Some "198.51.100.7")) by (vm_compute; reflexivity).
  assert (N : currentIPv4 (addr w_demo) <> Some "198.51.100.7") by discriminate.
  assert (E : "198.51.100.7" <> EmptyString) by discriminate.
  destruct (proj1 (C2_commit_precedes_upsert env_demo out_push_fails w_demo)
              "198.51.100.7" E R N) as (_ & A & _).
  split; [exact R |]. split; [exact N |]. exact A.
Defined.

(** C3 on a cycle that resolves the stored address. *)
Lemma C3_witness :
  outcome (fetchPublicIpAddress env_demo out_steady 4) w_demo = Done (Some "203.0.113.5") /\
  shouldSync (currentIPv4 (addr w_demo)) (Some "203.0.113.5") = false /\
  provider_calls (issued_since w_demo (after (monitorIPv4 env_demo out_steady) w_demo)) = [].
Proof.
  assert (R : outcome (fetchPublicIpAddress env_demo out_steady 4) w_demo =
              Done (Some "203.0.113.5")) by (vm_compute; reflexivity).
  assert (E : Some "203.0.113.5" <> Some EmptyString) by discriminate.
  destruct (proj1 (C3_change_detector_exact env_demo out_steady w_demo)
              (Some "203.0.113.5") R E) as (_ & _ & SAME).
  destruct SAME as (_ & NONE & _); [discriminate | reflexivity |].
  split; [exact R |]. split; [reflexivity | exact NONE].
Defined.

(** Against C4 as written: the lookup request fails, nothing was reported
    about matching records, and a create is issued all the same. *)
Lemma C4_counterexample :
  ~ create_exactly_on_zero_matches env_demo out_lookup_fails "A" "203.0.113.5" w_demo.
Proof.
  unfold create_exactly_on_zero_matches. intros [CREATED _].
  destruct CREATED as (d & REPLY & _).
  - vm_compute. auto.
  - discriminate REPLY.
Qed.

(** C4 as the code has it, on a lookup that returns one record. *)
Lemma C4_witness :
  list_reply out_steady (List.length (requests w_demo)) (lookup_request env_demo "A") =
    Fulfilled one_record /\
  record_id_of (list_reply out_steady (List.length (requests w_demo))
                  (lookup_request env_demo "A")) = Some "rec-1".
Proof.
  split; [reflexivity |].
  destruct (C4_upsert_is_lookup_then_write env_demo out_steady "A" "203.0.113.5" w_demo)
    as (_ & _ & _ & FIRST & _).
  apply (FIRST one_record (mkRecordInfo "rec-1") []); try reflexivity. discriminate.
Defined.

(** C5 where [log] is not a directory: the error of [fs.writeFileSync]
    reaches the caller of [appendToLogFile]. *)
Lemma C5_witness :
  log_dir w_blocked = true /\ log_file w_blocked = None /\
  disk_blocked w_blocked WriteFileSync = Some ENOTDIR /\
  Fallible.appendToLogFile disk_blocked out_steady "INFO" [("message", JStr "hello")]
    w_blocked =
  (Thrown (SystemError ENOTDIR), w_blocked).
Proof.
  split; [reflexivity |]. split; [reflexivity |]. split; [reflexivity |].
  destruct (C5_append_raises_what_ensureLogFile_raises disk_blocked out_steady "INFO"
              [("message", JStr "hello")] w_blocked) as (_ & RAISES & _).
  apply RAISES; reflexivity.
Defined.

(** C6 with the default retry count and an unreachable echo service. *)
Lemma C6_witness :
  (0 < ipFetchRetryCount env_demo)%Z /\
  every_attempt_fails env_demo out_unreachable 4 w_demo /\
  exhausted_resolution env_demo out_unreachable 4 (monitorIPv4 env_demo out_unreachable) w_demo.
Proof.
  assert (P : (0 < ipFetchRetryCount env_demo)%Z) by reflexivity.
  assert (F : every_attempt_fails env_demo out_unreachable 4 w_demo).
  { intros k _. do 2 eexists. reflexivity. }
  split; [exact P |]. split; [exact F |].
  exact (proj1 (C6_exhausted_retries env_demo out_unreachable w_demo P) F).
Defined.



(** C10 on the log file [{}]. *)
Lemma C10_witness :
  log_file w_bare = Some (Document (JObj [])) /\
  logs_array (JObj []) = None /\
  outcome (appendToLogFile out_steady "INFO" [("message", JStr "hello")]) w_bare = Done tt /\
  log_file (after (appendToLogFile out_steady "INFO" [("message", JStr "hello")]) w_bare) =
    Some (Document (JObj [])).
Proof.
  split; [reflexivity |]. split; [reflexivity |].
  destruct (C10_document_without_logs_is_kept out_steady "INFO" [("message", JStr "hello")]
              w_bare (JObj []) eq_refl eq_refl) as (O & F & _).
  split; [exact O | exact F].
Defined.

(* ================================================================== *)
(** ** Further properties of the code                                  *)
(* ================================================================== *)

(* ------------------------------------------------------------------ *)
(** *** The log file on first use                                      *)
(* ------------------------------------------------------------------ *)

(** X1: [ensureLogFile] on a file system whose calls can throw.  It
    throws exactly when the directory is missing and [mkdirSync] fails, or
    the file is missing and [writeFileSync] fails (after the directory was
    created, if that was needed); it never ends the process.  When it
    returns, the directory and a file are in place: a file that was there
    is left as it is, even when it does not parse, and a missing one is
    created as [{ metadata: {}, logs: [] }].  Nothing else changes.  Once
    both are in place a call has no effect and cannot throw, whatever the
    file system does. *)
Theorem X1_ensureLogFile_creates_once :
  forall disk w,
    let run := Fallible.ensureLogFile disk in
    let w1 := after run w in
    let made := if log_dir w then w else set_log_dir true w in
    ((exists e, outcome run w = Thrown e) <->
     (log_dir w = false /\ disk w MkdirSync <> None) \/
     ((log_dir w = false -> disk w MkdirSync = None) /\
      log_file w = None /\ disk made WriteFileSync <> None)) /\
    (forall c, outcome run w <> Exited c) /\
    (outcome run w = Done tt ->
     log_store_present w1 /\
     log_file w1 = Some (match log_file w with
                         | Some content => content
                         | None => Document emptyDocument
                         end) /\
     same_net w w1 /\ console w1 = console w /\ clock_reads w1 = clock_reads w) /\
    (log_store_present w -> forall disk', Fallible.ensureLogFile disk' w = (Done tt, w)).
Proof.
  intros disk w. cbv zeta. unfold outcome, after.
  split; [| split; [| split]].
  - destruct (ensureLogFile_cases disk w)
      as [(w1 & E & _ & _ & _ & D1 & F1) | [(m & D & K & E) | (m & F & K & W & E)]];
      rewrite E; cbn [fst].
    + split; [intros (e & H); discriminate |].
      revert E.
      unfold Fallible.ensureLogFile, Fallible.existsLogDirectory, Fallible.mkdirLogDirectory,
        Fallible.writeLogFile, Fallible.fs_call, existsLogFile, writeLogFile, bind, ret.
      intros E [(D & K) | (K & F & W)].
      * rewrite D in E. destruct (disk w MkdirSync); [discriminate | contradiction].
      * destruct (log_dir w) eqn:D.
        -- rewrite F in E. destruct (disk w WriteFileSync); [discriminate | contradiction].
        -- rewrite (K eq_refl) in E. cbn [log_file set_log_dir] in E. rewrite F in E.
           destruct (disk _ WriteFileSync); [discriminate | contradiction].
    + split; [| eauto]. intros _. left. split; [assumption | congruence].
    + split; [| eauto]. intros _. right. split; [assumption |]. split; [assumption | congruence].
  - intros c.
    destruct (ensureLogFile_cases disk w)
      as [(w1 & E & _) | [(m & _ & _ & E) | (m & _ & _ & _ & E)]];
      rewrite E; discriminate.
  - destruct (ensureLogFile_cases disk w)
      as [(w1 & E & N1 & C1 & K1 & D1 & F1) | [(m & _ & _ & E) | (m & _ & _ & _ & E)]];
      rewrite E; cbn [fst snd]; try discriminate.
    intros _. split; [split; [assumption | rewrite F1; discriminate] |]. auto.
  - intros P disk'. now apply ensureLogFile_present.
Qed.

(** X1 where [log] is not a directory. *)
Lemma X1_witness :
  ((log_dir w_blocked = false -> disk_blocked w_blocked MkdirSync = None) /\
   log_file w_blocked = None /\
   disk_blocked (if log_dir w_blocked then w_blocked else set_log_dir true w_blocked)
     WriteFileSync <> None) /\
  exists e, outcome (Fallible.ensureLogFile disk_blocked) w_blocked = Thrown e.
Proof.
  assert (H : (log_dir w_blocked = false -> disk_blocked w_blocked MkdirSync = None) /\
              log_file w_blocked = None /\
              disk_blocked (if log_dir w_blocked then w_blocked
                            else set_log_dir true w_blocked) WriteFileSync <> None).
  { split; [reflexivity |]. split; [reflexivity | discriminate]. }
  split; [exact H |].
  apply (X1_ensureLogFile_creates_once disk_blocked w_blocked). right. exact H.
Defined.

(* ------------------------------------------------------------------ *)
(** *** The configuration check                                        *)
(* ------------------------------------------------------------------ *)

Lemma missingEnvVars_nil env :
  missingEnvVars env = [] <->
  forall key, In key requiredEnvVars -> exists s, env key = Some s /\ s <> EmptyString.
Proof.
  split.
  - intros E key K.
    destruct (env key) as [s |] eqn:V.
    + exists s. split; [reflexivity |]. intros ->.
      assert (I : In key (missingEnvVars env)) by (apply missingEnvVars_spec; auto).
      rewrite E in I. contradiction.
    + assert (I : In key (missingEnvVars env)) by (apply missingEnvVars_spec; auto).
      rewrite E in I. contradiction.
  - intros H. destruct (missingEnvVars env) as [| key rest] eqn:E; [reflexivity |].
    assert (I : In key (missingEnvVars env)) by (rewrite E; now left).
    apply missingEnvVars_spec in I. destruct I as (K & V).
    destruct (H key K) as (s & S & N). destruct V as [V | V]; congruence.
Qed.

(** X2: [ensureRequiredEnvVars] has no effect at all and returns when
    CF_ZONE_ID, CF_API_TOKEN and CF_DNS_NAME are all set to non-empty
    strings.  In every other configuration it first prints the message on
    the error stream and then ends as the [ensureLogFile] of its log entry
    does: with exit status 1 when that returns, which it does whenever the
    log directory and file are in place, and with the error of the file
    system when that throws, in which case [process.exit] is not
    reached. *)
Theorem X2_configuration_check_is_exact :
  forall disk env out w,
    let run := Fallible.ensureRequiredEnvVars disk env out in
    let printed := push_console (mkLine StdError [JStr (missing_message env)]) w in
    (missingEnvVars env = [] <->
     forall key, In key requiredEnvVars -> exists s, env key = Some s /\ s <> EmptyString) /\
    (missingEnvVars env = [] -> run w = (Done tt, w)) /\
    (missingEnvVars env <> [] ->
     outcome run w =
       after_ensure (outcome (Fallible.ensureLogFile disk) printed) (Exited 1) /\
     (exists more,
         console (after run w) =
         (console w ++ mkLine StdError [JStr (missing_message env)] :: more)%list) /\
     same_net w (after run w)) /\
    (missingEnvVars env <> [] -> log_store_present w -> outcome run w = Exited 1).
Proof.
  intros disk env out w. cbv zeta.
  split; [apply missingEnvVars_nil |]. split.
  { intros E. unfold Fallible.ensureRequiredEnvVars. rewrite E. reflexivity. }
  assert (MAIN : missingEnvVars env <> [] ->
            wp (Fallible.ensureRequiredEnvVars disk env out)
               (fun r w' =>
                  r = after_ensure
                        (outcome (Fallible.ensureLogFile disk)
                           (push_console (mkLine StdError [JStr (missing_message env)]) w))
                        (Exited 1) /\
                  (exists more,
                      console w' =
                      (console w ++ mkLine StdError [JStr (missing_message env)] :: more)%list) /\
                  same_net w w') w).
  { intros N.
    assert (L : (0 <? List.length (missingEnvVars env))%nat = true).
    { destruct (missingEnvVars env); [contradiction | reflexivity]. }
    unfold Fallible.ensureRequiredEnvVars. rewrite L. wp_go.
    unfold Fallible.appendToLogFile.
    eapply wp_mono; [apply appendToLogFile_in_fallible |]. cbv beta.
    intros r w1 (N1 & _ & _ & (more & C1) & ->). world_simpl.
    assert (C : exists more0,
               console w1 =
               (console w ++ mkLine StdError [JStr (missing_message env)] :: more0)%list).
    { exists more. rewrite C1, <- app_assoc. reflexivity. }
    destruct (outcome (Fallible.ensureLogFile disk) _) as [[] | e | c];
      cbn [after_ensure]; wp_go; (split; [reflexivity |]); (split; [exact C | net_solve]). }
  split; [exact MAIN |].
  intros N (D & F). destruct (MAIN N) as (O & _). rewrite O.
  unfold outcome at 1. rewrite ensureLogFile_present by (split; world_simpl; assumption).
  reflexivity.
Qed.

(** X2 on two configurations: a complete one, and one without the token
    where the log file cannot be created. *)
Lemma X2_witness :
  Fallible.ensureRequiredEnvVars disk_blocked env_demo out_steady w_blocked =
    (Done tt, w_blocked) /\
  outcome (Fallible.ensureRequiredEnvVars disk_blocked env_no_token out_steady) w_blocked =
    Thrown (SystemError ENOTDIR).
Proof.
  destruct (X2_configuration_check_is_exact disk_blocked env_demo out_steady w_blocked)
    as (_ & OK & _).
  destruct (X2_configuration_check_is_exact disk_blocked env_no_token out_steady w_blocked)
    as (_ & _ & KO & _).
  split; [apply OK; reflexivity |].
  destruct KO as (O & _); [discriminate |]. rewrite O. reflexivity.
Defined.

(* ------------------------------------------------------------------ *)
(** *** The shape of a log entry                                       *)
(* ------------------------------------------------------------------ *)

Lemma field_absent k (o : obj) : field k o = None <-> ~ In k (map fst o).
Proof.
  induction o as [| [k' v'] o IH]; simpl.
  - split; auto.
  - destruct (String.eqb_spec k' k) as [-> | N].
    + split; [discriminate | intros H; exfalso; auto].
    + rewrite IH. split; [intros H [E | I]; auto | auto].
Qed.

Lemma spread_cons base k v more :
  spread base ((k, v) :: more) = spread (set_field k v base) more.
Proof. reflexivity. Qed.

Lemma field_spread_absent k more : forall base,
  ~ In k (map fst more) -> field k (spread base more) = field k base.
Proof.
  induction more as [| [k' v'] more IH]; intros base N; [reflexivity |].
  rewrite spread_cons, IH by (simpl in N; auto).
  apply field_set_other. simpl in N. auto.
Qed.

Lemma field_spread_present k v more : forall base,
  NoDup (map fst more) -> In (k, v) more -> field k (spread base more) = Some v.
Proof.
  induction more as [| [k' v'] more IH]; intros base D I; [contradiction |].
  rewrite spread_cons. simpl in D. inversion D as [| ? ? NI D']; subst.
  destruct I as [E | I].
  - injection E as -> ->. rewrite field_spread_absent by assumption.
    apply field_set_same.
  - now apply IH.
Qed.

(** X3: the entry [{ timestamp, level, ...data }].  When [data] has no
    key [level] (resp. [timestamp]) the entry carries the level (resp. the
    timestamp) given by the call; a key that [data] does have is found in
    the entry with the value [data] gives it, so a [level] or [timestamp]
    inside [data] replaces the one of the call (keys of [data] distinct). *)
Theorem X3_entry_fields :
  forall timestamp level data,
    (~ In "level" (map fst data) ->
     level_of (make_entry timestamp level data) = Some (JStr level)) /\
    (~ In "timestamp" (map fst data) ->
     get_prop (Some (make_entry timestamp level data)) "timestamp" =
     Done (Some (JStr timestamp))) /\
    (NoDup (map fst data) ->
     forall k v, In (k, v) data ->
       get_prop (Some (make_entry timestamp level data)) k = Done (Some v)).
Proof.
  intros timestamp level data. unfold make_entry, level_of. cbn [get_prop].
  split; [| split].
  - intros N. now rewrite field_spread_absent.
  - intros N. now rewrite field_spread_absent.
  - intros D k v I. now rewrite (field_spread_present k v).
Qed.

(** X3 on the entry of a failed resolution. *)
Lemma X3_witness :
  level_of (make_entry "2025-01-01T00:00:00Z" "ERROR"
              [("message", JStr "failed"); ("ipVersion", JNum 4)]) = Some (JStr "ERROR") /\
  get_prop (Some (make_entry "2025-01-01T00:00:00Z" "ERROR"
                    [("message", JStr "failed"); ("ipVersion", JNum 4)])) "ipVersion" =
  Done (Some (JNum 4)).
Proof.
  destruct (X3_entry_fields "2025-01-01T00:00:00Z" "ERROR"
              [("message", JStr "failed"); ("ipVersion", JNum 4)]) as (L & _ & F).
  split.
  - apply L. simpl. intros [H | [H | []]]; discriminate.
  - apply F; [| simpl; auto].
    simpl. repeat constructor; simpl; intuition discriminate.
Defined.

(* ------------------------------------------------------------------ *)
(** *** Appending to a usable log                                      *)
(* ------------------------------------------------------------------ *)

Lemma appendToLogFile_ready_exact out level data w :
  log_ready w = true ->
  wp (appendToLogFile out level data)
     (fun r w' =>
        r = Done tt /\
        same_net w w' /\
        console w' = console w /\
        clock_reads w' = (clock_reads w + 3)%nat /\
        log_ready w' = true /\
        log_entries w' =
          (log_entries w ++ [make_entry (clock out (S (clock_reads w))) level data])%list /\
        (metadata_is_object w = true ->
         last_updated w' = Some (JStr (clock out (S (S (clock_reads w))))))) w.
Proof.
  intros R. unfold appendToLogFile. simpl appendToLogFile_in.
  wp_step. apply wp_ensureLogFile. intros w1 N1 C1 K1 F1.
  wp_go. rewrite F1. wp_go. rewrite F1.
  unfold log_ready in R. unfold log_entries, metadata_is_object, last_updated.
  destruct (log_file w) as [[j | raw why] |]; try discriminate; simpl JSON_parse;
    do 2 wp_step; unfold push_log, touch_metadata.
  - destruct j as [| | | | | fields]; try discriminate.
    destruct (field "logs" fields) as [[| | | | items |] |] eqn:L; try discriminate.
    destruct (field "metadata" fields) as [m |] eqn:Md; try discriminate.
    wp_go. simpl get_prop. rewrite L. wp_go. simpl get_prop. wp_go.
    simpl get_prop. rewrite (field_set_other "logs" "metadata") by discriminate.
    rewrite Md. wp_go.
    destruct m as [| b | n | s | ms | m]; try discriminate; wp_go;
      (split; [reflexivity |]); (split; [net_solve |]);
      (split; [assumption |]); (split; [rewrite K1; lia |]);
      unfold log_ready, logs_array; world_simpl;
      rewrite ?(field_set_other "metadata" "logs") by discriminate;
      rewrite ?field_set_same;
      rewrite ?(field_set_other "logs" "metadata") by discriminate;
      rewrite ?L, ?Md, ?field_set_same, ?K1;
      (split; [reflexivity |]); (split; [reflexivity |]);
      try discriminate; reflexivity.
  - unfold emptyDocument.
    repeat (wp_go; cbn [get_prop field set_field String.eqb Ascii.eqb Bool.eqb app]).
    split; [reflexivity |]. split; [net_solve |]. split; [assumption |].
    rewrite K1. split; [lia |]. repeat split.
Qed.

(** X4: when the calls of the file system go through and the log is
    usable (no file yet, or a document whose [logs] is an array and whose
    [metadata] is not null), [appendToLogFile] returns normally, prints
    nothing, reads the clock three times, and adds exactly one entry at the
    end of [logs], stamped with the second reading; the entries that were
    there stay, in order, and the log stays usable.  When [metadata] is an
    object its [lastUpdated] becomes the third reading. *)
Theorem X4_append_on_usable_log :
  forall disk out level data w,
    works disk ->
    log_ready w = true ->
    let w' := after (Fallible.appendToLogFile disk out level data) w in
    outcome (Fallible.appendToLogFile disk out level data) w = Done tt /\
    log_entries w' =
      (log_entries w ++ [make_entry (clock out (S (clock_reads w))) level data])%list /\
    log_ready w' = true /\
    (metadata_is_object w = true ->
     last_updated w' = Some (JStr (clock out (S (S (clock_reads w)))))) /\
    clock_reads w' = (clock_reads w + 3)%nat /\
    console w' = console w /\
    same_net w w'.
Proof.
  intros disk out level data w OK R. cbv zeta.
  unfold outcome, after. rewrite (appendToLogFile_works disk out level data w OK).
  destruct (appendToLogFile_ready_exact out level data w R) as (O & N & C & K & R' & E & M).
  repeat split; try assumption; apply N.
Qed.

(** X4 on the first append of a freshly started process. *)
Lemma X4_witness :
  works disk_sound /\ log_ready w_boot = true /\
  log_entries (after (Fallible.appendToLogFile disk_sound out_steady "INFO"
                        [("message", JStr "hello")]) w_boot) =
  [make_entry (clock_demo 1) "INFO" [("message", JStr "hello")]].
Proof.
  assert (OK : works disk_sound) by (intros w c; reflexivity).
  split; [exact OK |]. split; [reflexivity |].
  apply (X4_append_on_usable_log disk_sound out_steady "INFO" [("message", JStr "hello")]
           w_boot OK).
  reflexivity.
Defined.

(** X5: when the document on disk has a [logs] array but no [metadata]
    (or a null one), [appendToLogFile] pushes the entry in memory only: the
    assignment to [metadata.lastUpdated] throws, the error is printed, the
    call returns normally and the file is left as it was, without the
    entry. *)
Theorem X5_append_without_metadata :
  forall out level data w fields items,
    log_file w = Some (Document (JObj fields)) ->
    field "logs" fields = Some (JArr items) ->
    is_nullish (field "metadata" fields) = true ->
    let w' := after (appendToLogFile out level data) w in
    outcome (appendToLogFile out level data) w = Done tt /\
    log_file w' = log_file w /\
    log_entries w' = items /\
    exists reason,
      console w' =
      (console w ++ [mkLine StdError [JStr "ログファイルの更新に失敗しました:"; JStr reason]])%list.
Proof.
  intros out level data w fields items F L M. cbv zeta. to_wp.
  unfold appendToLogFile. simpl appendToLogFile_in.
  wp_step. apply wp_ensureLogFile. intros w1 N1 C1 K1 F1.
  rewrite F in F1.
  wp_go. rewrite F1. wp_go. rewrite F1. simpl JSON_parse. do 2 wp_step.
  unfold push_log, touch_metadata.
  wp_go. simpl get_prop. rewrite L. wp_go. simpl get_prop. wp_go.
  simpl get_prop. rewrite (field_set_other "logs" "metadata") by discriminate.
  assert (E : log_entries w1 = items).
  { unfold log_entries, logs_array. now rewrite F1, L. }
  destruct (field "metadata" fields) as [[| b | n | s | ms | m] |]; try discriminate;
    wp_go; (split; [reflexivity |]); (split; [congruence |]);
    (split; [exact E |]); rewrite C1; eexists; reflexivity.
Qed.

(** X5 on the document [{ logs: [] }]. *)
Lemma X5_witness :
  log_file (mkWorld (mkAddr None None) true (Some (Document (JObj [("logs", JArr [])])))
                    0 [] [] []) =
    Some (Document (JObj [("logs", JArr [])])) /\
  log_file (after (appendToLogFile out_steady "INFO" [("message", JStr "hello")])
              (mkWorld (mkAddr None None) true (Some (Document (JObj [("logs", JArr [])])))
                       0 [] [] [])) =
    Some (Document (JObj [("logs", JArr [])])).
Proof.
  split; [reflexivity |].
  apply (X5_append_without_metadata out_steady "INFO" [("message", JStr "hello")]
           (mkWorld (mkAddr None None) true (Some (Document (JObj [("logs", JArr [])])))
                    0 [] [] [])
           [("logs", JArr [])] []); reflexivity.
Defined.

(** X6: recovery composes.  From a log file that does not parse (and room
    for one nested frame on the stack), a first call leaves a usable
    document holding exactly its entry, and a second call adds its own
    entry after it: two calls leave exactly the two entries, in call
    order. *)
Theorem X6_appends_after_recovery :
  forall out level1 data1 level2 data2 w raw why,
    (1 <= stack_limit out)%nat ->
    log_file w = Some (Unparseable raw why) ->
    let w1 := after (appendToLogFile out level1 data1) w in
    let w2 := after (appendToLogFile out level2 data2) w1 in
    log_ready w1 = true /\
    exists timestamp1,
      log_entries w1 = [make_entry timestamp1 level1 data1] /\
      log_entries w2 =
        [make_entry timestamp1 level1 data1;
         make_entry (clock out (S (clock_reads w1))) level2 data2].
Proof.
  intros out level1 data1 level2 data2 w raw why S1 F. cbv zeta.
  destruct (appendToLogFile_unparseable out level1 data1 w raw why S1 F) as (_ & t & u & E).
  assert (R1 : log_ready (after (appendToLogFile out level1 data1) w) = true).
  { unfold log_ready. rewrite E. reflexivity. }
  assert (E1 : log_entries (after (appendToLogFile out level1 data1) w) =
               [make_entry t level1 data1]).
  { unfold log_entries. rewrite E. reflexivity. }
  split; [exact R1 |]. exists t. split; [exact E1 |].
  destruct (appendToLogFile_ready_exact out level2 data2 _ R1) as (_ & _ & _ & _ & _ & E2 & _).
  rewrite E2, E1. reflexivity.
Qed.

(** X6 on a log file that does not parse. *)
Lemma X6_witness :
  (1 <= stack_limit out_steady)%nat /\
  log_ready (after (appendToLogFile out_steady "INFO" [("message", JStr "one")]) w_corrupt) =
  true.
Proof.
  assert (S1 : (1 <= stack_limit out_steady)%nat) by (simpl; lia).
  split; [exact S1 |].
  apply (X6_appends_after_recovery out_steady "INFO" [("message", JStr "one")]
           "INFO" [("message", JStr "two")] w_corrupt _ _ S1 eq_refl).
Defined.

(* ------------------------------------------------------------------ *)
(** *** The resolver                                                   *)
(* ------------------------------------------------------------------ *)

Lemma resolution_bound out version retryCount : forall fuel attempts n,
  (snd (resolution out fuel version retryCount attempts n) <=
   Z.to_nat (retryCount - attempts))%nat.
Proof.
  induction fuel as [| fuel IH]; intros attempts n; simpl.
  - destruct (attempts <? retryCount)%Z; simpl; lia.
  - destruct (Z.ltb_spec attempts retryCount); simpl; [| lia].
    destruct (echo_reply out n (echo_request version)); simpl; [lia |].
    destruct (Z.geb_spec (attempts + 1) retryCount); simpl; [lia |].
    specialize (IH (attempts + 1)%Z (S n)).
    destruct (resolution out fuel version retryCount (attempts + 1) (S n)). simpl in *. lia.
Qed.

Lemma backoff_waits_cons attempts count :
  (1 <= count)%nat ->
  backoff_waits attempts (S count) =
  Sleep ((attempts + 1) * 1 * 1000)%Z :: backoff_waits (attempts + 1) count.
Proof.
  intros C. unfold backoff_waits.
  replace (S count - 1)%nat with (S (count - 1)) by lia.
  cbn [seq map]. f_equal; [f_equal; lia |].
  rewrite <- seq_shift, map_map. apply map_ext. intros i. f_equal. lia.
Qed.

(** The waits of the retry loop, for any state of the log. *)
Lemma retry_loop_timers out fuel version retryCount : forall attempts w,
  (Z.to_nat (retryCount - attempts) <= fuel)%nat ->
  wp (retry_loop out fuel version retryCount attempts)
     (fun _ w' =>
        timers w' =
        (timers w ++
         backoff_waits attempts
           (snd (resolution out fuel version retryCount attempts
                   (List.length (requests w)))))%list) w.
Proof.
  induction fuel as [| fuel IH]; intros attempts w F; simpl retry_loop; simpl resolution.
  - destruct (Z.ltb_spec attempts retryCount); [lia |].
    wp_go. simpl. now rewrite app_nil_r.
  - destruct (Z.ltb_spec attempts retryCount) as [A |];
      [| wp_go; simpl; now rewrite app_nil_r].
    wp_step. wp_step. apply wp_axios.
    destruct (echo_reply out (List.length (requests w)) (echo_request version))
      as [ip | m rd] eqn:E.
    + wp_go. simpl. now rewrite app_nil_r.
    + wp_go. apply wp_append. intros w1 (A1 & R1 & T1) _. world_simpl.
      destruct (attempts + 1 >=? retryCount)%Z eqn:C2.
      * wp_go. apply wp_append. intros w2 (A2 & R2 & T2) _. world_simpl.
        wp_go. simpl. rewrite app_nil_r. congruence.
      * wp_go.
        eapply wp_mono; [apply IH; lia |]. cbv beta.
        intros r w3 T3. world_simpl.
        rewrite R1, length_app, Nat.add_1_r in T3. simpl List.length in T3.
        pose proof (resolution_counts out fuel version retryCount (attempts + 1)
                      (S (List.length (requests w)))) as C.
        destruct (resolution out fuel version retryCount (attempts + 1)
                    (S (List.length (requests w)))) as [res c].
        simpl snd in *.
        rewrite backoff_waits_cons by (apply C; lia).
        rewrite T3, T1, <- app_assoc. reflexivity.
Qed.

Lemma resolution_first_success out version retryCount ip : forall k fuel attempts n,
  (attempts + Z.of_nat k < retryCount)%Z ->
  (Z.to_nat (retryCount - attempts) <= fuel)%nat ->
  (forall j, (j < k)%nat ->
     exists message response_data,
       echo_reply out (n + j) (echo_request version) = Rejected message response_data) ->
  echo_reply out (n + k) (echo_request version) = Fulfilled ip ->
  resolution out fuel version retryCount attempts n = (Some ip, S k).
Proof.
  induction k as [| k IH]; intros fuel attempts n A F FAIL OK.
  - destruct fuel as [| fuel]; [lia |]. simpl.
    destruct (Z.ltb_spec attempts retryCount); [| lia].
    rewrite Nat.add_0_r in OK. now rewrite OK.
  - destruct fuel as [| fuel]; [lia |]. simpl.
    destruct (Z.ltb_spec attempts retryCount); [| lia].
    destruct (FAIL O ltac:(lia)) as (m & rd & E0). rewrite Nat.add_0_r in E0. rewrite E0.
    destruct (Z.geb_spec (attempts + 1) retryCount); [lia |].
    rewrite (IH fuel (attempts + 1)%Z (S n)); [reflexivity | lia | lia | |].
    + intros j J. replace (S n + j)%nat with (n + S j)%nat by lia. apply FAIL. lia.
    + replace (S n + k)%nat with (n + S k)%nat by lia. exact OK.
Qed.

Lemma resolution_sound out version retryCount : forall fuel attempts n,
  (Z.to_nat (retryCount - attempts) <= fuel)%nat ->
  match resolution out fuel version retryCount attempts n with
  | (Some ip, c) =>
      (1 <= c)%nat /\
      echo_reply out (n + (c - 1)) (echo_request version) = Fulfilled ip /\
      forall j, (j < c - 1)%nat ->
        exists message response_data,
          echo_reply out (n + j) (echo_request version) = Rejected message response_data
  | (None, c) =>
      c = Z.to_nat (retryCount - attempts) /\
      forall j, (j < c)%nat ->
        exists message response_data,
          echo_reply out (n + j) (echo_request version) = Rejected message response_data
  end.
Proof.
  induction fuel as [| fuel IH]; intros attempts n F; simpl.
  - destruct (Z.ltb_spec attempts retryCount); [lia |]. split; [lia | intros j J; lia].
  - destruct (Z.ltb_spec attempts retryCount); [| split; [lia | intros j J; lia]].
    destruct (echo_reply out n (echo_request version)) as [ip | m rd] eqn:E.
    + split; [lia |]. split; [now rewrite Nat.add_0_r | intros j J; lia].
    + destruct (Z.geb_spec (attempts + 1) retryCount).
      * split; [lia |]. intros j J. assert (j = O) by lia. subst j.
        rewrite Nat.add_0_r. eauto.
      * specialize (IH (attempts + 1)%Z (S n) ltac:(lia)).
        pose proof (resolution_counts out fuel version retryCount (attempts + 1) (S n)
                      ltac:(lia) ltac:(lia)) as C.
        destruct (resolution out fuel version retryCount (attempts + 1) (S n)) as [[ip |] c];
          simpl in C.
        -- destruct IH as (_ & OK & FAIL). split; [lia |]. split.
           ++ replace (n + (S c - 1))%nat with (S n + (c - 1))%nat by lia. exact OK.
           ++ intros j J. destruct j as [| j]; [rewrite Nat.add_0_r; eauto |].
              replace (n + S j)%nat with (S n + j)%nat by lia. apply FAIL. lia.
        -- destruct IH as (CNT & FAIL). split; [lia |].
           intros j J. destruct j as [| j]; [rewrite Nat.add_0_r; eauto |].
           replace (n + S j)%nat with (S n + j)%nat by lia. apply FAIL. lia.
Qed.

Lemma fetchPublicIpAddress_with_spec out version retryCount w :
  wp (fetchPublicIpAddress_with out version retryCount)
     (fun r w' =>
        let res := resolution out (Z.to_nat retryCount) version retryCount 0
                     (List.length (requests w)) in
        r = Done (fst res) /\
        addr w' = addr w /\
        requests w' =
          (requests w ++ repeat (mkIssued (echo_request version) (addr w)) (snd res))%list /\
        log_grew w w' (resolution_levels res) /\
        timers w' = (timers w ++ backoff_waits 0 (snd res))%list) w.
Proof.
  unfold fetchPublicIpAddress_with.
  pose proof (retry_loop_spec out (Z.to_nat retryCount) version retryCount 0 w
                ltac:(rewrite Z.sub_0_r; lia)) as S.
  pose proof (retry_loop_timers out (Z.to_nat retryCount) version retryCount 0 w
                ltac:(rewrite Z.sub_0_r; lia)) as T.
  unfold wp in *. cbv zeta in *. destruct S as (O & A & R & G). auto.
Qed.

(** X7: with the log directory and file in place, a call of the resolver
    returns an address or null and leaves the address state alone.  Its
    requests all go to the echo service of the family, each as a GET
    without headers and with a 5000 ms timeout; there are at most
    [retryCount] of them, at least one when [retryCount] is positive, and
    none at all when it is not, in which case null is returned with nothing
    logged. *)
Theorem X7_resolver_requests :
  forall out version retryCount w,
    log_store_present w ->
    let run := fetchPublicIpAddress_with out version retryCount in
    let w' := after run w in
    let count := List.length (issued_since w w') in
    (exists resolved, outcome run w = Done resolved) /\
    addr w' = addr w /\
    issued_since w w' = repeat (mkIssued (echo_request version) (addr w)) count /\
    (count <= Z.to_nat retryCount)%nat /\
    ((0 < retryCount)%Z -> (1 <= count)%nat) /\
    ((retryCount <= 0)%Z ->
     outcome run w = Done None /\ count = 0%nat /\ log_file w' = log_file w) /\
    echo_request version =
      mkRequest GET (if Z.eqb version 6 then IPV6_FETCH_URL else IPV4_FETCH_URL)
                [] [] None (Some 5000%Z).
Proof.
  intros out version retryCount w _ run w' count.
  destruct (fetchPublicIpAddress_with_spec out version retryCount w) as (OUT & A & R & G & T).
  fold run in OUT. fold run w' in A, R, G, T.
  assert (I : issued_since w w' =
              repeat (mkIssued (echo_request version) (addr w))
                (snd (resolution out (Z.to_nat retryCount) version retryCount 0
                        (List.length (requests w))))) by now apply issued_since_app.
  assert (C : count = snd (resolution out (Z.to_nat retryCount) version retryCount 0
                             (List.length (requests w)))).
  { unfold count. now rewrite I, repeat_length. }
  split; [eauto |]. split; [assumption |]. split; [now rewrite C |].
  pose proof (resolution_bound out version retryCount (Z.to_nat retryCount) 0
                (List.length (requests w))) as B.
  rewrite Z.sub_0_r in B.
  split; [rewrite C; exact B |]. split; [| split; [| reflexivity]].
  - intros P. rewrite C. apply resolution_counts; [assumption | rewrite Z.sub_0_r; lia].
  - intros NP. assert (ZR : Z.to_nat retryCount = 0%nat) by lia.
    split; [| split; [lia |]].
    + rewrite OUT, ZR. simpl. destruct (Z.ltb_spec 0 retryCount); [lia | reflexivity].
    + unfold w', run, after, fetchPublicIpAddress_with. rewrite ZR. simpl.
      destruct (Z.ltb_spec 0 retryCount); [lia | reflexivity].
Qed.

(** X7 with the retry count -1, which the configuration accepts. *)
Lemma X7_witness :
  log_store_present w_demo /\ (0 < 3)%Z /\ (-1 <= 0)%Z /\
  outcome (fetchPublicIpAddress_with out_steady 4 (-1)) w_demo = Done None.
Proof.
  assert (P : log_store_present w_demo) by (split; [reflexivity | discriminate]).
  split; [exact P |]. split; [reflexivity |]. split; [discriminate |].
  apply (X7_resolver_requests out_steady 4 (-1) w_demo P). discriminate.
Defined.

(** X8: back-off is linear and happens only between attempts.  A call of
    the resolver that issues [count] requests waits [count - 1] times, the
    i-th time for i seconds (1000 ms, 2000 ms, ...): never before the first
    request and never after the last, whether that one succeeded or
    exhausted the retries.  It sets no other timer. *)
Theorem X8_resolver_backoff :
  forall out version retryCount w,
    let w' := after (fetchPublicIpAddress_with out version retryCount) w in
    let count := List.length (issued_since w w') in
    timers w' = (timers w ++ backoff_waits 0 count)%list /\
    List.length (backoff_waits 0 count) = (count - 1)%nat /\
    forall i, (i < count - 1)%nat ->
      nth_error (backoff_waits 0 count) i = Some (Sleep (1000 * (Z.of_nat i + 1))%Z).
Proof.
  intros out version retryCount w w' count.
  destruct (fetchPublicIpAddress_with_spec out version retryCount w) as (O & A & R & G & T).
  fold w' in A, R, G, T.
  assert (C : count = snd (resolution out (Z.to_nat retryCount) version retryCount 0
                             (List.length (requests w)))).
  { unfold count. now rewrite (issued_since_app _ _ _ R), repeat_length. }
  split; [now rewrite C |]. unfold backoff_waits.
  split; [now rewrite length_map, length_seq |].
  intros i I. rewrite nth_error_map, nth_error_seq.
  destruct (Nat.ltb_spec i (count - 1)); [| lia]. cbn [option_map].
  apply f_equal, f_equal. lia.
Qed.

(** X8 with three failing attempts: waits of 1 s and 2 s. *)
Lemma X8_witness :
  timers (after (fetchPublicIpAddress_with out_unreachable 4 3) w_demo) =
  [Sleep 1000; Sleep 2000].
Proof.
  destruct (X8_resolver_backoff out_unreachable 4 3 w_demo) as (T & _ & _).
  exact T.
Defined.

(** X9: the resolver returns the address of the first attempt that
    succeeds, and stops there.  If the first [k] requests fail and the next
    one is answered, with [k] below the retry count, the call returns that
    answer after exactly [k + 1] requests, and on a usable log it has
    appended [k] WARN entries and no ERROR entry.  Conversely an address is
    only ever returned as the answer to the last request issued, all
    earlier ones having failed, and null is only returned after
    [retryCount] requests (none, when that is not positive) that all
    failed. *)
Theorem X9_resolver_first_success :
  forall out version retryCount w,
    let run := fetchPublicIpAddress_with out version retryCount in
    let w' := after run w in
    let n := List.length (requests w) in
    let count := List.length (issued_since w w') in
    let failed j :=
      exists message response_data,
        echo_reply out (n + j) (echo_request version) = Rejected message response_data in
    (forall k ip,
        (Z.of_nat k < retryCount)%Z ->
        (forall j, (j < k)%nat -> failed j) ->
        echo_reply out (n + k) (echo_request version) = Fulfilled ip ->
        outcome run w = Done (Some ip) /\ count = S k /\
        log_grew w w' (repeat (Some (JStr "WARN")) k)) /\
    (forall ip,
        outcome run w = Done (Some ip) ->
        (1 <= count)%nat /\
        echo_reply out (n + (count - 1)) (echo_request version) = Fulfilled ip /\
        forall j, (j < count - 1)%nat -> failed j) /\
    (outcome run w = Done None ->
     count = Z.to_nat retryCount /\ forall j, (j < count)%nat -> failed j).
Proof.
  intros out version retryCount w run w' n count failed.
  destruct (fetchPublicIpAddress_with_spec out version retryCount w) as (OUT & A & R & G & T).
  fold run in OUT. fold run w' in A, R, G, T. fold n in OUT, R, G, T.
  assert (C : count = snd (resolution out (Z.to_nat retryCount) version retryCount 0 n)).
  { unfold count. now rewrite (issued_since_app _ _ _ R), repeat_length. }
  pose proof (resolution_sound out version retryCount (Z.to_nat retryCount) 0 n
                ltac:(rewrite Z.sub_0_r; lia)) as SOUND.
  split; [| split].
  - intros k ip K FAIL OK.
    assert (RES : resolution out (Z.to_nat retryCount) version retryCount 0 n =
                  (Some ip, S k)).
    { apply resolution_first_success; try assumption; rewrite ?Z.sub_0_r; lia. }
    rewrite RES in *. simpl in G. rewrite Nat.sub_0_r in G. auto.
  - intros ip RES. rewrite OUT in RES. injection RES as RES.
    destruct (resolution out (Z.to_nat retryCount) version retryCount 0 n) as [r c].
    simpl in *. subst r c. exact SOUND.
  - intros RES. rewrite OUT in RES. injection RES as RES.
    destruct (resolution out (Z.to_nat retryCount) version retryCount 0 n) as [r c].
    simpl in *. subst r c. rewrite Z.sub_0_r in SOUND. exact SOUND.
Qed.

(** X9 with an echo service that answers at once. *)
Lemma X9_witness :
  (Z.of_nat 0 < 3)%Z /\
  echo_reply out_steady (List.length (requests w_demo) + 0) (echo_request 4) =
    Fulfilled "203.0.113.5" /\
  outcome (fetchPublicIpAddress_with out_steady 4 3) w_demo = Done (Some "203.0.113.5").
Proof.
  split; [reflexivity |]. split; [reflexivity |].
  apply (proj1 (X9_resolver_first_success out_steady 4 3 w_demo) 0%nat "203.0.113.5").
  - reflexivity.
  - intros j J. inversion J.
  - reflexivity.
Defined.

(* ------------------------------------------------------------------ *)
(** *** What the record store client writes to the log                 *)
(* ------------------------------------------------------------------ *)

(** A final [appendToLogFile] after a stretch from [w0] to [wa] that grew
    the log by [levels]; the call itself starts in [wb], which has the log
    file of [wa]. *)
Lemma wp_append_last out level data levels w0 wa wb
      (Q : Outcome unit -> World -> Prop) :
  log_grew w0 wa levels ->
  log_file wb = log_file wa ->
  (forall t, level_of (make_entry t level data) = Some (JStr level)) ->
  (forall w', same_net wb w' -> log_grew w0 w' (levels ++ [Some (JStr level)]) ->
              Q (Done tt) w') ->
  wp (appendToLogFile out level data) Q wb.
Proof.
  intros G F LV H. apply wp_append. intros w' N L. apply H; [assumption |].
  eapply (log_grew_snoc w0 wa wb w'); eassumption.
Qed.

Lemma createDnsRecord_levels env out type ipAddress w :
  wp (createDnsRecord env out type ipAddress)
     (fun r w' =>
        let reply := write_reply out (List.length (requests w))
                       (create_request env type ipAddress) in
        r = Done tt /\
        addr w' = addr w /\
        timers w' = timers w /\
        requests w' =
          (requests w ++ [mkIssued (create_request env type ipAddress) (addr w)])%list /\
        log_grew w w' [write_level reply]) w.
Proof.
  unfold createDnsRecord. wp_step. wp_step. apply wp_axios. cbv zeta. unfold write_level.
  destruct (write_reply out _ _) as [d | m rd]; [destruct (write_success d) |];
    wp_go;
    (eapply (wp_append_last out _ _ [] w w);
     [ now apply log_grew_same | reflexivity | intro; reflexivity |]);
    intros w1 (A1 & R1 & T1) G1; world_simpl; wp_go;
    (split; [reflexivity |]); (split; [congruence |]); (split; [congruence |]);
    (split; [congruence | exact G1]).
Qed.

Lemma fetchDnsRecordId_levels env out type w :
  wp (fetchDnsRecordId env out type)
     (fun r w' =>
        let reply := list_reply out (List.length (requests w)) (lookup_request env type) in
        (exists recordId,
            r = Done recordId /\
            (if truthy_str recordId then recordId else None) = record_id_of reply) /\
        addr w' = addr w /\
        timers w' = timers w /\
        requests w' = (requests w ++ [mkIssued (lookup_request env type) (addr w)])%list /\
        log_grew w w' (match reply with
                       | Rejected _ _ => [Some (JStr "ERROR")]
                       | Fulfilled _ => []
                       end)) w.
Proof.
  unfold fetchDnsRecordId. wp_step. wp_step. apply wp_axios.
  destruct (list_reply out (List.length (requests w)) (lookup_request env type))
    as [d | m rd] eqn:E; cbv zeta.
  - destruct d as [ok res]. simpl list_success. simpl result.
    destruct ok; simpl andb.
    + destruct res as [| first rest]; simpl; wp_go.
      * repeat (split; [auto using log_grew_same |]); [eexists; split; reflexivity |].
        now apply log_grew_same.
      * split; [| repeat (split; [reflexivity |]); now apply log_grew_same].
        eexists; split; [reflexivity |].
        simpl. destruct (String.eqb (id first) EmptyString); reflexivity.
    + wp_go. split; [eexists; split; reflexivity |].
      repeat (split; [reflexivity |]). now apply log_grew_same.
  - wp_go.
    eapply (wp_append_last out _ _ [] w w);
      [ now apply log_grew_same | reflexivity | |].
    + intro t. unfold cloudflareDnsName. destruct (env "CF_DNS_NAME"); reflexivity.
    + intros w1 (A1 & R1 & T1) G1. world_simpl. wp_go.
      split; [eexists; split; reflexivity |].
      split; [congruence |]. split; [congruence |]. split; [congruence | exact G1].
Qed.

Lemma updateDnsRecord_levels env out type ipAddress w :
  wp (updateDnsRecord env out type ipAddress)
     (fun r w' =>
        let n := List.length (requests w) in
        let lookup := list_reply out n (lookup_request env type) in
        let write := write_reply out (S n)
                       (write_request env (record_id_of lookup) type ipAddress) in
        r = Done tt /\
        addr w' = addr w /\
        timers w' = timers w /\
        requests w' = (requests w ++ upsert_requests env lookup type ipAddress (addr w))%list /\
        log_grew w w' (upsert_levels lookup write)) w.
Proof.
  unfold updateDnsRecord. wp_step.
  eapply wp_mono; [apply fetchDnsRecordId_levels |]. cbv beta zeta.
  intros r w1 ((recordId & -> & ID) & A1 & T1 & R1 & G1).
  assert (N1 : List.length (requests w1) = S (List.length (requests w))).
  { rewrite R1, length_app. simpl. lia. }
  unfold upsert_requests, upsert_levels. rewrite <- ID.
  set (L1 := match list_reply out _ _ with Rejected _ _ => _ | Fulfilled _ => _ end) in *.
  destruct (truthy_str recordId) eqn:TR; cbn [negb].
  - destruct recordId as [i |]; [| discriminate]. cbn [tmpl write_request app].
    wp_step. wp_step. apply wp_axios. rewrite N1. unfold write_level.
    destruct (write_reply out _ _) as [d | m rd]; [destruct (write_success d) |];
      wp_go;
      (eapply (wp_append_last out _ _ L1 w w1);
       [ exact G1 | reflexivity | intro; reflexivity |]);
      intros w2 (A2 & R2 & T2) G2; world_simpl; wp_go;
      (split; [reflexivity |]); (split; [congruence |]); (split; [congruence |]);
      (split; [rewrite R2, R1, A1, <- app_assoc; reflexivity | exact G2]).
  - cbn [write_request]. wp_step.
    eapply (wp_append_last out _ _ L1 w w1); [exact G1 | reflexivity | |].
    + intro t. unfold cloudflareDnsName. destruct (env "CF_DNS_NAME"); reflexivity.
    + intros w2 (A2 & R2 & T2) G2. wp_go.
      eapply wp_mono; [apply createDnsRecord_levels |]. cbv beta zeta.
      intros r w3 (-> & A3 & T3 & R3 & G3). world_simpl.
      rewrite R2, N1 in G3.
      split; [reflexivity |]. split; [congruence |]. split; [congruence |]. split.
      * rewrite R3, R2, R1, A2, A1, <- app_assoc. reflexivity.
      * rewrite app_assoc. eapply log_grew_trans; [| exact G3].
        eapply log_grew_file; [exact G2 | reflexivity].
Qed.

(** X10: with the log directory and file in place, [createDnsRecord]
    returns normally whatever the provider answers.  It issues exactly one
    request, the POST of the complete record with a 10000 ms timeout,
    leaves the address state and the timers alone, and on a usable log
    appends exactly one entry: INFO when the provider reports success,
    ERROR when it reports failure or the request itself fails. *)
Theorem X10_createDnsRecord_reports_once :
  forall env out type ipAddress w,
    log_store_present w ->
    let w' := after (createDnsRecord env out type ipAddress) w in
    let reply := write_reply out (List.length (requests w))
                   (create_request env type ipAddress) in
    outcome (createDnsRecord env out type ipAddress) w = Done tt /\
    issued_since w w' = [mkIssued (create_request env type ipAddress) (addr w)] /\
    create_request env type ipAddress =
      mkRequest POST (dns_records_url env)
        [("Content-Type", "application/json");
         ("Authorization", ("Bearer " ++ tmpl (cloudflareApiToken env))%string)]
        [] (Some (record_body env type ipAddress)) (Some 10000%Z) /\
    addr w' = addr w /\
    timers w' = timers w /\
    log_grew w w' [write_level reply] /\
    (write_level reply = Some (JStr "INFO") <->
     exists d, reply = Fulfilled d /\ write_success d = true).
Proof.
  intros env out type ipAddress w _ w' reply.
  destruct (createDnsRecord_levels env out type ipAddress w) as (O & A & T & R & G).
  split; [assumption |]. split; [now apply issued_since_app |]. split; [reflexivity |].
  split; [assumption |]. split; [assumption |]. split; [assumption |].
  unfold write_level. destruct reply as [d | m rd].
  - destruct (write_success d) eqn:S.
    + split; [eauto | reflexivity].
    + split; [discriminate | intros (d' & E & S'); congruence].
  - split; [discriminate | intros (d' & E & _); discriminate].
Qed.

(** X10 on a provider that accepts the record. *)
Lemma X10_witness :
  log_store_present w_demo /\ log_ready w_demo = true /\
  log_ready (after (createDnsRecord env_demo out_steady "A" "203.0.113.5") w_demo) = true.
Proof.
  assert (P : log_store_present w_demo) by (split; [reflexivity | discriminate]).
  split; [exact P |]. split; [reflexivity |].
  destruct (X10_createDnsRecord_reports_once env_demo out_steady "A" "203.0.113.5" w_demo P)
    as (_ & _ & _ & _ & _ & G & _).
  apply G. reflexivity.
Defined.

(** X11: what an upsert writes to a usable log follows from the two
    replies it got.  It appends an ERROR entry when the lookup request
    failed, then a WARN entry when no record id came out of the lookup (so
    that a create is attempted), then one entry for the write: INFO when
    the provider reports success, ERROR otherwise.  So every upsert appends
    between one and three entries, the last one is the outcome of the
    write, and nothing else of the log changes.  The address state and the
    timers are left alone. *)
Theorem X11_upsert_log_entries :
  forall env out type ipAddress w,
    let w' := after (updateDnsRecord env out type ipAddress) w in
    let n := List.length (requests w) in
    let lookup := list_reply out n (lookup_request env type) in
    let write := write_reply out (S n)
                   (write_request env (record_id_of lookup) type ipAddress) in
    log_grew w w' (upsert_levels lookup write) /\
    (1 <= List.length (upsert_levels lookup write) <= 3)%nat /\
    last (upsert_levels lookup write) None = write_level write /\
    addr w' = addr w /\
    timers w' = timers w.
Proof.
  intros env out type ipAddress w w' n lookup write.
  destruct (updateDnsRecord_levels env out type ipAddress w) as (O & A & T & R & G).
  split; [assumption |]. split; [| split; [| split; assumption]].
  - unfold upsert_levels. destruct lookup; destruct (record_id_of _); simpl; lia.
  - unfold upsert_levels. destruct lookup; destruct (record_id_of _); reflexivity.
Qed.

(** X11 on a provider that cannot be reached for the lookup. *)
Lemma X11_witness :
  log_ready w_demo = true /\
  log_ready (after (updateDnsRecord env_demo out_lookup_fails "A" "203.0.113.5") w_demo) = true.
Proof.
  split; [reflexivity |].
  destruct (X11_upsert_log_entries env_demo out_lookup_fails "A" "203.0.113.5" w_demo)
    as (G & _).
  apply G. reflexivity.
Defined.

(* ------------------------------------------------------------------ *)
(** *** The whole cycle                                                *)
(* ------------------------------------------------------------------ *)

Lemma fetchPublicIpAddress_full env out version w :
  wp (fetchPublicIpAddress env out version)
     (fun r w' =>
        let res := resolution out (Z.to_nat (ipFetchRetryCount env)) version
                     (ipFetchRetryCount env) 0 (List.length (requests w)) in
        r = Done (fst res) /\
        addr w' = addr w /\
        requests w' =
          (requests w ++ repeat (mkIssued (echo_request version) (addr w)) (snd res))%list /\
        log_grew w w' (resolution_levels res) /\
        timers w' = (timers w ++ backoff_waits 0 (snd res))%list) w.
Proof. apply fetchPublicIpAddress_with_spec. Qed.

(** Both halves of a cycle, again by one script. *)
Ltac half_cycle_full env out w :=
  wp_step;
  eapply wp_mono; [apply fetchPublicIpAddress_full |]; cbv beta zeta;
  let r := fresh "r" in
  let w1 := fresh "w1" in
  let A1 := fresh "A1" in
  let R1 := fresh "R1" in
  let G1 := fresh "G1" in
  let T1 := fresh "T1" in
  intros r w1 (-> & A1 & R1 & G1 & T1);
  unfold half_cycle_effects, shouldSync; cbv zeta;
  let res := fresh "res" in
  set (res := resolution out _ _ _ 0%Z _) in *;
  destruct (truthy_str (fst res)) eqn:?;
  [ wp_go; rewrite A1;
    match goal with
    | |- wp (if strict_neq ?a ?b then _ else _) _ _ => destruct (strict_neq a b) eqn:?
    end;
    [ wp_go; eapply wp_mono; [apply updateDnsRecord_levels |]; cbv beta zeta;
      let r2 := fresh "r" in
      let w2 := fresh "w2" in
      let A2 := fresh "A2" in
      let T2 := fresh "T2" in
      let R2 := fresh "R2" in
      let G2 := fresh "G2" in
      intros r2 w2 (-> & A2 & T2 & R2 & G2); world_simpl;
      rewrite R1, length_app, repeat_length in R2;
      rewrite R1, length_app, repeat_length in G2;
      split; [reflexivity |]; split; [exact A2 |]; split; [congruence |]; split;
      [ rewrite R2, <- app_assoc; reflexivity
      | eapply log_grew_trans; [exact G1 |];
        intros READY; apply G2; exact READY ]
    | wp_go;
      eapply (wp_append_last out _ _ _ w w1); [exact G1 | reflexivity | intro; reflexivity |];
      let w2 := fresh "w2" in
      let A2 := fresh "A2" in
      let R2 := fresh "R2" in
      let T2 := fresh "T2" in
      let G2 := fresh "G2" in
      intros w2 (A2 & R2 & T2) G2; world_simpl;
      split; [reflexivity |]; split; [congruence |]; split; [congruence |]; split;
      [ rewrite app_nil_r; congruence | exact G2 ] ]
  | wp_go;
    eapply (wp_append_last out _ _ _ w w1); [exact G1 | reflexivity | intro; reflexivity |];
    let w2 := fresh "w2" in
    let A2 := fresh "A2" in
    let R2 := fresh "R2" in
    let T2 := fresh "T2" in
    let G2 := fresh "G2" in
    intros w2 (A2 & R2 & T2) G2; world_simpl;
    split; [reflexivity |]; split; [congruence |]; split; [congruence |]; split;
    [ rewrite app_nil_r; congruence | exact G2 ] ].

Lemma monitorIPv4_effects env out w :
  wp (monitorIPv4 env out)
     (half_cycle_effects env out 4 "A" currentIPv4
        (fun ip a => mkAddr ip (currentIPv6 a)) w) w.
Proof. unfold monitorIPv4. half_cycle_full env out w. Qed.

Lemma monitorIPv6_effects env out w :
  wp (monitorIPv6 env out)
     (half_cycle_effects env out 6 "AAAA" currentIPv6
        (fun ip a => mkAddr (currentIPv4 a) ip) w) w.
Proof. unfold monitorIPv6. half_cycle_full env out w. Qed.

Lemma resolution_levels_known res : Forall (fun l => In l known_levels) (resolution_levels res).
Proof.
  destruct res as [[ip |] [| c]]; cbn [resolution_levels].
  - apply Forall_repeat. unfold known_levels; simpl; auto.
  - apply Forall_repeat. unfold known_levels; simpl; auto.
  - constructor.
  - apply Forall_app. split.
    + apply Forall_repeat. unfold known_levels; simpl; auto.
    + repeat (apply Forall_cons || apply Forall_nil); unfold known_levels; simpl; auto.
Qed.

Lemma upsert_levels_known lookup write :
  Forall (fun l => In l known_levels) (upsert_levels lookup write).
Proof.
  unfold upsert_levels, write_level.
  destruct lookup as [d | m rd]; destruct (record_id_of _);
    destruct write as [d' | m' rd']; try destruct (write_success d');
    repeat (apply Forall_cons || apply Forall_nil); unfold known_levels; simpl; auto.
Qed.

(** What a half cycle appends: at least one entry, all of known levels. *)
Lemma half_cycle_log env out version type stored commit w r w' :
  half_cycle_effects env out version type stored commit w r w' ->
  exists levels,
    log_grew w w' levels /\ (1 <= List.length levels)%nat /\
    Forall (fun l => In l known_levels) levels.
Proof.
  unfold half_cycle_effects. cbv zeta. intros (_ & _ & _ & _ & G).
  eexists. split; [exact G |]. split.
  - rewrite length_app.
    destruct (shouldSync _ _); [| destruct (truthy_str _); simpl; lia].
    unfold upsert_levels. rewrite !length_app. simpl. lia.
  - apply Forall_app. split; [apply resolution_levels_known |].
    destruct (shouldSync _ _); [apply upsert_levels_known |].
    destruct (truthy_str _); repeat (apply Forall_cons || apply Forall_nil);
      unfold known_levels; simpl; auto.
Qed.

Lemma backoff_waits_sleep attempts count :
  Forall (fun t => exists ms, t = Sleep ms) (backoff_waits attempts count).
Proof. unfold backoff_waits. apply Forall_map, Forall_forall. eauto. Qed.

Lemma map_Forall_levels (added : list json) levels :
  map level_of added = levels ->
  Forall (fun l => In l known_levels) levels ->
  Forall (fun entry => In (level_of entry) known_levels) added.
Proof. intros <- H. now apply Forall_map in H. Qed.

(** X12: with the log directory and file in place, a cycle runs to its
    end whatever the echo service and the provider answer:
    [monitorIpAddress] returns normally.  On a usable log it only appends:
    the entries that were there stay in place, at least one entry is added
    for each enabled family, every added entry is of level INFO, WARN or
    ERROR, and the log is usable afterwards.  The only timers it sets are
    the resolver's waits. *)
Theorem X12_cycle_always_completes :
  forall env out w,
    log_store_present w ->
    let w' := after (monitorIpAddress env out) w in
    outcome (monitorIpAddress env out) w = Done tt /\
    (log_ready w = true ->
     log_ready w' = true /\
     exists added,
       log_entries w' = (log_entries w ++ added)%list /\
       (families env <= List.length added)%nat /\
       Forall (fun entry => In (level_of entry) known_levels) added) /\
    exists waits,
      timers w' = (timers w ++ waits)%list /\
      Forall (fun t => exists ms, t = Sleep ms) waits.
Proof.
  intros env out w _. cbv zeta.
  destruct (monitorIpAddress_halves env out w) as (O & W). rewrite W.
  split; [assumption |].
  pose proof (monitorIPv4_effects env out w) as H4. unfold wp in H4.
  set (w1 := after (monitorIPv4 env out) w) in *.
  pose proof (monitorIPv6_effects env out w1) as H6. unfold wp in H6.
  destruct (half_cycle_log _ _ _ _ _ _ _ _ _ H4) as (L4 & G4 & N4 & K4).
  destruct (half_cycle_log _ _ _ _ _ _ _ _ _ H6) as (L6 & G6 & N6 & K6).
  destruct H4 as (_ & _ & T4 & _). destruct H6 as (_ & _ & T6 & _).
  unfold families. destruct (isIPv6Enabled env).
  - split.
    + intros READY. destruct (G4 READY) as (R1 & a4 & E4 & M4).
      destruct (G6 R1) as (R2 & a6 & E6 & M6).
      split; [assumption |]. exists (a4 ++ a6)%list. split; [| split].
      * now rewrite E6, E4, <- app_assoc.
      * rewrite length_app, <- (length_map level_of a4), <- (length_map level_of a6), M4, M6.
        lia.
      * apply Forall_app. split; eapply map_Forall_levels; eassumption.
    + eexists. split; [rewrite T6, T4, <- app_assoc; reflexivity |].
      apply Forall_app. split; apply backoff_waits_sleep.
  - split.
    + intros READY. destruct (G4 READY) as (R1 & a4 & E4 & M4).
      split; [assumption |]. exists a4. split; [assumption |]. split.
      * rewrite <- (length_map level_of a4), M4. lia.
      * eapply map_Forall_levels; eassumption.
    + eexists. split; [exact T4 | apply backoff_waits_sleep].
Qed.

(** X12 on a cycle that resolves the stored address. *)
Lemma X12_witness :
  log_store_present w_demo /\ log_ready w_demo = true /\
  log_ready (after (monitorIpAddress env_demo out_steady) w_demo) = true.
Proof.
  assert (P : log_store_present w_demo) by (split; [reflexivity | discriminate]).
  split; [exact P |]. split; [reflexivity |].
  apply (X12_cycle_always_completes env_demo out_steady w_demo P). reflexivity.
Defined.

(* ------------------------------------------------------------------ *)
(** *** The address state and the requests of a cycle                  *)
(* ------------------------------------------------------------------ *)

Lemma strict_neq_true a b : strict_neq a b = true -> a <> b.
Proof.
  unfold strict_neq. destruct a as [x |], b as [y |]; try discriminate; try congruence.
  destruct (String.eqb_spec x y); [discriminate | congruence].
Qed.

Lemma truthy_str_true v : truthy_str v = true -> exists s, v = Some s /\ s <> EmptyString.
Proof.
  unfold truthy_str. destruct v as [s |]; [| discriminate].
  destruct (String.eqb_spec s EmptyString); [discriminate | eauto].
Qed.

(** One half of a cycle is one of two things: nothing but the resolver's
    requests, with the address state as it was, or a change to an address
    the echo service returned followed by one upsert. *)
Lemma half_cycle_cases env out version type stored commit w r w' :
  half_cycle_effects env out version type stored commit w r w' ->
  let n := List.length (requests w) in
  let res := resolution out (Z.to_nat (ipFetchRetryCount env)) version
               (ipFetchRetryCount env) 0 n in
  exists echoes,
    echoes = repeat (mkIssued (echo_request version) (addr w)) (snd res) /\
    (snd res <= Z.to_nat (ipFetchRetryCount env))%nat /\
    ((shouldSync (stored (addr w)) (fst res) = false /\
      addr w' = addr w /\
      requests w' = (requests w ++ echoes)%list) \/
     (exists ip lookup,
        shouldSync (stored (addr w)) (fst res) = true /\
        fst res = Some ip /\ ip <> EmptyString /\ Some ip <> stored (addr w) /\
        echo_reply out (n + (snd res - 1)) (echo_request version) = Fulfilled ip /\
        addr w' = commit (Some ip) (addr w) /\
        requests w' =
          (requests w ++ echoes ++
           upsert_requests env lookup type ip (commit (Some ip) (addr w)))%list)).
Proof.
  unfold half_cycle_effects. cbv zeta. intros (_ & A & _ & R & _).
  set (n := List.length (requests w)) in *.
  pose proof (resolution_bound out version (ipFetchRetryCount env)
                (Z.to_nat (ipFetchRetryCount env)) 0 n) as B.
  rewrite Z.sub_0_r in B.
  pose proof (resolution_sound out version (ipFetchRetryCount env)
                (Z.to_nat (ipFetchRetryCount env)) 0 n) as SOUND.
  rewrite Z.sub_0_r in SOUND. specialize (SOUND (Nat.le_refl _)).
  set (res := resolution out _ version _ 0 n) in *.
  eexists. split; [reflexivity |]. split; [exact B |].
  destruct (shouldSync (stored (addr w)) (fst res)) eqn:CH.
  - right. unfold shouldSync in CH.
    destruct (truthy_str (fst res)) eqn:TR; [| discriminate].
    destruct (truthy_str_true _ TR) as (ip & E & NE).
    apply strict_neq_true in CH.
    destruct res as [r0 c]. cbn [fst snd] in *. subst r0.
    destruct SOUND as (_ & OK & _).
    exists ip, (list_reply out (n + c) (lookup_request env type)).
    cbn [tmpl] in R. repeat split; assumption.
  - left. rewrite app_nil_r in R. auto.
Qed.

Lemma known_of_family env version type r :
  family_request env version type r -> known_request env r.
Proof.
  intros [-> | [-> | (i & ip & ->)]]; unfold known_request; eauto 6.
Qed.

Lemma Forall_echoes (P : Issued -> Prop) version a n :
  P (mkIssued (echo_request version) a) ->
  Forall P (repeat (mkIssued (echo_request version) a) n).
Proof. intros H. apply Forall_forall. intros x IN. apply repeat_spec in IN. now subst. Qed.

(** The requests of one half of a cycle. *)
Lemma half_cycle_sent env out version type stored commit w r w' :
  half_cycle_effects env out version type stored commit w r w' ->
  exists sent,
    requests w' = (requests w ++ sent)%list /\
    (List.length sent <= Z.to_nat (ipFetchRetryCount env) + 2)%nat /\
    (List.length (provider_calls sent) <= 2)%nat /\
    (provider_calls sent = [] <->
     shouldSync (stored (addr w)) (half_resolved env out version w) = false) /\
    Forall (fun i => family_request env version type (request i)) sent.
Proof.
  intros H. unfold half_resolved.
  destruct (half_cycle_cases _ _ _ _ _ _ _ _ _ H)
    as (echoes & -> & B & [(CH & A & R) | (ip & lookup & CH & E & NE & D & OK & A & R)]).
  - eexists. split; [exact R |]. rewrite repeat_length, provider_calls_echoes.
    split; [lia |]. split; [simpl; lia |]. split; [tauto |].
    apply Forall_echoes. left. reflexivity.
  - eexists. split; [exact R |].
    rewrite length_app, repeat_length, provider_calls_app, provider_calls_echoes,
      provider_calls_upsert.
    split; [simpl; lia |]. split; [simpl; lia |]. split.
    + rewrite CH. split; discriminate.
    + apply Forall_app. split; [apply Forall_echoes; left; reflexivity |].
      unfold upsert_requests. repeat (apply Forall_cons || apply Forall_nil); cbn [request].
      * right. left. reflexivity.
      * right. right. eauto.
Qed.

(** Every request the program knows is confined: the token goes to the
    zone's records at the provider and nowhere else. *)
Lemma known_request_confined env r : known_request env r -> token_confined env r.
Proof.
  unfold token_confined.
  intros [(version & ->) | [(type & ->) | (recordId & type & ip & ->)]].
  - rewrite echo_is_not_provider. repeat split.
  - rewrite lookup_is_provider. split; [apply prefix_refl |]. left. reflexivity.
  - rewrite write_is_provider. destruct recordId as [i |]; cbn [write_request].
    + split; [apply prefix_app |]. right. left. reflexivity.
    + split; [apply prefix_refl |]. right. left. reflexivity.
Qed.

(** The requests of a whole cycle. *)
Lemma cycle_sent env out w :
  let w' := after (monitorIpAddress env out) w in
  exists sent4 sent6,
    requests w' = (requests w ++ sent4 ++ sent6)%list /\
    (List.length sent4 <= Z.to_nat (ipFetchRetryCount env) + 2)%nat /\
    (List.length sent6 <= Z.to_nat (ipFetchRetryCount env) + 2)%nat /\
    (List.length (provider_calls sent4) <= 2)%nat /\
    (List.length (provider_calls sent6) <= 2)%nat /\
    Forall (fun i => family_request env 4 "A" (request i)) sent4 /\
    Forall (fun i => family_request env 6 "AAAA" (request i)) sent6 /\
    (isIPv6Enabled env = false -> sent6 = []).
Proof.
  cbv zeta. destruct (monitorIpAddress_halves env out w) as (_ & W). rewrite W.
  pose proof (monitorIPv4_effects env out w) as H4. unfold wp in H4.
  set (w1 := after (monitorIPv4 env out) w) in *.
  pose proof (monitorIPv6_effects env out w1) as H6. unfold wp in H6.
  destruct (half_cycle_sent _ _ _ _ _ _ _ _ _ H4) as (s4 & R4 & N4 & P4 & _ & F4).
  destruct (half_cycle_sent _ _ _ _ _ _ _ _ _ H6) as (s6 & R6 & N6 & P6 & _ & F6).
  destruct (isIPv6Enabled env).
  - exists s4, s6. rewrite R6, R4, <- app_assoc. repeat split; try assumption. discriminate.
  - exists s4, []. rewrite R4, app_nil_r. repeat split; try assumption; simpl; try lia.
    constructor.
Qed.

(** The requests of one half of a cycle, in two parts: those to the echo
    service, then those of the upsert. *)
Lemma half_cycle_parts env out version type stored commit w r w' :
  half_cycle_effects env out version type stored commit w r w' ->
  exists echoes calls,
    requests w' = (requests w ++ echoes ++ calls)%list /\
    Forall (fun i => request i = echo_request version) echoes /\
    (List.length echoes <= Z.to_nat (ipFetchRetryCount env))%nat /\
    (calls = [] \/
     exists recordId ipAddress a,
       calls = [mkIssued (lookup_request env type) a;
                mkIssued (write_request env recordId type ipAddress) a]).
Proof.
  intros H.
  destruct (half_cycle_cases _ _ _ _ _ _ _ _ _ H)
    as (echoes & -> & B & [(CH & A & R) | (ip & lookup & CH & E & NE & D & OK & A & R)]).
  - eexists. exists []. rewrite app_nil_r. split; [exact R |].
    split; [apply Forall_echoes; reflexivity |]. rewrite repeat_length. auto.
  - do 2 eexists. split; [exact R |].
    split; [apply Forall_echoes; reflexivity |]. rewrite repeat_length.
    split; [exact B |]. right. unfold upsert_requests. eauto.
Qed.

Lemma cycle_parts env out w :
  let w' := after (monitorIpAddress env out) w in
  exists echoes4 calls4 echoes6 calls6,
    requests w' = (requests w ++ echoes4 ++ calls4 ++ echoes6 ++ calls6)%list /\
    Forall (fun i => request i = echo_request 4) echoes4 /\
    Forall (fun i => request i = echo_request 6) echoes6 /\
    (List.length echoes4 <= Z.to_nat (ipFetchRetryCount env))%nat /\
    (List.length echoes6 <= Z.to_nat (ipFetchRetryCount env))%nat /\
    (calls4 = [] \/
     exists recordId ipAddress a,
       calls4 = [mkIssued (lookup_request env "A") a;
                 mkIssued (write_request env recordId "A" ipAddress) a]) /\
    (calls6 = [] \/
     exists recordId ipAddress a,
       calls6 = [mkIssued (lookup_request env "AAAA") a;
                 mkIssued (write_request env recordId "AAAA" ipAddress) a]) /\
    (isIPv6Enabled env = false -> echoes6 = [] /\ calls6 = []).
Proof.
  cbv zeta. destruct (monitorIpAddress_halves env out w) as (_ & W). rewrite W.
  pose proof (monitorIPv4_effects env out w) as H4. unfold wp in H4.
  set (w1 := after (monitorIPv4 env out) w) in *.
  pose proof (monitorIPv6_effects env out w1) as H6. unfold wp in H6.
  destruct (half_cycle_parts _ _ _ _ _ _ _ _ _ H4) as (e4 & c4 & R4 & F4 & N4 & C4).
  destruct (half_cycle_parts _ _ _ _ _ _ _ _ _ H6) as (e6 & c6 & R6 & F6 & N6 & C6).
  destruct (isIPv6Enabled env).
  - exists e4, c4, e6, c6. rewrite R6, R4, <- !app_assoc.
    repeat split; try assumption; discriminate.
  - exists e4, c4, [], []. rewrite R4, !app_nil_r.
    repeat split; try assumption; auto; simpl; lia.
Qed.

(** X13: the requests of a cycle.  A cycle only adds requests to those
    issued before, family by family: for IPv4 at most [ipFetchRetryCount]
    requests to the IPv4 echo service, then either nothing or the lookup
    and the write of the A record; then, when IPv6 is enabled, the same for
    the IPv6 echo service and the AAAA record.  So a cycle issues at most
    [ipFetchRetryCount + 2] requests per enabled family, at most two of
    them to the provider, and every request is a GET to an echo service,
    the lookup of the record, its creation or its replacement.  With IPv6
    disabled nothing is sent to the IPv6 echo service and no AAAA record is
    looked up or written. *)
Theorem X13_cycle_requests :
  forall env out w,
    let w' := after (monitorIpAddress env out) w in
    let sent := issued_since w w' in
    let limit := Z.to_nat (ipFetchRetryCount env) in
    requests w' = (requests w ++ sent)%list /\
    (exists echoes4 calls4 echoes6 calls6,
        sent = (echoes4 ++ calls4 ++ echoes6 ++ calls6)%list /\
        Forall (fun i => request i = echo_request 4) echoes4 /\
        Forall (fun i => request i = echo_request 6) echoes6 /\
        (List.length echoes4 <= limit)%nat /\
        (List.length echoes6 <= limit)%nat /\
        (calls4 = [] \/
         exists recordId ipAddress a,
           calls4 = [mkIssued (lookup_request env "A") a;
                     mkIssued (write_request env recordId "A" ipAddress) a]) /\
        (calls6 = [] \/
         exists recordId ipAddress a,
           calls6 = [mkIssued (lookup_request env "AAAA") a;
                     mkIssued (write_request env recordId "AAAA" ipAddress) a]) /\
        (isIPv6Enabled env = false -> echoes6 = [] /\ calls6 = [])) /\
    (List.length sent <= (limit + 2) * families env)%nat /\
    (List.length (provider_calls sent) <= 2 * families env)%nat /\
    Forall (fun i => known_request env (request i)) sent /\
    (isIPv6Enabled env = false ->
     Forall (fun i => family_request env 4 "A" (request i)) sent).
Proof.
  intros env out w. cbv zeta.
  destruct (cycle_sent env out w) as (s4 & s6 & R & N4 & N6 & P4 & P6 & F4 & F6 & V6).
  rewrite (issued_since_app _ _ _ R). split; [exact R |]. split.
  { destruct (cycle_parts env out w) as (e4 & c4 & e6 & c6 & R' & PARTS).
    exists e4, c4, e6, c6. split; [| exact PARTS].
    rewrite R in R'. now apply app_inv_head in R'. }
  unfold families. destruct (isIPv6Enabled env).
  - rewrite length_app, provider_calls_app, length_app.
    split; [lia |]. split; [lia |]. split; [| discriminate].
    apply Forall_app. split; eapply Forall_impl; try eassumption;
      intros i Hi; eapply known_of_family; exact Hi.
  - rewrite (V6 eq_refl), app_nil_r in *.
    split; [lia |]. split; [lia |]. split; [| intros _; exact F4].
    eapply Forall_impl; [| exact F4]. intros i Hi. eapply known_of_family; exact Hi.
Qed.

(** X13 on a cycle with IPv6 disabled whose address changed. *)
Lemma X13_witness :
  isIPv6Enabled env_demo = false /\
  Forall (fun i => family_request env_demo 4 "A" (request i))
         (issued_since w_demo (after (monitorIpAddress env_demo out_push_fails) w_demo)).
Proof.
  split; [reflexivity |].
  apply (X13_cycle_requests env_demo out_push_fails w_demo). reflexivity.
Defined.

(** X14: the API token stays with the provider.  Every request of a cycle
    that goes to the provider goes to the records of the configured zone
    and carries the bearer token; every other request is a GET with no
    header, no parameter and no body, so the echo services never see the
    token. *)
Theorem X14_token_stays_with_provider :
  forall env out w,
    let w' := after (monitorIpAddress env out) w in
    Forall (fun i => token_confined env (request i)) (issued_since w w').
Proof.
  intros env out w. cbv zeta.
  destruct (cycle_sent env out w) as (s4 & s6 & R & _ & _ & _ & _ & F4 & F6 & _).
  rewrite (issued_since_app _ _ _ R).
  apply Forall_app. split; eapply Forall_impl; try eassumption;
    intros i Hi; apply known_request_confined; eapply known_of_family; exact Hi.
Qed.

(** X15: the address state over a cycle.  A stored address is only ever
    replaced by a non-empty address that the family's echo service
    returned in this cycle and that differs from the stored one; it is
    never reset to null, and the IPv6 entry is not touched while IPv6 is
    disabled.  The state changes in a cycle exactly when the cycle calls
    the provider: no upsert without a change of state, and no change of
    state without an upsert. *)
Theorem X15_cycle_address_state :
  forall env out w,
    let w' := after (monitorIpAddress env out) w in
    (forall ip, currentIPv4 (addr w') = Some ip ->
       currentIPv4 (addr w) = Some ip \/
       (ip <> EmptyString /\
        exists n, echo_reply out n (echo_request 4) = Fulfilled ip)) /\
    (forall ip, currentIPv6 (addr w') = Some ip ->
       currentIPv6 (addr w) = Some ip \/
       (isIPv6Enabled env = true /\ ip <> EmptyString /\
        exists n, echo_reply out n (echo_request 6) = Fulfilled ip)) /\
    (currentIPv4 (addr w') = None -> currentIPv4 (addr w) = None) /\
    (currentIPv6 (addr w') = None -> currentIPv6 (addr w) = None) /\
    (addr w' = addr w <-> provider_calls (issued_since w w') = []).
Proof.
  intros env out w. cbv zeta.
  destruct (monitorIpAddress_halves env out w) as (_ & W). rewrite W.
  pose proof (monitorIPv4_effects env out w) as H4. unfold wp in H4.
  set (w1 := after (monitorIPv4 env out) w) in *.
  pose proof (monitorIPv6_effects env out w1) as H6. unfold wp in H6.
  set (w2 := after (monitorIPv6 env out) w1) in *.
  destruct (half_cycle_cases _ _ _ _ _ _ _ _ _ H4)
    as (e4 & -> & _ & [(_ & A4 & R4) | (ip4 & l4 & _ & _ & NE4 & D4 & OK4 & A4 & R4)]);
  destruct (half_cycle_cases _ _ _ _ _ _ _ _ _ H6)
    as (e6 & -> & _ & [(_ & A6 & R6) | (ip6 & l6 & _ & _ & NE6 & D6 & OK6 & A6 & R6)]);
  clear H4 H6; destruct (isIPv6Enabled env);
  rewrite ?R6, ?R4, <- ?app_assoc in *;
  match goal with
  | |- context [issued_since w ?x] =>
      match goal with
      | E : requests x = (requests w ++ ?l)%list |- _ => rewrite (issued_since_app w x l E)
      end
  end;
  rewrite ?provider_calls_app, ?provider_calls_echoes, ?provider_calls_upsert; cbn [app];
  rewrite ?A6, ?A4; cbn [currentIPv4 currentIPv6];
  (split; [intros ip E; try (left; exact E); try (injection E as <-; right; eauto) |]);
  (split; [intros ip E; try (left; exact E); try (injection E as <-; right; eauto) |]);
  (split; [try discriminate; auto |]);
  (split; [try discriminate; auto |]);
  (split; [intros E | intros E]; try reflexivity; try discriminate);
  exfalso;
  first [ apply D4; rewrite <- E; reflexivity
        | apply D6; rewrite ?A4; rewrite <- E; reflexivity ].
Qed.

(** X15 on a cycle that resolves a new address. *)
Lemma X15_witness :
  currentIPv4 (addr (after (monitorIpAddress env_demo out_push_fails) w_demo)) =
    Some "198.51.100.7" /\
  (currentIPv4 (addr w_demo) = Some "198.51.100.7" \/
   ("198.51.100.7" <> EmptyString /\
    exists n, echo_reply out_push_fails n (echo_request 4) = Fulfilled "198.51.100.7")).
Proof.
  split; [reflexivity |].
  apply (X15_cycle_address_state env_demo out_push_fails w_demo). reflexivity.
Defined.

(* ------------------------------------------------------------------ *)
(** *** Start-up, in full                                              *)
(* ------------------------------------------------------------------ *)

Lemma ensured_grew w w1 :
  log_file w1 = Some (match log_file w with
                      | Some content => content
                      | None => Document emptyDocument
                      end) ->
  log_grew w w1 [].
Proof.
  intros F R. unfold log_ready, log_entries in *. rewrite F.
  destruct (log_file w) as [content |].
  - split; [assumption |]. exists []. now rewrite app_nil_r.
  - split; [reflexivity |]. exists []. split; reflexivity.
Qed.

(** One round of the loop over the record types at start-up, with what it
    writes to the log. *)
Lemma initial_update_effects env out dnsType cur w0 levels w :
  log_grew w0 w levels ->
  wp (if truthy_str cur then
        updateDnsRecord env out dnsType (tmpl cur)
      else
        console_out StdWarn
          [JStr ("[startServer] " ++ dnsType ++
                 "アドレスが取得できなかったため、初回DNS更新をスキップします。")] ;;
        appendToLogFile out "WARN" (skip_entry dnsType))
     (fun r w' =>
        r = Done tt /\
        addr w' = addr w /\
        timers w' = timers w /\
        exists sent more,
          requests w' = (requests w ++ sent)%list /\
          (List.length sent <= 2)%nat /\
          Forall (fun i => known_request env (request i)) sent /\
          log_grew w0 w' (levels ++ more) /\
          (1 <= List.length more)%nat /\
          Forall (fun l => In l known_levels) more) w.
Proof.
  intros G. destruct (truthy_str cur) eqn:TR.
  - eapply wp_mono; [apply updateDnsRecord_levels |]. cbv beta zeta.
    intros r w1 (-> & A1 & T1 & R1 & G1).
    split; [reflexivity |]. split; [assumption |]. split; [assumption |].
    do 2 eexists. split; [exact R1 |]. split; [simpl; lia |]. split; [| split; [| split]].
    + unfold upsert_requests. repeat (apply Forall_cons || apply Forall_nil); cbn [request];
        unfold known_request; eauto 7.
    + eapply log_grew_trans; [exact G | exact G1].
    + unfold upsert_levels. rewrite !length_app. simpl. lia.
    + apply upsert_levels_known.
  - wp_go.
    eapply (wp_append_last out _ _ _ w0 w); [exact G | reflexivity | intro; reflexivity |].
    intros w1 (A1 & R1 & T1) G1. world_simpl.
    split; [reflexivity |]. split; [assumption |]. split; [assumption |].
    exists [], [Some (JStr "WARN")]. rewrite app_nil_r.
    split; [assumption |]. split; [simpl; lia |]. split; [constructor |].
    split; [exact G1 |]. split; [simpl; lia |].
    repeat (apply Forall_cons || apply Forall_nil); unfold known_levels; simpl; auto.
Qed.

Lemma startServer_effects env out w :
  missingEnvVars env = [] ->
  wp (startServer env out)
     (fun r w' =>
        r = Done tt /\
        (exists waits,
            timers w' = (timers w ++ waits ++ [Interval MONITOR_INTERVAL])%list /\
            Forall (fun t => exists ms, t = Sleep ms) waits) /\
        (exists sent,
            requests w' = (requests w ++ sent)%list /\
            (List.length sent <= (Z.to_nat (ipFetchRetryCount env) + 2) * families env)%nat /\
            Forall (fun i => known_request env (request i)) sent) /\
        (exists levels,
            log_grew w w' (Some (JStr "INFO") :: levels) /\
            (families env <= List.length levels)%nat /\
            Forall (fun l => In l known_levels) levels)) w.
Proof.
  intros CFG. unfold startServer. wp_step.
  unfold ensureRequiredEnvVars. rewrite CFG. cbn [List.length Nat.ltb Nat.leb].
  wp_step. wp_step. apply wp_ensureLogFile. intros w1 (A1 & R1 & T1) C1 K1 F1.
  wp_go.
  eapply (wp_append_last out _ _ [] w w1);
    [now apply ensured_grew | reflexivity | intro; reflexivity |].
  intros w2 (A2 & R2 & T2) G2. world_simpl. cbn [app] in G2.
  wp_step. eapply wp_mono; [apply fetchPublicIpAddress_full |]. cbv beta zeta.
  intros r w3 (-> & A3 & R3 & G3 & T3).
  rewrite R2, R1 in *. rewrite T2, T1 in T3.
  pose proof (resolution_bound out 4 (ipFetchRetryCount env)
                (Z.to_nat (ipFetchRetryCount env)) 0 (List.length (requests w))) as B4.
  rewrite Z.sub_0_r in B4.
  set (res4 := resolution out _ 4 _ 0 _) in *.
  assert (G4 : log_grew w w3 (Some (JStr "INFO") :: resolution_levels res4)).
  { change (log_grew w w3 ([Some (JStr "INFO")] ++ resolution_levels res4)).
    eapply log_grew_trans; eassumption. }
  unfold families. destruct (isIPv6Enabled env).
  - wp_go. eapply wp_mono; [apply fetchPublicIpAddress_full |]. cbv beta zeta.
    intros r w4 (-> & A4 & R4 & G4' & T4). world_simpl.
    rewrite R3, length_app, repeat_length in *.
    pose proof (resolution_bound out 6 (ipFetchRetryCount env)
                  (Z.to_nat (ipFetchRetryCount env)) 0
                  (List.length (requests w) + snd res4)) as B6.
    rewrite Z.sub_0_r in B6.
    set (res6 := resolution out _ 6 _ 0 _) in *.
    wp_go. cbn [app for_of]. wp_step. wp_step. wp_step. world_simpl.
    cbn [String.eqb Ascii.eqb Bool.eqb currentIPv4 currentIPv6].
    rewrite A4. cbn [currentIPv4].
    assert (G6 : log_grew w w4 ((Some (JStr "INFO") :: resolution_levels res4) ++
                                resolution_levels res6)).
    { eapply log_grew_trans; [| exact G4'].
      eapply log_grew_file; [exact G4 | reflexivity]. }
    eapply wp_mono;
      [ eapply (initial_update_effects env out "A" (fst res4) w);
        eapply log_grew_file; [exact G6 | reflexivity] |].
    cbv beta.
    intros r w5 (-> & A5 & T5 & s5 & m5 & R5 & N5 & F5 & G5 & M5 & K5). world_simpl.
    wp_step. wp_step. wp_step. rewrite A5. cbn [currentIPv6].
    eapply wp_mono;
      [ eapply (initial_update_effects env out "AAAA" (fst res6) w _ w5); exact G5 |].
    cbv beta.
    intros r w6 (-> & A6 & T6 & s6 & m6 & R6 & N6 & F6 & G6' & M6 & K6). wp_step.
    split; [reflexivity |]. split; [| split].
    + exists (backoff_waits 0 (snd res4) ++ backoff_waits 0 (snd res6))%list. split.
      * rewrite T6, T5, T4, T3, <- !app_assoc. reflexivity.
      * apply Forall_app. split; apply backoff_waits_sleep.
    + eexists. split; [rewrite R6, R5, R4, <- !app_assoc; reflexivity |]. split.
      * rewrite !length_app, !repeat_length. lia.
      * repeat (apply Forall_app; split); try assumption;
          apply Forall_echoes; cbn [request]; unfold known_request; eauto.
    + eexists. split; [rewrite <- !app_assoc in G6'; exact G6' |]. split.
      * rewrite !length_app. lia.
      * repeat (apply Forall_app; split); try assumption; apply resolution_levels_known.
  - wp_go. cbn [app for_of]. wp_step. wp_step. wp_step. world_simpl.
    cbn [String.eqb Ascii.eqb Bool.eqb currentIPv4 currentIPv6].
    eapply wp_mono;
      [ eapply (initial_update_effects env out "A" (fst res4) w);
        eapply log_grew_file; [exact G4 | reflexivity] |].
    cbv beta.
    intros r w5 (-> & A5 & T5 & s5 & m5 & R5 & N5 & F5 & G5 & M5 & K5). world_simpl.
    wp_step.
    split; [reflexivity |]. split; [| split].
    + exists (backoff_waits 0 (snd res4)). split.
      * rewrite T5, T3, <- !app_assoc. reflexivity.
      * apply backoff_waits_sleep.
    + eexists. split; [rewrite R5, R3, <- !app_assoc; reflexivity |]. split.
      * rewrite !length_app, !repeat_length. lia.
      * repeat (apply Forall_app; split); try assumption;
          apply Forall_echoes; cbn [request]; unfold known_request; eauto.
    + eexists. split; [exact G5 |]. split.
      * rewrite !length_app. unfold jsval in *. lia.
      * repeat (apply Forall_app; split); try assumption; apply resolution_levels_known.
Qed.

(** X16: with a complete configuration and the log directory and file in
    place, start-up runs to its end whatever the services answer.  It
    registers the periodic monitor exactly once, with a period of 60000 ms,
    after the waits of the resolver and even when no address could be
    resolved.  It issues at most [ipFetchRetryCount + 2] requests per
    enabled family, each of them confined as in a cycle (the token goes to
    the provider only).  On a usable log its first entry is an INFO entry,
    followed by at least one entry for each enabled family, all of level
    INFO, WARN or ERROR; the entries that were there stay in place. *)
Theorem X16_startup_schedule :
  forall env out w,
    log_store_present w ->
    missingEnvVars env = [] ->
    let w' := after (startServer env out) w in
    let sent := issued_since w w' in
    outcome (startServer env out) w = Done tt /\
    (exists waits,
        timers w' = (timers w ++ waits ++ [Interval 60000])%list /\
        Forall (fun t => exists ms, t = Sleep ms) waits) /\
    requests w' = (requests w ++ sent)%list /\
    (List.length sent <= (Z.to_nat (ipFetchRetryCount env) + 2) * families env)%nat /\
    Forall (fun i => token_confined env (request i)) sent /\
    (log_ready w = true ->
     log_ready w' = true /\
     exists first added,
       log_entries w' = (log_entries w ++ first :: added)%list /\
       level_of first = Some (JStr "INFO") /\
       (families env <= List.length added)%nat /\
       Forall (fun entry => In (level_of entry) known_levels) added).
Proof.
  intros env out w _ CFG. cbv zeta.
  destruct (startServer_effects env out w CFG)
    as (O & T & (sent & R & N & F) & (levels & G & M & K)).
  rewrite (issued_since_app _ _ _ R).
  split; [exact O |]. split; [exact T |]. split; [exact R |]. split; [exact N |]. split.
  - eapply Forall_impl; [| exact F]. intros i Hi. now apply known_request_confined.
  - intros READY. destruct (G READY) as (R' & added & E & L).
    split; [assumption |].
    destruct added as [| first added]; [discriminate |].
    cbn [map] in L. injection L as L1 L2.
    exists first, added. split; [assumption |]. split; [assumption |]. split.
    + rewrite <- (length_map level_of added), L2. exact M.
    + eapply map_Forall_levels; eassumption.
Qed.

(** X16 on a start with IPv4 only. *)
Lemma X16_witness :
  log_store_present w_demo /\ missingEnvVars env_demo = [] /\
  outcome (startServer env_demo out_steady) w_demo = Done tt.
Proof.
  assert (P : log_store_present w_demo) by (split; [reflexivity | discriminate]).
  split; [exact P |]. split; [reflexivity |].
  apply (X16_startup_schedule env_demo out_steady w_demo P). reflexivity.
Defined.

(** X17: with the log directory and file in place, the record lookup
    returns normally and does not retry.  It issues exactly one request, a
    GET on the zone's records, and returns a record id exactly when the
    reply holds one; null otherwise.  It leaves the address state and the
    timers alone.  It writes to the log only when the request itself failed
    (one ERROR entry): a reply in which the provider reports a failure, or
    lists no record, leaves no trace at all, neither in the log nor on the
    console. *)
Theorem X17_lookup_is_silent_unless_it_fails :
  forall env out type w,
    log_store_present w ->
    let run := fetchDnsRecordId env out type in
    let w' := after run w in
    let reply := list_reply out (List.length (requests w)) (lookup_request env type) in
    (exists recordId,
        outcome run w = Done recordId /\
        (if truthy_str recordId then recordId else None) = record_id_of reply) /\
    issued_since w w' = [mkIssued (lookup_request env type) (addr w)] /\
    addr w' = addr w /\
    timers w' = timers w /\
    log_grew w w' (match reply with
                   | Rejected _ _ => [Some (JStr "ERROR")]
                   | Fulfilled _ => []
                   end) /\
    (forall d, reply = Fulfilled d -> w' = push_request (lookup_request env type) w).
Proof.
  intros env out type w _. cbv zeta.
  destruct (fetchDnsRecordId_levels env out type w) as (O & A & T & R & G).
  split; [exact O |]. split; [exact (issued_since_app _ _ _ R) |].
  split; [exact A |]. split; [exact T |]. split; [exact G |].
  intros d E. unfold after, fetchDnsRecordId, try_catch, bind, axios. rewrite E.
  destruct (list_success d && (0 <? List.length (result d))%nat); reflexivity.
Qed.

(** X17 on a provider that holds the record. *)
Lemma X17_witness :
  log_store_present w_demo /\
  list_reply out_steady (List.length (requests w_demo)) (lookup_request env_demo "A") =
    Fulfilled one_record /\
  after (fetchDnsRecordId env_demo out_steady "A") w_demo =
    push_request (lookup_request env_demo "A") w_demo.
Proof.
  assert (P : log_store_present w_demo) by (split; [reflexivity | discriminate]).
  split; [exact P |]. split; [reflexivity |].
  apply (X17_lookup_is_silent_unless_it_fails env_demo out_steady "A" w_demo P)
    with one_record.
  reflexivity.
Defined.

(* ------------------------------------------------------------------ *)
(** *** The numeric settings                                           *)
(* ------------------------------------------------------------------ *)












